(** * Experience replay buffers of [rls.memories.replay_buffer]

    A shallow embedding of the replay-buffer family
    ([ExperienceReplay], [PrioritizedExperienceReplay], [NStepWrapper],
    [EpisodeExperienceReplay]) and the properties of it that the
    specification relies on.

    Conventions.
    - Python integers that are only ever used as counters or indices
      ([_size], [_data_pointer], [capacity] once validated) are [nat];
      constructor arguments are [Z], since the assertions of the
      constructors are about their sign.
    - Python floats are idealised: exact rationals [Q] where the code only
      adds and multiplies (n-step rewards, padding values), real numbers
      [R] where it takes powers with real exponents (priorities and
      importance weights).
    - A method is a function from the object state to an [outcome]: it
      either returns a value or raises, and in both cases leaves a state
      behind (what was mutated before a [raise] stays mutated).
    - Random draws of numpy are explicit arguments of the sampling
      functions. *)

From Stdlib Require Import ZArith QArith Qpower Reals Lra Lia.
From stdpp Require Import base list.

Set Default Proof Using "Type".

(** ** Python exceptions and method outcomes *)

Inductive exn : Set :=
| AssertionError
| IndexError
| ZeroDivisionError
| ValueError
| AttributeError
| TypeError.

Inductive outcome (S A : Type) : Type :=
| Returns (a : A) (s : S)
| Raises (e : exn) (s : S).
Arguments Returns {S A} a s.
Arguments Raises {S A} e s.

(** A method of an object with state [S] returning an [A]. *)
Definition py (S A : Type) : Type := S -> outcome S A.

Definition py_ret {S A : Type} (a : A) : py S A := fun s => Returns a s.

Definition py_bind {S A B : Type} (f : A -> py S B) (m : py S A) : py S B :=
  fun s =>
    match m s with
    | Returns a s' => f a s'
    | Raises e s' => Raises e s'
    end.

Definition py_raise {S A : Type} (e : exn) : py S A := fun s => Raises e s.

#[global] Instance py_mret {S : Type} : MRet (py S) := @py_ret S.
#[global] Instance py_mbind {S : Type} : MBind (py S) := @py_bind S.

(** The state an object is left in after a call, whether it returned or
    raised. *)
Definition state_of {S A : Type} (m : outcome S A) : S :=
  match m with
  | Returns _ s => s
  | Raises _ s => s
  end.

(** ** Python's [zip] applied to unpacked rows

    [zip] over the unpacked rows transposes a list of rows into the list
    of its columns and stops at the shortest row; with no row at all it
    yields nothing. *)

Section Zip.
Context {F : Type}.

Definition zip_len (rows : list (list F)) : nat :=
  match rows with
  | [] => 0
  | r :: rows' => foldr (fun r' m => Nat.min (length r') m) (length r) rows'
  end.

Definition column (k : nat) (rows : list (list F)) : list F :=
  omap (fun r => r !! k) rows.

Definition zip_star (rows : list (list F)) : list (list F) :=
  (fun k => column k rows) <$> seq 0 (zip_len rows).
End Zip.

(** A stored item is a Python sequence (a tuple made by [zip], or the
    list of the fields of a transition): [unpack] lists its elements, the
    way [zip] iterates over it. *)
Class Unpack (A F : Type) : Type := unpack : A -> list F.
#[global] Hint Mode Unpack ! - : typeclass_instances.

#[global] Instance list_unpack {F : Type} : Unpack (list F) F := fun row => row.

(** ** [ReplayBuffer] and [ExperienceReplay] *)

Module ExperienceReplay.
Section Defs.
Context {A F : Type} {U : Unpack A F}.

Record t : Type := mk {
  batch_size : nat;
  capacity : nat;
  _size : nat;
  _data_pointer : nat;
  _buffer : list (option A)   (* [np.empty(capacity, dtype=object)] *)
}.

Definition set_size (n : nat) (rb : t) : t :=
  mk (batch_size rb) (capacity rb) n (_data_pointer rb) (_buffer rb).
Definition set_data_pointer (p : nat) (rb : t) : t :=
  mk (batch_size rb) (capacity rb) (_size rb) p (_buffer rb).
Definition set_buffer (b : list (option A)) (rb : t) : t :=
  mk (batch_size rb) (capacity rb) (_size rb) (_data_pointer rb) b.

(** [ReplayBuffer.__init__] followed by [ExperienceReplay.__init__]. *)
Definition init (batch_size capacity : Z) : exn + t :=
  if negb (0 <=? batch_size)%Z then inl AssertionError
  else if negb (0 <=? capacity)%Z then inl AssertionError
  else inr (mk (Z.to_nat batch_size) (Z.to_nat capacity) 0 0
               (replicate (Z.to_nat capacity) None)).

(** [ReplayBuffer.reset] *)
Definition reset (rb : t) : t := set_size 0 rb.

Definition is_empty (rb : t) : bool := _size rb =? 0.
Definition is_full (rb : t) : bool := _size rb =? capacity rb.
Definition is_lg_batch_size (rb : t) : bool := batch_size rb <? _size rb.

Definition update_rb_after_add (rb : t) : t :=
  let rb := set_data_pointer (_data_pointer rb + 1) rb in
  let rb := if capacity rb <=? _data_pointer rb
            then set_data_pointer 0 rb else rb in
  if _size rb <? capacity rb then set_size (_size rb + 1) rb else rb.

(** [self._buffer[self._data_pointer] = data] raises [IndexError] when
    the pointer is not a slot of the array. *)
Definition _store_op (data : A) : py t unit := fun rb =>
  if _data_pointer rb <? length (_buffer rb)
  then Returns tt
         (update_rb_after_add
            (set_buffer (<[_data_pointer rb := Some data]> (_buffer rb)) rb))
  else Raises IndexError rb.

(** [[self._store_op(data) for data in rows]] *)
Fixpoint store_all (rows : list A) : py t unit :=
  match rows with
  | [] => mret tt
  | data :: rows' => _store_op data ;; store_all rows'
  end.

(** [self._buffer[:self._size]] *)
Definition live_slots (rb : t) : list (option A) :=
  take (_size rb) (_buffer rb).

(** Unpacking a slot that still holds [None] raises [TypeError]. *)
Definition get_all : py t (list (list F)) := fun rb =>
  match mapM (fun slot => slot) (live_slots rb) with
  | Some rows => Returns (zip_star (unpack <$> rows)) rb
  | None => Raises TypeError rb
  end.

Definition n_sample (rb : t) : nat :=
  if is_lg_batch_size rb then batch_size rb else _size rb.

(** [np.random.choice(population, size=n_sample, replace=False)] picks
    [n_sample] pairwise distinct positions of the population; [choice]
    is the list of positions drawn. *)
Definition possible_choice (rb : t) (choice : list nat) : Prop :=
  length choice = n_sample rb /\ NoDup choice /\
  Forall (fun i => i < length (live_slots rb)) choice.

Definition sample (choice : list nat) : py t (list (list F)) := fun rb =>
  match mapM (fun i => live_slots rb !! i) choice with
  | None => Raises IndexError rb
  | Some picked =>
      match mapM (fun slot => slot) picked with
      | Some rows => Returns (zip_star (unpack <$> rows)) rb
      | None => Raises TypeError rb
      end
  end.
End Defs.
Arguments t : clear implicits.

(** [add]: the columns passed in are zipped into rows, which are stored
    one by one. *)
Definition add {F : Type} (args : list (list F)) : py (t (list F)) unit :=
  store_all (zip_star args).
End ExperienceReplay.

(** ** The sum tree ([rls.memories.sum_tree.Sum_Tree]) *)

Module Sum_Tree.
Section Defs.
Context {D : Type}.

(** Modelled from the spec: the class [Sum_Tree] of
    [rls/memories/sum_tree.py], which the prioritized buffer builds on.
    It is the PriorityIndex of the specification: an array-backed
    complete binary tree of [2C - 1] nodes over [C] leaf slots
    ([parent = (i-1)/2], [children = 2i+1, 2i+2]); the leaves mirror the
    slot positions of the store and share its cursor semantics, an
    internal node caches the sum of its subtree, a slot never written
    has priority 0. *)
Record t : Type := mk {
  capacity : nat;
  now : nat;                 (* the write cursor *)
  tree : list R;             (* the [2C - 1] nodes, root first *)
  data : list (option D)     (* the payload slots *)
}.

(** Modelled from the spec: construction allocates the [2C - 1] nodes and
    the [C] payload slots; no slot is written, every priority is 0. *)
Definition init (capacity : nat) : t :=
  mk capacity 0 (replicate (2 * capacity - 1) 0%R) (replicate capacity None).

(** Modelled from the spec: [reset] returns to the state after
    construction. *)
Definition reset (tr : t) : t := init (capacity tr).

(** Modelled from the spec: the value cached in node [i]. *)
Definition node (nodes : list R) (i : nat) : R := nth i nodes 0%R.

(** Modelled from the spec: [total], an O(1) read of the root. *)
Definition total (tr : t) : R := node (tree tr) 0.

(** Modelled from the spec: the leaves are the last [C] nodes of the
    array, in slot order. *)
Definition leaf_of_slot (tr : t) (slot : nat) : nat := capacity tr - 1 + slot.

(** Modelled from the spec: propagate the signed delta from node [i] up
    to the root. *)
Fixpoint propagate (fuel i : nat) (delta : R) (nodes : list R) : list R :=
  match fuel with
  | 0 => nodes
  | S fuel' =>
      if i =? 0 then nodes
      else
        let parent := Nat.div (i - 1) 2 in
        propagate fuel' parent delta
          (<[parent := (node nodes parent + delta)%R]> nodes)
  end.

(** Modelled from the spec: [update(slot, priority)] overwrites the leaf,
    then propagates. *)
Definition update (slot : nat) (p : R) (tr : t) : t :=
  let i := leaf_of_slot tr slot in
  let delta := (p - node (tree tr) i)%R in
  mk (capacity tr) (now tr)
     (propagate (length (tree tr)) i delta (<[i := p]> (tree tr)))
     (data tr).

(** Modelled from the spec: [add(priority, payload)] writes at the
    cursor and advances the cursor modulo [C]. *)
Definition add (p : R) (d : D) (tr : t) : t :=
  let slot := now tr in
  update slot p
    (mk (capacity tr) ((slot + 1) mod capacity tr) (tree tr)
        (<[slot := Some d]> (data tr))).

(** Modelled from the spec: the batch variants behave as the single
    operations applied in sequence. *)
Definition add_batch (ps : list R) (ds : list D) (tr : t) : t :=
  foldl (fun tr pd => add pd.1 pd.2 tr) tr (zip ps ds).

(** Modelled from the spec: [_updatetree_batch(slots, priorities)], the
    batch variant of [update]. *)
Definition _updatetree_batch (idxs : list nat) (ps : list R) (tr : t) : t :=
  foldl (fun tr ip => update ip.1 ip.2 tr) tr (zip idxs ps).

(** Modelled from the spec: [sample(value)] descends from the root; at
    an internal node it goes left if [value <= left_subtree_sum],
    otherwise it subtracts the left sum and goes right. *)
Fixpoint descend (fuel i : nat) (v : R) (nodes : list R) : nat :=
  match fuel with
  | 0 => i
  | S fuel' =>
      let left := 2 * i + 1 in
      if length nodes <=? left then i
      else if Rle_dec v (node nodes left)
           then descend fuel' left v nodes
           else descend fuel' (left + 1) (v - node nodes left)%R nodes
  end.

(** Modelled from the spec: the slot of the leaf the descent resolves
    to. *)
Definition sample (v : R) (tr : t) : nat :=
  descend (length (tree tr)) 0 v (tree tr) - (capacity tr - 1).

(** Modelled from the spec: the priority held by the leaf of a slot. *)
Definition priority (tr : t) (slot : nat) : R :=
  node (tree tr) (leaf_of_slot tr slot).

(** Modelled from the spec: [get_batch_parallel(values)] returns the
    resolved slots, their priorities and their payloads. *)
Definition get_batch_parallel (vs : list R) (tr : t)
  : list nat * list nat * list R * list (option D) :=
  let idxs := (fun v => sample v tr) <$> vs in
  (idxs, idxs, priority tr <$> idxs,
   (fun slot => mjoin (data tr !! slot)) <$> idxs).
End Defs.
Arguments t : clear implicits.
End Sum_Tree.

(** ** [PrioritizedExperienceReplay] *)

(** [sys.maxsize] *)
Definition sys_maxsize : R := IZR (2 ^ 63 - 1).

(** [x.min()] and [x.max()] of a numpy array; both raise on an empty
    one. *)
Definition array_min (x : list R) : option R :=
  match x with
  | [] => None
  | y :: x' => Some (foldr Rmin y x')
  end.

Definition array_max (x : list R) : option R :=
  match x with
  | [] => None
  | y :: x' => Some (foldr Rmax y x')
  end.

Module PrioritizedExperienceReplay.
Section Defs.
Context {D : Type}.

Record t : Type := mk {
  batch_size : nat;
  capacity : nat;
  _size : nat;
  tree : Sum_Tree.t D;
  alpha : R;
  beta : R;
  init_beta : R;
  beta_interval : R;
  epsilon : R;
  IS_w : list R;
  global_v : bool;
  min_p : R;
  max_p : R;
  last_indexs : option (list nat)   (* unset until the first sampling *)
}.

Definition set_size (x : nat) (b : t) : t :=
  mk (batch_size b) (capacity b) x (tree b) (alpha b) (beta b)
     (init_beta b) (beta_interval b) (epsilon b) (IS_w b) (global_v b)
     (min_p b) (max_p b) (last_indexs b).
Definition set_tree (x : Sum_Tree.t D) (b : t) : t :=
  mk (batch_size b) (capacity b) (_size b) x (alpha b) (beta b)
     (init_beta b) (beta_interval b) (epsilon b) (IS_w b) (global_v b)
     (min_p b) (max_p b) (last_indexs b).
Definition set_beta (x : R) (b : t) : t :=
  mk (batch_size b) (capacity b) (_size b) (tree b) (alpha b) x
     (init_beta b) (beta_interval b) (epsilon b) (IS_w b) (global_v b)
     (min_p b) (max_p b) (last_indexs b).
Definition set_IS_w (x : list R) (b : t) : t :=
  mk (batch_size b) (capacity b) (_size b) (tree b) (alpha b) (beta b)
     (init_beta b) (beta_interval b) (epsilon b) x (global_v b)
     (min_p b) (max_p b) (last_indexs b).
Definition set_min_p (x : R) (b : t) : t :=
  mk (batch_size b) (capacity b) (_size b) (tree b) (alpha b) (beta b)
     (init_beta b) (beta_interval b) (epsilon b) (IS_w b) (global_v b)
     x (max_p b) (last_indexs b).
Definition set_max_p (x : R) (b : t) : t :=
  mk (batch_size b) (capacity b) (_size b) (tree b) (alpha b) (beta b)
     (init_beta b) (beta_interval b) (epsilon b) (IS_w b) (global_v b)
     (min_p b) x (last_indexs b).
Definition set_last_indexs (x : list nat) (b : t) : t :=
  mk (batch_size b) (capacity b) (_size b) (tree b) (alpha b) (beta b)
     (init_beta b) (beta_interval b) (epsilon b) (IS_w b) (global_v b)
     (min_p b) (max_p b) (Some x).

Definition reset (b : t) : t :=
  let b := set_tree (Sum_Tree.reset (tree b)) b in
  let b := set_size 0 b in
  let b := set_beta (init_beta b) b in
  let b := set_min_p sys_maxsize b in
  set_max_p (Rpower (epsilon b) (alpha b)) b.

(** [__init__]: the assertion on [epsilon], then those of
    [ReplayBuffer.__init__]; the division by [max_train_step] raises
    when it is zero.  [IS_w] starts as the scalar 1. *)
Definition init (batch_size capacity max_train_step : Z)
    (alpha beta epsilon : R) (global_v : bool) : exn + t :=
  if Rlt_dec 0 epsilon then
    if negb (0 <=? batch_size)%Z then inl AssertionError
    else if negb (0 <=? capacity)%Z then inl AssertionError
    else if (max_train_step =? 0)%Z then inl ZeroDivisionError
    else
      inr (reset
             (mk (Z.to_nat batch_size) (Z.to_nat capacity) 0
                 (Sum_Tree.init (Z.to_nat capacity))
                 alpha beta beta
                 ((1 - beta) / IZR max_train_step)%R
                 epsilon [1%R] global_v 0%R 0%R None))
  else inl AssertionError.

Definition is_lg_batch_size (b : t) : bool := batch_size b <? _size b.

Definition _store_op (data : D) : py t unit := fun b =>
  let b := set_tree (Sum_Tree.add (max_p b) data (tree b)) b in
  Returns tt (if _size b <? capacity b then set_size (_size b + 1) b else b).

Definition add_batch (data : list D) : py t unit := fun b =>
  let num := length data in
  let b := set_tree
             (Sum_Tree.add_batch (replicate num (max_p b)) data (tree b)) b in
  Returns tt (set_size (Nat.min (_size b + num) (capacity b)) b).

(** [np.power(np.abs(x) + self.epsilon, self.alpha)] *)
Definition to_priority (b : t) (x : R) : R :=
  Rpower (Rabs x + epsilon b) (alpha b).

Definition apex_add_batch (td_error : list R) (data : list D) : py t unit :=
  fun b =>
    let num := length data in
    let prios := to_priority b <$> td_error in
    let b := set_tree (Sum_Tree.add_batch prios data (tree b)) b in
    Returns tt (set_size (Nat.min (_size b + num) (capacity b)) b).

Definition n_sample (b : t) : nat :=
  if is_lg_batch_size b then batch_size b else _size b.

(** [np.linspace(0, total, n + 1)] *)
Definition all_intervals (b : t) : list R :=
  (fun i => Sum_Tree.total (tree b) * INR i / INR (n_sample b))%R
    <$> seq 0 (n_sample b + 1).

(** [np.random.uniform(all_intervals[:-1], all_intervals[1:])]: one
    value in each stratum, lower end included, upper end excluded. *)
Definition possible_draws (b : t) (ps : list R) : Prop :=
  length ps = n_sample b /\
  forall i v, ps !! i = Some v ->
    (nth i (all_intervals b) 0 <= v < nth (i + 1) (all_intervals b) 0)%R.

(** The reference priority the weights are taken against. *)
Definition min_ref (b : t) (p : list R) : option R :=
  if global_v b then
    if Rlt_dec (min_p b) sys_maxsize then Some (min_p b) else array_min p
  else array_min p.

(** [sample]; [ps] are the values drawn in the strata. *)
Definition sample (ps : list R) (return_index : bool)
  : py t (list (option D) * option (list nat)) := fun b =>
  let '(idxs, data_indx, p, data) :=
    Sum_Tree.get_batch_parallel ps (tree b) in
  let b := set_last_indexs idxs b in
  match min_ref b p with
  | None => Raises ValueError b
  | Some _min_p =>
      let b := set_IS_w ((fun p_i => Rpower (_min_p / p_i) (beta b)) <$> p) b in
      Returns (data, if return_index then Some idxs else None) b
  end.

Definition get_IS_w (b : t) : list R := IS_w b.

(** [update]: both assertions come before any assignment; [beta] is
    advanced before the new priorities are looked at. *)
Definition update (priority : list R) (index : option (list nat))
  : py t unit := fun b =>
  match (match index with Some i => Some i | None => last_indexs b end) with
  | None => Raises AttributeError b
  | Some idxs =>
      if negb (length priority =? length idxs) then Raises AssertionError b
      else
        let b := set_beta (Rmin (beta b + beta_interval b) 1) b in
        let priority := to_priority b <$> priority in
        match array_min priority, array_max priority with
        | Some lo, Some hi =>
            let b := set_min_p (Rmin (min_p b) lo) b in
            let b := set_max_p (Rmax (max_p b) hi) b in
            Returns tt
              (set_tree (Sum_Tree._updatetree_batch idxs priority (tree b)) b)
        | _, _ => Raises ValueError b
        end
  end.
End Defs.
Arguments t : clear implicits.

(** [add]: the columns passed in are zipped into rows and stored as one
    batch. *)
Definition add {F : Type} (args : list (list F)) : py (t (list F)) unit :=
  add_batch (zip_star args).
End PrioritizedExperienceReplay.

(** ** Transitions

    [[s, visual_s, a, r, s_, visual_s_, done]]: the format every buffer of
    the module expects.  Observations and actions are one-dimensional
    arrays, the reward is a scalar. *)

Abbreviation ndarray := (list Q).

Record transition : Type := Transition {
  s : ndarray;
  visual_s : ndarray;
  a : ndarray;
  r : Q;
  s_ : ndarray;
  visual_s_ : ndarray;
  done : bool
}.

(** [(x != y).any()] on two arrays of the same shape. *)
Definition ne_any (x y : ndarray) : bool :=
  existsb (fun xy => negb (Qeq_bool xy.1 xy.2)) (zip x y).

Inductive field : Type :=
| Arr (x : ndarray)
| Num (x : Q)
| Flag (b : bool).

#[global] Instance transition_unpack : Unpack transition field := fun d =>
  [Arr (s d); Arr (visual_s d); Arr (a d); Num (r d);
   Arr (s_ d); Arr (visual_s_ d); Flag (done d)].

(** ** [NStepWrapper] *)

(** The wrapper reaches the wrapped buffer through [_store_op] only. *)
Class StoreOp (B : Type) : Type := buffer_store_op : transition -> py B unit.

#[global] Instance ExperienceReplay_StoreOp : StoreOp (ExperienceReplay.t transition) :=
  ExperienceReplay._store_op.

Module NStepWrapper.
Section Defs.
Context {B : Type} {SO : StoreOp B}.

Record t : Type := mk {
  buffer : B;
  n : nat;
  gamma : Q;
  agents_num : nat;
  queue : list (list transition)
}.

Definition set_buffer (b : B) (w : t) : t :=
  mk b (n w) (gamma w) (agents_num w) (queue w).
Definition set_queue (qs : list (list transition)) (w : t) : t :=
  mk (buffer w) (n w) (gamma w) (agents_num w) qs.

Definition init (buffer : B) (gamma : Q) (n agents_num : nat) : t :=
  mk buffer n gamma agents_num (replicate agents_num []).

(** [self._store_op] is looked up on the wrapped buffer
    ([__getattr__]). *)
Definition _store_op (data : transition) : py t unit := fun w =>
  match buffer_store_op data (buffer w) with
  | Returns _ b => Returns tt (set_buffer b w)
  | Raises e b => Raises e (set_buffer b w)
  end.

(** The list object [q = self.queue[i]] and the operations the code
    applies to it in place. *)
Definition get_q (i : nat) : py t (list transition) := fun w =>
  match queue w !! i with
  | Some q => Returns q w
  | None => Raises IndexError w
  end.

Definition put_q (i : nat) (q : list transition) : py t unit := fun w =>
  Returns tt (set_queue (<[i := q]> (queue w)) w).

Definition append (i : nat) (data : transition) : py t unit :=
  q ← get_q i; put_q i (q ++ [data]).

Definition clear (i : nat) : py t unit := put_q i [].

(** [q.pop(0)] *)
Definition pop_first (i : nat) : py t transition :=
  q ← get_q i;
  match q with
  | [] => py_raise IndexError
  | x :: q' => put_q i q';; mret x
  end.

(** [q.pop()] *)
Definition pop_last (i : nat) : py t transition :=
  q ← get_q i;
  match last q with
  | None => py_raise IndexError
  | Some x => put_q i (removelast q);; mret x
  end.

(** One round of the loop [for j in range(_len)]:
    [q[j][3] += data[3] * gamma ** (_len - j)] and [q[j][4:] = data[4:]]. *)
Definition roll (gamma : Q) (_len : nat) (data : transition)
    (j : nat) (e : transition) : transition :=
  Transition (s e) (visual_s e) (a e)
    (r e + r data * gamma ^ Z.of_nat (_len - j))%Q
    (s_ data) (visual_s_ data) (done data).

(** [while q: self._store_op(q.pop())]; the loop runs once per queued
    entry, which is the fuel it is given. *)
Fixpoint flush (fuel : nat) (i : nat) : py t unit :=
  match fuel with
  | 0 => mret tt
  | S fuel' =>
      q ← get_q i;
      match q with
      | [] => mret tt
      | _ => x ← pop_last i; _store_op x;; flush fuel' i
      end
  end.

Definition _per_store (i : nat) (data : transition) : py t unit := fun w =>
  (q ← get_q i;
   match last q with
   | None => append i data
   | Some tail =>
       if ne_any (s_ tail) (s data)
          || ne_any (visual_s_ tail) (visual_s data)
       then
         (if length q =? n w
          then x ← pop_first i; _store_op x
          else clear i);;
         append i data
       else
         (if length q =? n w
          then x ← pop_first i; _store_op x
          else mret tt);;
         q ← get_q i;
         let _len := length q in
         put_q i (imap (roll (gamma w) _len data) q);;
         append i data;;
         if done data
         then q ← get_q i; flush (length q) i
         else mret tt
   end) w.

(** [[self._per_store(i, list(data)) for i, data in enumerate(rows)]] *)
Fixpoint per_store_from (i : nat) (rows : list transition) : py t unit :=
  match rows with
  | [] => mret tt
  | data :: rows' => _per_store i data;; per_store_from (S i) rows'
  end.

(** [add]: [rows] are the transitions obtained by zipping the seven
    columns passed in, one per agent. *)
Definition add (rows : list transition) : py t unit :=
  per_store_from 0 rows.
End Defs.
Arguments t : clear implicits.
End NStepWrapper.

(** [NStepExperienceReplay]: the wrapper around an [ExperienceReplay]. *)
Definition NStepExperienceReplay (batch_size capacity : Z) (gamma : Q)
    (n agents_num : nat)
  : exn + NStepWrapper.t (ExperienceReplay.t transition) :=
  match ExperienceReplay.init batch_size capacity with
  | inl e => inl e
  | inr rb => inr (NStepWrapper.init rb gamma n agents_num)
  end.

(** ** [EpisodeExperienceReplay] *)

(** Keras' [pad_sequences(x, padding='pre', truncating='pre', value=v,
    maxlen=l)]: every sequence keeps its last [l] elements and is filled
    up in front with copies of [v] (of the shape of the elements of the
    first non-empty sequence); an empty sequence becomes all padding.
    An element of another shape raises [ValueError].  With [l = 0] the
    slice [s[-l:]] is the whole sequence, which is then assigned to an
    empty slice: a single element broadcasts into it and is lost, more
    than one raise [ValueError]. *)
Definition sample_shape (x : list (list ndarray)) : nat :=
  match concat x with
  | [] => 0
  | e :: _ => length e
  end.

Definition pad_row (fill : ndarray) (l : nat) (sq : list ndarray)
  : option (list ndarray) :=
  match sq with
  | [] => Some (replicate l fill)
  | _ =>
      let trunc := if l =? 0 then sq else drop (length sq - l) sq in
      if negb (forallb (fun e => length e =? length fill) trunc) then None
      else if length trunc <=? l
           then Some (replicate (l - length trunc) fill ++ trunc)
           else if length trunc =? 1 then Some (replicate l fill)
                else None
  end.

Definition pad_sequences (x : list (list ndarray)) (v : Q) (l : nat)
  : option (list (list ndarray)) :=
  mapM (pad_row (replicate (sample_shape x) v) l) x.

Module EpisodeExperienceReplay.
(** One step [[s, visual_s, a, r, s_, visual_s_, done, other...]], every
    field an array ([pad_sequences] turns all of them into float
    arrays; [done] is [[1]] or [[0]]). *)
Abbreviation step := (list ndarray).
Abbreviation trajectory := (list step).

(** A field of a sampled batch: [[B, T, N]] or, once reshaped,
    [[B*T, N]]. *)
Inductive tensor : Type :=
| BTN (x : list (list ndarray))
| RowsN (x : list ndarray).

Record t : Type := mk {
  batch_size : nat;
  capacity : nat;
  _size : nat;
  agents_num : nat;
  burn_in_time_step : nat;
  train_time_step : nat;
  timestep : nat;
  queue : list trajectory;
  _data_pointer : nat;
  _buffer : list (option trajectory);
  burn_in_states : option (list (list (list ndarray)))
}.

Definition init (batch_size capacity : Z)
    (agents_num burn_in_time_step train_time_step : nat) : exn + t :=
  if negb (0 <=? batch_size)%Z then inl AssertionError
  else if negb (0 <=? capacity)%Z then inl AssertionError
  else inr (mk (Z.to_nat batch_size) (Z.to_nat capacity) 0 agents_num
               burn_in_time_step train_time_step
               (burn_in_time_step + train_time_step)
               (replicate agents_num []) 0
               (replicate (Z.to_nat capacity) None) None).

Definition set_store (size ptr : nat) (buf : list (option trajectory))
    (b : t) : t :=
  mk (batch_size b) (capacity b) size (agents_num b) (burn_in_time_step b)
     (train_time_step b) (timestep b) (queue b) ptr buf (burn_in_states b).
Definition set_queue (qs : list trajectory) (b : t) : t :=
  mk (batch_size b) (capacity b) (_size b) (agents_num b)
     (burn_in_time_step b) (train_time_step b) (timestep b) qs
     (_data_pointer b) (_buffer b) (burn_in_states b).
Definition set_burn_in_states (x : list (list (list ndarray))) (b : t) : t :=
  mk (batch_size b) (capacity b) (_size b) (agents_num b)
     (burn_in_time_step b) (train_time_step b) (timestep b) (queue b)
     (_data_pointer b) (_buffer b) (Some x).

Definition update_rb_after_add (b : t) : t :=
  let ptr := _data_pointer b + 1 in
  let ptr := if capacity b <=? ptr then 0 else ptr in
  set_store (if _size b <? capacity b then _size b + 1 else _size b)
    ptr (_buffer b) b.

Definition _store_op (data : trajectory) : py t unit := fun b =>
  if _data_pointer b <? length (_buffer b)
  then Returns tt
         (update_rb_after_add
            (set_store (_size b) (_data_pointer b)
               (<[_data_pointer b := Some data]> (_buffer b)) b))
  else Raises IndexError b.

(** [data[k]] *)
Definition item (k : nat) (data : step) : py t ndarray := fun b =>
  match data !! k with
  | Some x => Returns x b
  | None => Raises IndexError b
  end.

(** The truth value of the array [data[6]]: that of its only element. *)
Definition truth (x : ndarray) : py t bool := fun b =>
  match x with
  | [v] => Returns (negb (Qeq_bool v 0)) b
  | _ => Raises ValueError b
  end.

Definition put_q (i : nat) (q : trajectory) : py t unit := fun b =>
  Returns tt (set_queue (<[i := q]> (queue b)) b).

(** [(tail[4] != data[0]).any() or (tail[5] != data[1]).any()]; the
    second comparison is only evaluated when the first is false. *)
Definition discontinuous (tail data : step) : py t bool :=
  tail4 ← item 4 tail; data0 ← item 0 data;
  if ne_any tail4 data0 then mret true
  else tail5 ← item 5 tail; data1 ← item 1 data; mret (ne_any tail5 data1).

Definition _per_store (i : nat) (data : step) : py t unit := fun b =>
  match queue b !! i with
  | None => Raises IndexError b
  | Some q =>
      match last q with
      | None => put_q i [data] b
      | Some tail =>
          (cut ← discontinuous tail data;
           if (cut : bool)
           then _store_op q;; put_q i [data]
           else
             data6 ← item 6 data; is_done ← truth data6;
             if (is_done : bool)
             then put_q i (q ++ [data]);; _store_op (q ++ [data]);;
                  put_q i []
             else put_q i (q ++ [data])) b
      end
  end.

Definition is_lg_batch_size (b : t) : bool := batch_size b <? _size b.
Definition n_sample (b : t) : nat :=
  if is_lg_batch_size b then batch_size b else _size b.
Definition live_slots (b : t) : list (option trajectory) :=
  take (_size b) (_buffer b).

(** [truncate]; [idx] is the value drawn by
    [np.random.randint(max(1, len(traj) - self.timestep + 1))]. *)
Definition truncate (W : nat) (traj : trajectory) (idx : nat) : trajectory :=
  take W (drop idx traj).

Definition possible_start (W : nat) (traj : trajectory) (idx : nat) : Prop :=
  idx < Nat.max 1 (length traj - W + 1).

Definition pad_value (k : nat) : Q := if k =? 6 then 1%Q else 0%Q.

(** The loop over the truncated trajectories, which appends field [k]
    of each of them to [data_list[k]]. *)
Definition data_list (experience_type_num : nat)
    (truncated_trajs : list trajectory) : list (list (list ndarray)) :=
  (fun k => omap (fun traj => zip_star traj !! k) truncated_trajs)
    <$> seq 0 experience_type_num.

(** The padded [data_list]: the first six fields are padded, then
    [data_list[6]], which raises [IndexError] when there are fewer than
    seven fields, then the fields after it. *)
Definition padded_data_list (W experience_type_num : nat)
    (truncated_trajs : list trajectory)
  : exn + list (list (list ndarray)) :=
  let dl := data_list experience_type_num truncated_trajs in
  match mapM (fun kx => pad_sequences kx.2 (pad_value kx.1) W)
             (imap pair (take 6 dl)) with
  | None => inl ValueError
  | Some first =>
      if experience_type_num <? 7 then inl IndexError
      else
        match mapM (fun kx => pad_sequences kx.2 (pad_value kx.1) W)
                   (imap (fun i x => (6 + i, x)) (drop 6 dl)) with
        | None => inl ValueError
        | Some rest => inr (first ++ rest)
        end
  end.

(** The values [flat] of an array, in row-major order, cut into [m]
    rows of [width] values. *)
Fixpoint chunk (width m : nat) (flat : list Q) : list ndarray :=
  match m with
  | 0 => []
  | S m' => take width flat :: chunk width m' (drop width flat)
  end.

(** [x.reshape(m, -1)] and [x.reshape(-1, w)]: numpy raises [ValueError]
    when the known dimension is 0 or does not divide the number of
    values of the array. *)
Definition reshape_rows (m : nat) (flat : list Q) : option (list ndarray) :=
  if (m =? 0) || negb (length flat mod m =? 0) then None
  else Some (chunk (length flat / m) m flat).

Definition reshape_width (w : nat) (flat : list Q) : option (list ndarray) :=
  if (w =? 0) || negb (length flat mod w =? 0) then None
  else Some (chunk w (length flat / w) flat).

(** [x.shape[-1]] of a padded field cut to [T] time steps: the width of
    its vectors, which [pad_sequences] takes from the first vector of
    the sequences it is given; without any vector the array has the two
    dimensions [[B, T]] only. *)
Definition last_dim (T : nat) (sequences : list (list ndarray)) : nat :=
  match concat sequences with
  | [] => T
  | e :: _ => length e
  end.

(** The reshaping of the training part of field [k]: the actions by
    [x.reshape(n_sample * train_time_step, -1)], the rewards by
    [x.reshape(-1, 1)], the fields from [done] on by
    [x.reshape(-1, x.shape[-1])]; [rows] is
    [n_sample * train_time_step] and [N] is [x.shape[-1]]. *)
Definition reshape (rows k N : nat) (x : list (list ndarray))
  : option tensor :=
  if k =? 2 then RowsN <$> reshape_rows rows (concat (concat x))
  else if k =? 3 then Some (RowsN ((fun v => [v]) <$> concat (concat x)))
  else if 6 <=? k then RowsN <$> reshape_width N (concat (concat x))
  else Some (BTN x).

(** [sample]; [choice] are the positions of the trajectories drawn from
    the live slots, [starts] the window starts drawn for them.  The
    burn-in states are assigned before the training part is reshaped. *)
Definition picked (choice : list nat) (b : t) : option (list trajectory) :=
  mapM (M:=option) (fun i : nat => mjoin (live_slots b !! i)) choice.

Definition sample (choice starts : list nat) : py t (list tensor) := fun b =>
  match picked choice b with
  | None => Raises IndexError b
  | Some trajs =>
      match trajs with
      | (step0 :: _) :: _ =>
          let experience_type_num := length step0 in
          let truncated_trajs :=
            zip_with (truncate (timestep b)) trajs starts in
          match padded_data_list (timestep b) experience_type_num
                  truncated_trajs with
          | inl e => Raises e b
          | inr padded =>
              let b' :=
                set_burn_in_states
                  ((fun x : list (list ndarray) =>
                      take (burn_in_time_step b) <$> x)
                     <$> take 2 padded) b in
              let shapes :=
                last_dim (timestep b - burn_in_time_step b)
                  <$> data_list experience_type_num truncated_trajs in
              let training :=
                (fun x : list (list ndarray) =>
                   drop (burn_in_time_step b) <$> x) <$> padded in
              match mapM (fun kNx : nat * (nat * list (list ndarray)) =>
                            reshape (n_sample b * train_time_step b)
                              kNx.1 kNx.2.1 kNx.2.2)
                         (imap pair (zip shapes training)) with
              | Some out => Returns out b'
              | None => Raises ValueError b'
              end
          end
      | _ => Raises IndexError b
      end
  end.

(** [[self._per_store(i, list(data)) for i, data in enumerate(rows)]] *)
Fixpoint per_store_from (i : nat) (rows : list step) : py t unit :=
  match rows with
  | [] => mret tt
  | data :: rows' => _per_store i data;; per_store_from (S i) rows'
  end.

(** [add]: [rows] are the steps obtained by zipping the columns passed
    in, one per agent. *)
Definition add (rows : list step) : py t unit := per_store_from 0 rows.

(** [get_burn_in_states]: the attribute exists once [sample] has
    returned; the unpacking wants exactly two elements. *)
Definition get_burn_in_states
  : py t (list (list ndarray) * list (list ndarray)) := fun b =>
  match burn_in_states b with
  | None => Raises AttributeError b
  | Some [s; visual_s] => Returns (s, visual_s) b
  | Some _ => Raises ValueError b
  end.
End EpisodeExperienceReplay.

(** * Vocabulary of the properties

    Short names for the modules, and the definitions the statements
    below are written with: the states reached by runs of calls, the
    invariants they satisfy, and the concrete inputs of the examples. *)

Module ER := ExperienceReplay.
Module NS := NStepWrapper.
Module PER := PrioritizedExperienceReplay.
Module EER := EpisodeExperienceReplay.

(** ** [ExperienceReplay] *)

Section ExperienceReplayVocabulary.
Context {A : Type}.

(** A freshly built buffer: batch size [bs], capacity [C], every slot
    unwritten. *)
Definition fresh (bs C : nat) : ER.t A :=
  ER.mk bs C 0 0 (replicate C None).

(** What [n] insertions into a fresh buffer of capacity [C] leave behind:
    reading the array from the cursor on, wrapping around, one meets the
    never-written slots first and then the last [C] inserted items,
    oldest first. *)
Record ring_inv (C : nat) (l : list A) (rb : ER.t A) : Prop := {
  ri_capacity : ER.capacity rb = C;
  ri_length : length (ER._buffer rb) = C;
  ri_size : ER._size rb = Nat.min (length l) C;
  ri_pointer : ER._data_pointer rb = length l mod C;
  ri_slots :
    drop (ER._data_pointer rb) (ER._buffer rb)
      ++ take (ER._data_pointer rb) (ER._buffer rb)
    = replicate (C - length l) None ++ (Some <$> drop (length l - C) l)
}.

(** The rows of the live slots, in slot order, after inserting [l] into a
    fresh buffer of capacity [C]: insertion order until the cursor wraps,
    afterwards the rotation of the last [C] items that puts the
    [length l mod C] newest ones first. *)
Definition slot_order (C : nat) (l : list A) : list A :=
  if length l <=? C then l
  else
    let last_C := drop (length l - C) l in
    drop (C - length l mod C) last_C ++ take (C - length l mod C) last_C.

(** What the specification describes for [get_all]: the live items met
    by traversing the slots from the cursor on, wrapping around. *)
Definition insertion_order_from_cursor (rb : ER.t A) : list A :=
  omap (fun slot => slot)
    (drop (ER._data_pointer rb) (ER._buffer rb)
       ++ take (ER._data_pointer rb) (ER._buffer rb)).
End ExperienceReplayVocabulary.

(** ** [NStepWrapper] *)

Section NStepVocabulary.
Context {B : Type} {SO : StoreOp B}.

(** Committing a list of entries to the wrapped buffer, first to last. *)
Fixpoint commit_all (xs : list transition) : py B unit :=
  match xs with
  | [] => mret tt
  | x :: xs' => buffer_store_op x;; commit_all xs'
  end.

(** The new transition continues the queue whose newest entry is
    [tail]. *)
Definition continuous (tail data : transition) : Prop :=
  ne_any (s_ tail) (s data) || ne_any (visual_s_ tail) (visual_s data)
  = false.

Definition with_queue (i : nat) (q : list transition) (w : NS.t B)
  : NS.t B :=
  NS.set_queue (<[i := q]> (NS.queue w)) w.
End NStepVocabulary.

(** A stream of one agent: step [k] leads from state [[k]] to state
    [[k + 1]]. *)
Definition step_t (k : Z) (reward : Q) (d : bool) : transition :=
  Transition [inject_Z k] [] [] reward [inject_Z (k + 1)] [] d.

(** Successive calls of [add]. *)
Fixpoint feed {B : Type} {SO : StoreOp B} (calls : list (list transition))
  : py (NS.t B) unit :=
  match calls with
  | [] => mret tt
  | rows :: calls' => NS.add rows;; feed calls'
  end.

(** A wrapper with [n = 3] and [gamma = 0.9] around an empty buffer, the
    first step of the stream queued. *)
Definition one_queued : NS.t (ER.t transition) :=
  NS.mk (fresh 32 10) 3 (9 # 10) 1 [[step_t 0 1 false]].

(** The entries committed so far, as they lie in the slots of the wrapped
    buffer, rewards in lowest terms. *)
Definition committed (w : NS.t (ER.t transition)) : list transition :=
  (fun d => Transition (s d) (visual_s d) (a d) (Qred (r d))
              (s_ d) (visual_s_ d) (done d))
    <$> omap (fun slot => slot) (ER._buffer (NS.buffer w)).

(** ** [PrioritizedExperienceReplay] *)

Section PERVocabulary.
Context {D : Type}.
Local Open Scope R_scope.

(** The calls a client can make on a buffer. *)
Inductive op : Type :=
| OpStoreOp (data : D)
| OpAddBatch (data : list D)
| OpApexAddBatch (td_error : list R) (data : list D)
| OpSample (ps : list R) (return_index : bool)
| OpUpdate (priority : list R) (index : option (list nat))
| OpReset.

(** The state a call leaves behind, whether it returns or raises. *)
Definition exec (o : op) (b : PER.t D) : PER.t D :=
  match o with
  | OpStoreOp data => state_of (PER._store_op data b)
  | OpAddBatch data => state_of (PER.add_batch data b)
  | OpApexAddBatch td data => state_of (PER.apex_add_batch td data b)
  | OpSample ps ri => state_of (PER.sample ps ri b)
  | OpUpdate priority index => state_of (PER.update priority index b)
  | OpReset => PER.reset b
  end.

Definition run (ops : list op) (b : PER.t D) : PER.t D :=
  foldl (fun b o => exec o b) b ops.

(** What no call changes, and what every call maintains. *)
Record per_inv (beta0 interval eps : R) (b : PER.t D) : Prop := {
  pi_init_beta : PER.init_beta b = beta0;
  pi_interval : PER.beta_interval b = interval;
  pi_epsilon : PER.epsilon b = eps;
  pi_beta : beta0 <= PER.beta b <= 1;
  pi_min_p : 0 < PER.min_p b
}.

(** The buffer a successful construction returns. *)
Definition constructed (bs C T : Z) (al beta0 eps : R) (gv : bool) : PER.t D :=
  PER.reset
    (PER.mk (Z.to_nat bs) (Z.to_nat C) 0 (Sum_Tree.init (Z.to_nat C))
       al beta0 beta0 ((1 - beta0) / IZR T) eps [1] gv 0 0 None).
End PERVocabulary.

Section PERExampleState.
Local Open Scope R_scope.

(** A buffer after a valid construction. *)
Definition constructed_example : PER.t nat :=
  constructed 32 10 100 (6 / 10) (4 / 10) (1 / 100) false.

(** A buffer of one slot, in batch-minimum mode, holding one item. *)
Definition one_item_example : PER.t nat :=
  run [OpStoreOp 7%nat] (constructed 1 1 100 (6 / 10) (4 / 10) (1 / 100) false).

(** A buffer of two slots and batch size 1 in global mode, with
    [alpha = beta = epsilon = 1]: two items are inserted (both at the
    initial [max_p = 1]), the first is sampled, and its priority is
    updated from the error 1, which sets it, [min_p] and [max_p]
    to 2. *)
Definition global_example_calls : list (op (D:=nat)) :=
  [OpAddBatch [10; 20]%nat; OpSample [1 / 2] false; OpUpdate [1] None].

Definition global_example : PER.t nat :=
  PER.mk 1 2 2 (Sum_Tree.mk 2 0 [3; 2; 1] [Some 10%nat; Some 20%nat])
    1 1 1 0 1 [1] true 2 2 (Some [0%nat]).
End PERExampleState.

(** ** [EpisodeExperienceReplay] *)

(** Trajectories as [_per_store] closes them: not empty, and every step
    with the same [n] fields. *)
Definition well_formed (n : nat) (traj : list (list ndarray)) : Prop :=
  traj <> [] /\ Forall (fun st : list ndarray => length st = n) traj.

(** Trajectories in a fixed format: not empty, and in every step the
    field [k] is a vector of [widths[k]] values. *)
Definition fixed_format (widths : list nat) (traj : list (list ndarray))
  : Prop :=
  traj <> [] /\ Forall (fun st : list ndarray => length <$> st = widths) traj.

(** The training part of field [k] once reshaped: the rewards as rows of
    one value, the actions and the fields from [done] on as the list of
    their vectors, the other fields as they are. *)
Definition flattened (k : nat) (x : list (list ndarray)) : EER.tensor :=
  if k =? 3 then EER.RowsN ((fun v => [v]) <$> concat (concat x))
  else if (k =? 2) || (6 <=? k) then EER.RowsN (concat x)
  else EER.BTN x.

(** The padded rows of field [k], for windows that fit into [W]. *)
Definition padded_field (W k : nat) (windows : list (list (list ndarray)))
  : list (list ndarray) :=
  let x := column k <$> windows in
  (fun sq => replicate (W - length sq)
               (replicate (sample_shape x) (EER.pad_value k)) ++ sq) <$> x.

(** Step [k] of an episode: state [[k]], no visual state, action [[0]],
    reward [[1]], next state [[k + 1]], [done] flag [d]. *)
Definition ep_step (k : Z) (d : Q) : list ndarray :=
  [[inject_Z k]; []; [0%Q]; [1%Q]; [inject_Z (k + 1)]; []; [d]].

Fixpoint ep_feed (steps : list (list ndarray)) : py EER.t unit :=
  match steps with
  | [] => mret tt
  | data :: steps' => EER._per_store 0 data;; ep_feed steps'
  end.

(** [burn_in = 2], [train = 3]: an episode of 7 steps and one of 2 steps,
    both closed by [done]. *)
Definition episode_example : EER.t :=
  match EER.init 32 10 1 2 3 with
  | inr b0 =>
      state_of
        (ep_feed
           [ep_step 0 0; ep_step 1 0; ep_step 2 0; ep_step 3 0; ep_step 4 0;
            ep_step 5 0; ep_step 6 1; ep_step 10 0; ep_step 11 1] b0)
  | inl _ => EER.mk 0 0 0 0 0 0 0 [] 0 [] None
  end.

(** ** Runs of calls on an [ExperienceReplay] *)

Section ExperienceReplayRuns.
Context {A : Type}.

(** The calls that change an [ExperienceReplay]. *)
Inductive er_op : Type :=
| ErStore (data : A)
| ErReset.

Definition er_exec (o : er_op) (rb : ER.t A) : ER.t A :=
  match o with
  | ErStore data => state_of (ER._store_op data rb)
  | ErReset => ER.reset rb
  end.

Definition er_run (ops : list er_op) (rb : ER.t A) : ER.t A :=
  foldl (fun rb o => er_exec o rb) rb ops.

(** What stores and resets maintain: the written slots are a prefix of
    the array that covers the live slots, and while a slot is still
    unwritten the cursor points at the first one. *)
Definition written_inv (C : nat) (rb : ER.t A) : Prop :=
  ER.capacity rb = C /\
  exists xs : list A,
    ER._buffer rb = (Some <$> xs) ++ replicate (C - length xs) None
    /\ length xs <= C
    /\ ER._size rb <= length xs
    /\ ER._data_pointer rb < C
    /\ (length xs < C -> ER._data_pointer rb = length xs).
End ExperienceReplayRuns.

(** ** Streams through an [NStepWrapper] *)

(** [r_0 + r_1 * gamma + r_2 * gamma^2 + ...] the way the code adds it
    up: [acc] holds the sum so far, [k] is the exponent of the next
    reward. *)
Fixpoint discounted_sum (gamma : Q) (k : nat) (acc : Q)
    (rest : list transition) : Q :=
  match rest with
  | [] => acc
  | x :: rest' =>
      discounted_sum gamma (S k) (acc + r x * gamma ^ Z.of_nat k)%Q rest'
  end.

(** The n-step entry of the transition [d] followed by the transitions
    [rest] of the same episode: state and action of [d], the discounted
    sum of the rewards, next state and [done] of the last transition. *)
Definition nstep_entry (gamma : Q) (d : transition) (rest : list transition)
  : transition :=
  match last rest with
  | None => d
  | Some z =>
      Transition (s d) (visual_s d) (a d) (discounted_sum gamma 1 (r d) rest)
        (s_ z) (visual_s_ z) (done z)
  end.

(** The entries of all the suffixes of a stream, longest first. *)
Fixpoint open_entries (gamma : Q) (ds : list transition) : list transition :=
  match ds with
  | [] => []
  | d :: rest => nstep_entry gamma d rest :: open_entries gamma rest
  end.

(** The contiguous windows of [n] transitions of a stream, in order. *)
Definition windows (n : nat) (ds : list transition) : list (list transition) :=
  (fun t => take n (drop t ds)) <$> seq 0 (length ds + 1 - n).

Definition window_entry (gamma : Q) (w : list transition) : option transition :=
  match w with
  | [] => None
  | d :: rest => Some (nstep_entry gamma d rest)
  end.

(** Every transition of the stream starts where the one before it
    ended. *)
Fixpoint chain (ds : list transition) : Prop :=
  match ds with
  | d1 :: (d2 :: _) as rest => continuous d1 d2 /\ chain rest
  | _ => True
  end.

Section NStepStreams.
Context {B : Type} {SO : StoreOp B}.

(** The transitions of one agent, passed to [_per_store] one after the
    other. *)
Fixpoint per_store_each (i : nat) (ds : list transition) : py (NS.t B) unit :=
  match ds with
  | [] => mret tt
  | d :: ds' => NS._per_store i d;; per_store_each i ds'
  end.

(** What a call for agent [i] leaves alone: the parameters, the number
    of queues and the queues of the other agents. *)
Definition ns_frame (i : nat) (w w' : NS.t B) : Prop :=
  NS.n w' = NS.n w /\ NS.gamma w' = NS.gamma w
  /\ NS.agents_num w' = NS.agents_num w
  /\ length (NS.queue w') = length (NS.queue w)
  /\ forall j, j <> i -> NS.queue w' !! j = NS.queue w !! j.

(** A method that, returning or raising, leaves all that alone. *)
Definition keeps (i : nat) {T : Type} (m : py (NS.t B) T) : Prop :=
  forall w, ns_frame i w (state_of (m w)).
End NStepStreams.

(** ** Bookkeeping of a [PrioritizedExperienceReplay] *)

Section PERBookkeeping.
Context {D : Type}.
Local Open Scope R_scope.

(** The parameters no call changes, the size within the capacity, and
    the bounds kept on the priorities: [max_p] never falls below the
    priority of a zero error, and [min_p] is either unset or below
    [max_p]. *)
Record per_book (C bs : nat) (al eps : R) (gv : bool) (b : PER.t D)
  : Prop := {
  pb_capacity : PER.capacity b = C;
  pb_batch_size : PER.batch_size b = bs;
  pb_alpha : PER.alpha b = al;
  pb_epsilon : PER.epsilon b = eps;
  pb_global_v : PER.global_v b = gv;
  pb_size : (PER._size b <= C)%nat;
  pb_max_p : Rpower eps al <= PER.max_p b;
  pb_min_max : PER.min_p b = sys_maxsize \/ PER.min_p b <= PER.max_p b
}.

Definition is_sample (o : op (D:=D)) : bool :=
  match o with
  | OpSample _ _ => true
  | _ => false
  end.
End PERBookkeeping.

(** ** Episodes through an [EpisodeExperienceReplay] *)

(** The slot array of an episode buffer and its counters, seen as an
    [ExperienceReplay] of trajectories. *)
Definition slot_store (b : EER.t) : ER.t (list (list ndarray)) :=
  ER.mk (EER.batch_size b) (EER.capacity b) (EER._size b)
    (EER._data_pointer b) (EER._buffer b).

(** The buffer with [traj] written at the cursor. *)
Definition stored (traj : list (list ndarray)) (b : EER.t) : EER.t :=
  EER.update_rb_after_add
    (EER.set_store (EER._size b) (EER._data_pointer b)
       (<[EER._data_pointer b := Some traj]> (EER._buffer b)) b).

(** The step [data] starts where the step [tail] ended (fields 4 and 5
    of [tail] against fields 0 and 1 of [data]), and its [done] field
    holds one value, whose truth is [d]. *)
Definition ep_next (tail data : list ndarray) (d : bool) : Prop :=
  exists t4 d0 t5 d1 v,
    tail !! 4 = Some t4 /\ data !! 0 = Some d0 /\ ne_any t4 d0 = false
    /\ tail !! 5 = Some t5 /\ data !! 1 = Some d1 /\ ne_any t5 d1 = false
    /\ data !! 6 = Some [v] /\ negb (Qeq_bool v 0) = d.

(** The steps [rest] continue [tail] one after the other, and the last
    of them, and only the last, has [done] set. *)
Fixpoint closes (tail : list ndarray) (rest : list (list ndarray)) : Prop :=
  match rest with
  | [] => False
  | data :: rest' =>
      match rest' with
      | [] => ep_next tail data true
      | _ => ep_next tail data false /\ closes data rest'
      end
  end.

(** An episode of at least two steps; nothing is asked of the [done]
    field of its first step. *)
Definition episode (ep : list (list ndarray)) : Prop :=
  match ep with
  | [] => False
  | first :: rest => closes first rest
  end.

(** The steps of agent [i], passed to [_per_store] one after the
    other. *)
Fixpoint eer_feed (i : nat) (steps : list (list ndarray)) : py EER.t unit :=
  match steps with
  | [] => mret tt
  | data :: steps' => EER._per_store i data;; eer_feed i steps'
  end.

(** Successive calls of [add], each returning or raising. *)
Definition eer_run (calls : list (list (list ndarray))) (b : EER.t) : EER.t :=
  foldl (fun b rows => state_of (EER.add rows b)) b calls.

(** What a call of [add] can do to an episode buffer: stores into the
    slot array; the parameters, the number of queues and the burn-in
    states stay as they are. *)
Definition eer_frame (b b' : EER.t) : Prop :=
  (exists ops, slot_store b' = er_run ops (slot_store b))
  /\ length (EER.queue b') = length (EER.queue b)
  /\ EER.burn_in_states b' = EER.burn_in_states b
  /\ EER.timestep b' = EER.timestep b
  /\ EER.burn_in_time_step b' = EER.burn_in_time_step b
  /\ EER.train_time_step b' = EER.train_time_step b
  /\ EER.agents_num b' = EER.agents_num b.

(** * Properties *)

Section RingLists.
Context {A : Type}.
Implicit Types (b l : list A).

(** Overwriting the slot under the cursor and advancing the cursor
    (wrapping at the end) drops the head of the rotated view and appends
    the new element to it. *)
Lemma rotate_insert_step b p x :
  p < length b ->
  let p' := if length b <=? p + 1 then 0 else p + 1 in
  drop p' (<[p:=x]> b) ++ take p' (<[p:=x]> b)
  = drop 1 (drop p b ++ take p b) ++ [x].
Proof.
  intros Hp.
  destruct (lookup_lt_is_Some_2 b p Hp) as [y Hy].
  pose proof (take_drop_middle b p y Hy) as Hb.
  pose proof (length_take_le b p ltac:(lia)) as Hlen.
  set (b1 := take p b) in *. set (b2 := drop (S p) b) in *.
  clearbody b1 b2. subst b. clear Hy.
  rewrite length_app in *; simpl in *. subst p.
  rewrite (insert_app_r_alt b1 (y :: b2) (length b1)) by lia.
  rewrite Nat.sub_diag; simpl.
  rewrite (drop_app_length b1 (y :: b2)).
  simpl. rewrite drop_0.
  destruct (Nat.leb_spec (length b1 + S (length b2)) (length b1 + 1)).
  - destruct b2; [|simpl in *; lia]. by rewrite drop_0, take_0, app_nil_r.
  - replace (length b1 + 1) with (length (b1 ++ [x]))
      by (rewrite length_app; simpl; lia).
    rewrite (cons_middle x b1 b2), app_assoc.
    rewrite drop_app_length, take_app_length. by rewrite <- app_assoc.
Qed.

Lemma rotated_tail_step (C : nat) l x :
  0 < C ->
  drop 1 (replicate (C - length l) None ++ (Some <$> drop (length l - C) l))
    ++ [Some x]
  = replicate (C - length (l ++ [x])) None
      ++ (Some <$> drop (length (l ++ [x]) - C) (l ++ [x])).
Proof.
  intros HC. rewrite length_app; simpl.
  destruct (Nat.lt_ge_cases (length l) C).
  - replace (C - length l) with (S (C - (length l + 1))) by lia.
    replace (length l - C) with 0 by lia.
    replace (length l + 1 - C) with 0 by lia.
    simpl. rewrite !drop_0, fmap_app. simpl. by rewrite <- app_assoc.
  - replace (C - length l) with 0 by lia.
    replace (C - (length l + 1)) with 0 by lia. simpl.
    rewrite drop_app_le by lia. rewrite fmap_app. simpl.
    replace (length l + 1 - C) with (S (length l - C)) by lia.
    destruct (lookup_lt_is_Some_2 l (length l - C) ltac:(lia)) as [y Hy].
    rewrite (drop_S l y _ Hy). simpl. by rewrite drop_0.
Qed.

Lemma pointer_step (C n : nat) :
  0 < C ->
  (if C <=? n mod C + 1 then 0 else n mod C + 1) = (n + 1) mod C.
Proof.
  intros HC. pose proof (Nat.mod_upper_bound n C ltac:(lia)).
  rewrite <- (Nat.Div0.add_mod_idemp_l n 1 C).
  destruct (Nat.leb_spec C (n mod C + 1)).
  - replace (n mod C + 1) with C by lia. by rewrite Nat.Div0.mod_same.
  - symmetry. apply Nat.mod_small. lia.
Qed.
End RingLists.

Section ExperienceReplayFacts.
Context {A F : Type} {U : Unpack A F}.
Implicit Types (rb : ER.t A) (l : list A) (x : A).

Lemma init_fresh (bs C : Z) :
  (0 <= bs)%Z -> (0 <= C)%Z ->
  ER.init bs C = inr (fresh (A:=A) (Z.to_nat bs) (Z.to_nat C)).
Proof.
  intros Hb Hc. unfold ER.init.
  destruct (Z.leb_spec 0 bs); [|lia]. destruct (Z.leb_spec 0 C); [|lia].
  reflexivity.
Qed.

Lemma store_all_app l1 l2 rb :
  ER.store_all (l1 ++ l2) rb = (ER.store_all l1 ;; ER.store_all l2) rb.
Proof.
  revert rb. induction l1 as [|x l1 IH]; intros rb; simpl; [done|].
  unfold mbind, py_mbind, py_bind.
  destruct (ER._store_op x rb) as [[] rb'|e rb']; simpl; [apply IH|done].
Qed.

Lemma ring_inv_fresh bs C : 0 < C -> ring_inv (A:=A) C [] (fresh bs C).
Proof.
  intros HC. split; simpl; try done.
  - by rewrite length_replicate.
  - by rewrite Nat.Div0.mod_0_l.
  - rewrite Nat.sub_0_r. by rewrite !app_nil_r.
Qed.

Lemma ring_inv_store C l rb x :
  0 < C -> ring_inv C l rb ->
  exists rb', ER._store_op x rb = Returns tt rb' /\ ring_inv C (l ++ [x]) rb'
              /\ ER.batch_size rb' = ER.batch_size rb.
Proof.
  intros HC [Hcap Hlen Hsz Hptr Hslots].
  destruct rb as [bs cap sz p b]; simpl in *. subst cap.
  assert (Hlt : p < C) by (rewrite Hptr; apply Nat.mod_upper_bound; lia).
  unfold ER._store_op; simpl.
  destruct (Nat.ltb_spec p (length b)); [|lia].
  eexists; split; [reflexivity|].
  pose proof (rotate_insert_step b p (Some x) ltac:(lia)) as Hrot.
  cbv zeta in Hrot.
  rewrite Hslots, (rotated_tail_step C l x HC), Hlen in Hrot.
  pose proof (pointer_step C (length l) HC) as Hp'. rewrite <- Hptr in Hp'.
  unfold ER.update_rb_after_add, ER.set_data_pointer, ER.set_size,
    ER.set_buffer; simpl.
  assert (Hlen' : length (l ++ [x]) = length l + 1)
    by (rewrite length_app; simpl; lia).
  destruct (C <=? p + 1); simpl; destruct (Nat.ltb_spec sz C); simpl;
    (split; [split; simpl; rewrite ?length_insert; try done;
               rewrite ?Hlen'; lia
            | done]).
Qed.

Lemma store_all_ring_inv bs C l :
  0 < C ->
  exists rb, ER.store_all l (fresh bs C) = Returns tt rb /\ ring_inv C l rb
             /\ ER.batch_size rb = bs.
Proof.
  intros HC. induction l as [|x l IH] using rev_ind.
  - exists (fresh bs C). split; [done|]. split; [by apply ring_inv_fresh|done].
  - destruct IH as (rb & Hrun & Hinv & Hbs).
    destruct (ring_inv_store C l rb x HC Hinv) as (rb' & Hst & Hinv' & Hbs').
    exists rb'. rewrite store_all_app. unfold mbind, py_mbind, py_bind.
    rewrite Hrun. simpl. unfold mbind, py_mbind, py_bind. rewrite Hst.
    split; [done|]. split; [done|congruence].
Qed.

(** The array itself, recovered from its rotated view. *)
Lemma ring_inv_buffer C l rb :
  0 < C -> ring_inv C l rb ->
  let view := replicate (C - length l) None
                ++ (Some <$> drop (length l - C) l) in
  ER._buffer rb = drop (C - length l mod C) view
                    ++ take (C - length l mod C) view.
Proof.
  intros HC [Hcap Hlen Hsz Hptr Hslots] view.
  assert (ER._data_pointer rb < C)
    by (rewrite Hptr; apply Nat.mod_upper_bound; lia).
  subst view. rewrite <- Hslots, <- Hptr.
  assert (Hd : length (drop (ER._data_pointer rb) (ER._buffer rb))
               = C - ER._data_pointer rb) by (rewrite length_drop; lia).
  rewrite <- Hd, drop_app_length, take_app_length.
  by rewrite take_drop.
Qed.

Lemma ring_inv_live_no_wrap C l rb :
  0 < C -> ring_inv C l rb -> length l <= C ->
  ER.live_slots rb = Some <$> l.
Proof.
  intros HC Hinv Hle. pose proof (ring_inv_buffer C l rb HC Hinv) as Hb.
  cbv zeta in Hb. destruct Hinv as [Hcap Hlen Hsz Hptr Hslots].
  unfold ER.live_slots. rewrite Hsz, Nat.min_l by lia.
  replace (length l - C) with 0 in Hb by lia. rewrite drop_0 in Hb.
  destruct (decide (length l = C)) as [Heq|Hne].
  - rewrite Heq, Nat.Div0.mod_same, Nat.sub_diag, Nat.sub_0_r in Hb.
    simpl in Hb. rewrite drop_ge, take_ge in Hb
      by (rewrite length_fmap; lia).
    rewrite Hb. simpl. apply take_ge. rewrite length_fmap. lia.
  - rewrite Nat.mod_small in Hb by lia.
    rewrite drop_app_length', take_app_length' in Hb
      by (by rewrite length_replicate).
    rewrite Hb.
    rewrite <- (length_fmap Some l) at 1. by rewrite take_app_length.
Qed.

Lemma ring_inv_live_wrap C l rb :
  0 < C -> ring_inv C l rb -> C <= length l ->
  let last_C := drop (length l - C) l in
  ER.live_slots rb
  = Some <$> (drop (C - length l mod C) last_C
                ++ take (C - length l mod C) last_C).
Proof.
  intros HC Hinv Hle last_C.
  pose proof (ring_inv_buffer C l rb HC Hinv) as Hb.
  cbv zeta in Hb. destruct Hinv as [Hcap Hlen Hsz Hptr Hslots].
  unfold ER.live_slots. rewrite Hsz, Nat.min_r by lia.
  rewrite take_ge by lia. rewrite Hb.
  replace (C - length l) with 0 by lia. simpl.
  subst last_C. by rewrite fmap_app, !fmap_drop, fmap_take, fmap_drop.
Qed.

Lemma get_all_rows rb rows :
  ER.live_slots rb = Some <$> rows ->
  ER.get_all rb = Returns (zip_star (unpack <$> rows)) rb.
Proof.
  intros Hlive. unfold ER.get_all. rewrite Hlive.
  by rewrite mapM_fmap_Some.
Qed.

Lemma init_store_all (bs C : Z) rb0 l :
  ER.init bs C = inr rb0 -> (0 < C)%Z ->
  exists rb, ER.store_all l rb0 = Returns tt rb
             /\ ring_inv (Z.to_nat C) l rb.
Proof.
  intros Hinit HC. unfold ER.init in Hinit.
  destruct (0 <=? bs)%Z eqn:Hbs; simpl in Hinit; [|done].
  destruct (Z.leb_spec 0 C); simpl in Hinit; [|lia].
  injection Hinit as <-.
  destruct (store_all_ring_inv (Z.to_nat bs) (Z.to_nat C) l ltac:(lia))
    as (rb & Hrun & Hinv & _).
  by exists rb.
Qed.

(** C7: with capacity [C > 0], after [C + k] single-item insertions the
    store holds exactly the last [C] inserted items: read from the cursor
    on they appear oldest first, the slot under the cursor (the next one
    to be overwritten) holds the oldest of them, and after every number
    of insertions on the way [size = min(#inserted, C)] and the cursor
    is below [C]. *)
Theorem C7_fifo_eviction (bs C : Z) rb0 l (k : nat) :
  ER.init bs C = inr rb0 -> (0 < C)%Z -> length l = Z.to_nat C + k ->
  (forall j, exists rbj,
      ER.store_all (take j l) rb0 = Returns tt rbj
      /\ ER._size rbj = Nat.min (length (take j l)) (Z.to_nat C)
      /\ ER._data_pointer rbj < Z.to_nat C)
  /\ exists rb,
      ER.store_all l rb0 = Returns tt rb
      /\ drop (ER._data_pointer rb) (ER._buffer rb)
           ++ take (ER._data_pointer rb) (ER._buffer rb)
         = Some <$> drop k l
      /\ ER.live_slots rb ≡ₚ Some <$> drop k l
      /\ ER._buffer rb !! ER._data_pointer rb = Some (l !! k).
Proof.
  intros Hinit HC Hlen. split.
  - intros j.
    destruct (init_store_all bs C rb0 (take j l) Hinit HC)
      as (rbj & Hrun & [Hcap Hl Hsz Hptr Hslots]).
    exists rbj. split; [done|]. split; [done|].
    rewrite Hptr. apply Nat.mod_upper_bound. lia.
  - destruct (init_store_all bs C rb0 l Hinit HC)
      as (rb & Hrun & [Hcap Hl Hsz Hptr Hslots]).
    exists rb. split; [done|].
    replace (Z.to_nat C - length l) with 0 in Hslots by lia.
    replace (length l - Z.to_nat C) with k in Hslots by lia.
    simpl in Hslots.
    assert (Hp : ER._data_pointer rb < Z.to_nat C)
      by (rewrite Hptr; apply Nat.mod_upper_bound; lia).
    split; [done|]. split.
    + unfold ER.live_slots. rewrite Hsz, Nat.min_r by lia.
      rewrite take_ge by lia. rewrite <- Hslots.
      rewrite <- (take_drop (ER._data_pointer rb) (ER._buffer rb)) at 1.
      apply Permutation_app_comm.
    + destruct (lookup_lt_is_Some_2 (ER._buffer rb) (ER._data_pointer rb)
                  ltac:(lia)) as [y Hy].
      rewrite Hy. f_equal.
      rewrite (drop_S _ _ _ Hy) in Hslots. simpl in Hslots.
      destruct (lookup_lt_is_Some_2 l k ltac:(lia)) as [z Hz].
      rewrite (drop_S _ _ _ Hz) in Hslots. simpl in Hslots.
      rewrite Hz. congruence.
Qed.

(** C4 (amended): [get_all] returns the live items in slot order, slots
    [0 .. size-1].  After inserting [l] into a fresh buffer this is
    [slot_order]: the insertion order as long as no more than [capacity]
    items were inserted, and a rotation of it once the cursor has
    wrapped. *)
Theorem C4_get_all_slot_order (bs C : Z) rb0 l :
  ER.init bs C = inr rb0 -> (0 < C)%Z ->
  exists rb,
    ER.store_all l rb0 = Returns tt rb
    /\ ER.live_slots rb = take (ER._size rb) (ER._buffer rb)
    /\ ER.get_all rb
       = Returns (zip_star (unpack <$> slot_order (Z.to_nat C) l)) rb.
Proof.
  intros Hinit HC.
  destruct (init_store_all bs C rb0 l Hinit HC) as (rb & Hrun & Hinv).
  exists rb. split; [done|]. split; [done|].
  apply get_all_rows. unfold slot_order.
  destruct (Nat.leb_spec (length l) (Z.to_nat C)).
  - apply (ring_inv_live_no_wrap (Z.to_nat C)); [lia|done|done].
  - apply (ring_inv_live_wrap (Z.to_nat C)); [lia|done|lia].
Qed.

(** [reset] touches nothing but [_size]. *)
Lemma reset_frame rb :
  ER.reset rb
  = ER.mk (ER.batch_size rb) (ER.capacity rb) 0 (ER._data_pointer rb)
      (ER._buffer rb).
Proof. reflexivity. Qed.
End ExperienceReplayFacts.

(** C7 at capacity 2 with three insertions. *)
Lemma C7_fifo_eviction_witness :
  exists rb,
    ER.store_all [[1]; [2]; [3]] (fresh 1 2) = Returns tt rb
    /\ drop (ER._data_pointer rb) (ER._buffer rb)
         ++ take (ER._data_pointer rb) (ER._buffer rb)
       = Some <$> [[2]; [3]].
Proof.
  destruct (C7_fifo_eviction (A:=list nat) 1 2 (fresh 1 2) [[1]; [2]; [3]] 1
              eq_refl eq_refl eq_refl) as [_ (rb & Hrun & Hrot & _)].
  exists rb. split; [exact Hrun | exact Hrot].
Defined.

(** C4 as stated fails once the cursor has wrapped: with capacity 2 and
    the items 1, 2, 3 inserted, the live items in insertion order are 2, 3
    but [get_all] returns them as 3, 2. *)
Lemma C4_get_all_not_insertion_order :
  exists rb0 rb,
    ER.init 1 2 = inr rb0
    /\ ER.store_all [[1]; [2]; [3]] rb0 = Returns tt rb
    /\ insertion_order_from_cursor rb = [[2]; [3]]
    /\ ER.get_all rb = Returns [[3; 2]] rb
    /\ ER.get_all rb
       <> Returns (zip_star (unpack <$> insertion_order_from_cursor rb)) rb.
Proof.
  eexists; eexists. split; [reflexivity|]. split; [reflexivity|].
  split; [reflexivity|]. split; [reflexivity|]. discriminate.
Qed.

(** C4 (amended) at capacity 2: two insertions are returned in insertion
    order. *)
Lemma C4_get_all_slot_order_witness :
  exists rb,
    ER.store_all [[1]; [2]] (fresh 1 2) = Returns tt rb
    /\ ER.get_all rb = Returns [[1; 2]] rb.
Proof.
  destruct (C4_get_all_slot_order (A:=list nat) 1 2 (fresh 1 2) [[1]; [2]]
              eq_refl eq_refl) as (rb & Hrun & _ & Hall).
  exists rb. split; [exact Hrun | exact Hall].
Defined.

(** C10: [reset] sets [_size] to 0 and leaves the cursor and the slots as
    they are.  So with capacity 2: insert [a] (cursor moves to 1), reset,
    insert [b] (written to slot 1); now [size = 1], and [get_all] and
    [sample], whatever it draws, read slot 0 only: they return the item
    [a] stored before the reset and not the item [b] stored after it.
    With the items [[7]] and [[8]] both return the one column [[7]]. *)
Theorem C10_reset_keeps_cursor_and_slots :
  (forall rb : ER.t (list nat),
      ER._size (ER.reset rb) = 0
      /\ ER._data_pointer (ER.reset rb) = ER._data_pointer rb
      /\ ER._buffer (ER.reset rb) = ER._buffer rb
      /\ ER.capacity (ER.reset rb) = ER.capacity rb
      /\ ER.batch_size (ER.reset rb) = ER.batch_size rb)
  /\ (forall a b : list nat,
        exists rb0 rb1 rb2,
          ER.init 1 2 = inr rb0
          /\ ER._store_op a rb0 = Returns tt rb1
          /\ ER._data_pointer rb1 = 1
          /\ ER._store_op b (ER.reset rb1) = Returns tt rb2
          /\ ER._buffer rb2 = [Some a; Some b]
          /\ ER._size rb2 = 1
          /\ ER.live_slots rb2 = [Some a]
          /\ ER.get_all rb2 = Returns (zip_star [a]) rb2
          /\ ER.n_sample rb2 = 1
          /\ ER.possible_choice rb2 [0]
          /\ forall choice, ER.possible_choice rb2 choice ->
               choice = [0]
               /\ ER.sample choice rb2 = Returns (zip_star [a]) rb2)
  /\ exists rb0 rb1 rb2 : ER.t (list nat),
      ER.init 1 2 = inr rb0
      /\ ER._store_op [7] rb0 = Returns tt rb1
      /\ ER._store_op [8] (ER.reset rb1) = Returns tt rb2
      /\ ER._buffer rb2 = [Some [7]; Some [8]]
      /\ ER._size rb2 = 1
      /\ ER.get_all rb2 = Returns [[7]] rb2
      /\ forall choice, ER.possible_choice rb2 choice ->
           ER.sample choice rb2 = Returns [[7]] rb2.
Proof.
  assert (Hchoice : forall (a b : list nat) choice,
    ER.possible_choice (ER.mk 1 2 1 0 [Some a; Some b]) choice ->
    choice = [0]).
  { intros a b choice (Hlen & _ & Hall).
    destruct choice as [|i [|j choice]]; try done.
    rewrite Forall_singleton in Hall. simpl in Hall.
    assert (i = 0) as -> by lia. done. }
  split; [done|]. split.
  - intros a b.
    exists (fresh 1 2), (ER.mk 1 2 1 1 [Some a; None]),
      (ER.mk 1 2 1 0 [Some a; Some b]).
    repeat (split; [done|]). split.
    + split; [done|]. split; [apply NoDup_singleton|].
      constructor; [simpl; lia|constructor].
    + intros choice Hc. by rewrite (Hchoice a b choice Hc).
  - exists (fresh 1 2), (ER.mk 1 2 1 1 [Some [7]; None]),
      (ER.mk 1 2 1 0 [Some [7]; Some [8]]).
    repeat (split; [done|]).
    intros choice Hc. by rewrite (Hchoice [7] [8] choice Hc).
Qed.


Ltac py_unfold :=
  unfold mbind, py_mbind, py_bind, mret, py_mret, py_ret, py_raise.

Section NStepFacts.
Context {B : Type} {SO : StoreOp B}.
Implicit Types (w : NS.t B) (q : list transition) (data : transition).

Lemma commit_all_app xs ys b :
  commit_all (xs ++ ys) b = (commit_all xs;; commit_all ys) b.
Proof.
  revert b. induction xs as [|x xs IH]; intros b; simpl; [done|].
  py_unfold. destruct (buffer_store_op x b) as [[] b'|e b']; [apply IH|done].
Qed.

Lemma per_store_empty w i data :
  NS.queue w !! i = Some [] ->
  NS._per_store i data w = Returns tt (with_queue i [data] w).
Proof.
  intros Hq. unfold NS._per_store, NS.append, NS.get_q. py_unfold.
  by rewrite Hq; simpl; rewrite Hq.
Qed.

(** Discontinuity with a queue that is not full: the queue is dropped,
    nothing reaches the wrapped buffer. *)
Lemma per_store_discontinuity_short w i q tail data :
  NS.queue w !! i = Some q -> last q = Some tail ->
  ~ continuous tail data -> length q <> NS.n w ->
  NS._per_store i data w = Returns tt (with_queue i [data] w)
  /\ NS.buffer (with_queue i [data] w) = NS.buffer w.
Proof.
  intros Hq Hlast Hdisc Hlen. split; [|done].
  unfold continuous in Hdisc. apply not_false_is_true in Hdisc.
  unfold NS._per_store, NS.append, NS.clear, NS.get_q, NS.put_q. py_unfold.
  rewrite Hq, Hlast, Hdisc.
  destruct (Nat.eqb_spec (length q) (NS.n w)); [done|]. cbn.
  assert (i < length (NS.queue w)) by (by eapply lookup_lt_Some).
  rewrite list_lookup_insert_eq by done. cbn.
  unfold with_queue. by rewrite list_insert_insert_eq.
Qed.

(** Discontinuity with a full queue: the oldest entry is committed and
    the other [n - 1] entries stay queued in front of the new one. *)
Lemma per_store_discontinuity_full w i x q' tail data b' :
  NS.queue w !! i = Some (x :: q') -> last (x :: q') = Some tail ->
  ~ continuous tail data -> length (x :: q') = NS.n w ->
  buffer_store_op x (NS.buffer w) = Returns tt b' ->
  NS._per_store i data w
  = Returns tt (NS.set_buffer b' (with_queue i (q' ++ [data]) w)).
Proof.
  intros Hq Hlast Hdisc Hlen Hst.
  unfold continuous in Hdisc. apply not_false_is_true in Hdisc.
  unfold NS._per_store, NS.append, NS.pop_first, NS._store_op, NS.get_q,
    NS.put_q. py_unfold.
  rewrite Hq, Hlast, Hdisc.
  destruct (Nat.eqb_spec (length (x :: q')) (NS.n w)); [|done]. cbn.
  rewrite Hq. cbn. rewrite Hst. cbn.
  assert (i < length (NS.queue w)) by (by eapply lookup_lt_Some).
  rewrite list_lookup_insert_eq by done. cbn.
  unfold with_queue, NS.set_buffer, NS.set_queue. cbn.
  by rewrite list_insert_insert_eq.
Qed.

Lemma pop_first_cons w i x q' :
  NS.queue w !! i = Some (x :: q') ->
  NS.pop_first i w = Returns x (with_queue i q' w).
Proof.
  intros Hq. unfold NS.pop_first, NS.get_q, NS.put_q. py_unfold.
  by rewrite Hq.
Qed.

(** The terminal flush pops from the end of the queue: it commits the
    entries newest first. *)
Lemma flush_newest_first i q : forall w b',
  NS.queue w !! i = Some q ->
  commit_all (rev q) (NS.buffer w) = Returns tt b' ->
  NS.flush (length q) i w = Returns tt (NS.set_buffer b' (with_queue i [] w)).
Proof.
  induction q as [|x q IH] using rev_ind; intros w b' Hq Hcommit.
  - simpl in *. injection Hcommit as <-.
    unfold with_queue, NS.set_buffer, NS.set_queue. cbn.
    rewrite list_insert_id by done. by destruct w.
  - rewrite rev_unit in Hcommit. simpl in Hcommit.
    revert Hcommit. py_unfold.
    destruct (buffer_store_op x (NS.buffer w)) as [[] b1|e b1] eqn:Hst;
      [|done].
    intros Hcommit.
    assert (i < length (NS.queue w)) by (by eapply lookup_lt_Some).
    rewrite length_app, Nat.add_1_r. simpl.
    unfold NS.pop_last, NS._store_op, NS.get_q, NS.put_q. py_unfold.
    assert (Hne : forall (T : Type) (u v : T),
               match q ++ [x] with [] => u | _ :: _ => v end = v)
      by (intros; by destruct q).
    rewrite Hq, Hne, Hq, last_snoc, removelast_last. cbn.
    rewrite Hst. cbn.
    rewrite (IH _ b'); cbn.
    + unfold with_queue, NS.set_buffer, NS.set_queue. cbn.
      by rewrite list_insert_insert_eq.
    + by rewrite list_lookup_insert_eq.
    + done.
Qed.

(** The part of [_per_store] after the optional commit of the oldest
    entry, for a continuous transition with [done] set. *)
Lemma roll_append_flush i q1 data (g : Q) w b' :
  NS.queue w !! i = Some q1 ->
  done data = true ->
  commit_all (rev (imap (NS.roll g (length q1) data) q1 ++ [data]))
    (NS.buffer w) = Returns tt b' ->
  (q ← NS.get_q i;
   NS.put_q i (imap (NS.roll g (length q) data) q);;
   NS.append i data;;
   if done data then q ← NS.get_q i; NS.flush (length q) i else mret tt) w
  = Returns tt (NS.set_buffer b' (with_queue i [] w)).
Proof.
  intros Hq Hdone Hcommit.
  assert (i < length (NS.queue w)) by (by eapply lookup_lt_Some).
  unfold NS.append, NS.get_q, NS.put_q. py_unfold.
  rewrite Hq, Hdone. cbn.
  rewrite list_lookup_insert_eq by done. cbn.
  rewrite list_lookup_insert_eq by (by rewrite length_insert). cbn.
  rewrite list_insert_insert_eq.
  set (q3 := imap (NS.roll g (length q1) data) q1 ++ [data]) in *.
  rewrite (flush_newest_first i q3 _ b'); cbn.
  - unfold with_queue, NS.set_buffer, NS.set_queue. cbn.
    by rewrite list_insert_insert_eq.
  - by rewrite list_lookup_insert_eq.
  - done.
Qed.

(** C2 (amended): when a continuous transition with [done] set arrives,
    the oldest entry is first committed if the queue was full; then the
    remaining entries are rolled forward, the new transition is appended,
    and the whole queue is committed to the wrapped buffer newest first
    (the new transition first, the entry queued earliest last), which
    leaves the queue empty. *)
Theorem C2_terminal_flush_newest_first w i q tail data b' :
  NS.queue w !! i = Some q -> last q = Some tail ->
  continuous tail data -> done data = true ->
  let full := length q =? NS.n w in
  let q1 := if full then drop 1 q else q in
  let q3 := imap (NS.roll (NS.gamma w) (length q1) data) q1 ++ [data] in
  commit_all ((if full then take 1 q else []) ++ rev q3) (NS.buffer w)
    = Returns tt b' ->
  NS._per_store i data w = Returns tt (NS.set_buffer b' (with_queue i [] w)).
Proof.
  intros Hq Hlast Hcont Hdone full q1 q3 Hcommit.
  assert (Hi : i < length (NS.queue w)) by (by eapply lookup_lt_Some).
  unfold NS._per_store. unfold mbind at 1. unfold py_mbind, py_bind at 1.
  unfold NS.get_q at 1. rewrite Hq, Hlast, Hcont.
  subst full q1 q3. destruct (length q =? NS.n w).
  - destruct q as [|x q']; [done|]. simpl in Hcommit.
    rewrite drop_0 in Hcommit.
    unfold mbind, py_mbind, py_bind in Hcommit.
    destruct (buffer_store_op x (NS.buffer w)) as [[] b1|e b1] eqn:Hst;
      [|done].
    unfold mbind at 1. unfold py_mbind, py_bind at 1.
    unfold mbind at 1. unfold py_mbind, py_bind at 1.
    rewrite (pop_first_cons w i x q' Hq).
    unfold NS._store_op at 1. cbn [NS.buffer NS.set_queue with_queue].
    rewrite Hst.
    etrans; [apply (roll_append_flush i q' data (NS.gamma w) _ b')|].
    + cbn. by rewrite list_lookup_insert_eq.
    + done.
    + done.
    + unfold with_queue, NS.set_buffer, NS.set_queue. cbn.
      by rewrite list_insert_insert_eq.
  - simpl in Hcommit. unfold mbind at 1. unfold py_mbind, py_bind at 1.
    unfold mret at 1. unfold py_mret, py_ret at 1.
    exact (roll_append_flush i q data (NS.gamma w) w b' Hq Hdone Hcommit).
Qed.
End NStepFacts.

(** *** Concrete runs of [NStepExperienceReplay] *)

(** C1: with [n = 3], a full queue and an incoming transition whose state
    [[7]] differs from the next state [[3]] of the queue tail, the code
    commits the oldest entry and then appends the new transition to the
    two entries left: the queue is not restarted. *)
Theorem C1_discontinuity_full_queue_keeps_old_entries :
  exists w0 w1 w2,
    NStepExperienceReplay 32 10 (9 # 10) 3 1 = inr w0
    /\ feed [[step_t 0 1 false]; [step_t 1 1 false]; [step_t 2 1 false]] w0
       = Returns tt w1
    /\ map length (NS.queue w1) = [NS.n w1]
    /\ NS._per_store 0 (step_t 7 1 false) w1 = Returns tt w2
    /\ map s (committed w2) = [[0%Q]]
    /\ map (map s) (NS.queue w2) = [[[1%Q]; [2%Q]; [7%Q]]]
    /\ NS.queue w2 <> [[step_t 7 1 false]].
Proof.
  eexists; eexists; eexists.
  split; [reflexivity|]. split; [vm_compute; reflexivity|].
  split; [reflexivity|]. split; [vm_compute; reflexivity|].
  split; [reflexivity|]. split; [reflexivity|]. discriminate.
Qed.

(** The shorter queue on the same stream: with two entries queued
    ([2 < n = 3]) the discontinuity drops them and commits nothing. *)
Lemma discontinuity_short_queue_example :
  exists w0 w1 w2,
    NStepExperienceReplay 32 10 (9 # 10) 3 1 = inr w0
    /\ feed [[step_t 0 1 false]; [step_t 1 1 false]] w0 = Returns tt w1
    /\ NS._per_store 0 (step_t 7 1 false) w1 = Returns tt w2
    /\ committed w2 = []
    /\ NS.queue w2 = [[step_t 7 1 false]].
Proof.
  eexists; eexists; eexists.
  split; [reflexivity|]. split; [vm_compute; reflexivity|].
  split; [vm_compute; reflexivity|]. split; reflexivity.
Qed.

(** What the entries left in the queue lead to: when the new episode
    goes on with step 8, the entry of step 1 is committed with the
    two-step reward [1 + 0.9] and no terminal flag, and the entry of
    step 2 takes the reward and the next state of step 8 across the
    episode boundary. *)
Lemma discontinuity_full_queue_aftermath :
  exists w0 w,
    NStepExperienceReplay 32 10 (9 # 10) 3 1 = inr w0
    /\ feed [[step_t 0 1 false]; [step_t 1 1 false]; [step_t 2 1 false];
             [step_t 7 1 false]; [step_t 8 1 false]] w0 = Returns tt w
    /\ committed w
       = [Transition [0%Q] [] [] (271 # 100) [3%Q] [] false;
          Transition [1%Q] [] [] (19 # 10) [3%Q] [] false]
    /\ map (fun d => (s d, Qred (r d), s_ d)) <$> NS.queue w
       = [[([2%Q], 181 # 100, [9%Q]); ([7%Q], 19 # 10, [9%Q]);
           ([8%Q], 1%Q, [9%Q])]].
Proof.
  eexists; eexists.
  split; [reflexivity|]. split; [vm_compute; reflexivity|].
  split; reflexivity.
Qed.

(** C2 as stated fails: with the entry of step 0 queued and the terminal
    transition of step 1 arriving, the flush commits step 1 first and the
    entry queued earliest (step 0) last. *)
Lemma C2_flush_not_oldest_first :
  exists w0 w,
    NStepExperienceReplay 32 10 (9 # 10) 3 1 = inr w0
    /\ feed [[step_t 0 1 false]; [step_t 1 1 true]] w0 = Returns tt w
    /\ NS.queue w = [[]]
    /\ map s (committed w) = [[1%Q]; [0%Q]]
    /\ map s (committed w) <> [[0%Q]; [1%Q]].
Proof.
  eexists; eexists.
  split; [reflexivity|]. split; [vm_compute; reflexivity|].
  split; [reflexivity|]. split; [reflexivity|]. discriminate.
Qed.

(** C2 (amended) on that run. *)
Lemma C2_terminal_flush_newest_first_witness :
  exists w,
    NS._per_store 0 (step_t 1 1 true) one_queued = Returns tt w
    /\ NS.queue w = [[]].
Proof.
  pose (b' := state_of
    (commit_all
       [step_t 1 1 true;
        NS.roll (9 # 10) 1 (step_t 1 1 true) 0 (step_t 0 1 false)]
       (NS.buffer one_queued))).
  exists (NS.set_buffer b' (with_queue 0 [] one_queued)).
  split; [|reflexivity].
  apply (C2_terminal_flush_newest_first one_queued 0 [step_t 0 1 false]
           (step_t 0 1 false) (step_t 1 1 true) b');
    reflexivity.
Defined.

(** C3: [gamma = 0.9], [n = 3], one agent, five consecutive steps with
    reward 1 each, only the fifth with [done].  The first commit (made
    when the fourth step arrives) starts at state [[0]], carries the
    reward [1 + 0.9 + 0.81 = 2.71] and the next state [[3]].  The fifth
    step commits the entry of step 1 in the same way and then flushes the
    queue: the entries of steps 4, 3 and 2 with the rewards [1],
    [1 + 0.9] and [1 + 0.9 + 0.81], all with the terminal next state
    [[5]] and [done] set. *)
Theorem C3_n_step_example :
  exists w0 w4 w5,
    NStepExperienceReplay 32 10 (9 # 10) 3 1 = inr w0
    /\ feed [[step_t 0 1 false]; [step_t 1 1 false]; [step_t 2 1 false];
             [step_t 3 1 false]] w0 = Returns tt w4
    /\ committed w4 = [Transition [0%Q] [] [] (271 # 100) [3%Q] [] false]
    /\ Qred (1 + (9 # 10) + (81 # 100))%Q = 271 # 100
    /\ NS.add [step_t 4 1 true] w4 = Returns tt w5
    /\ committed w5
       = [Transition [0%Q] [] [] (271 # 100) [3%Q] [] false;
          Transition [1%Q] [] [] (271 # 100) [4%Q] [] false;
          Transition [4%Q] [] [] 1%Q [5%Q] [] true;
          Transition [3%Q] [] [] (19 # 10) [5%Q] [] true;
          Transition [2%Q] [] [] (271 # 100) [5%Q] [] true]
    /\ Qred (1 + (9 # 10))%Q = 19 # 10
    /\ NS.queue w5 = [[]].
Proof.
  eexists; eexists; eexists.
  split; [reflexivity|]. split; [vm_compute; reflexivity|].
  split; [reflexivity|]. split; [reflexivity|].
  split; [vm_compute; reflexivity|].
  split; [reflexivity|]. split; reflexivity.
Qed.

(** ** [PrioritizedExperienceReplay] *)

Section PowerFacts.
Local Open Scope R_scope.

Lemma Rpower_pos x y : 0 < Rpower x y.
Proof. unfold Rpower. apply exp_pos. Qed.

Lemma Rpower_one_l y : Rpower 1 y = 1.
Proof. unfold Rpower. by rewrite ln_1, Rmult_0_r, exp_0. Qed.

Lemma Rpower_le_one x y : 0 < x <= 1 -> 0 <= y -> Rpower x y <= 1.
Proof.
  intros Hx Hy. rewrite <- (Rpower_one_l y). by apply Rle_Rpower_l.
Qed.

Lemma Rpower_gt_one x y : 1 < x -> 0 < y -> 1 < Rpower x y.
Proof.
  intros Hx Hy. rewrite <- (Rpower_one_l y). apply Rlt_Rpower_l; lra.
Qed.

Lemma foldr_Rmin_le y (l : list R) :
  foldr Rmin y l <= y /\ Forall (fun x => foldr Rmin y l <= x) l.
Proof.
  induction l as [|z l [IH1 IH2]]; simpl; [split; [lra|constructor]|].
  split.
  - pose proof (Rmin_r z (foldr Rmin y l)). lra.
  - constructor; [apply Rmin_l|].
    eapply Forall_impl; [exact IH2|]. simpl. intros x Hx.
    pose proof (Rmin_r z (foldr Rmin y l)). lra.
Qed.

Lemma foldr_Rmin_pos y (l : list R) :
  0 < y -> Forall (fun x => 0 < x) l -> 0 < foldr Rmin y l.
Proof.
  intros Hy Hl. induction Hl as [|z l Hz Hl IH]; simpl; [done|].
  by apply Rmin_glb_lt.
Qed.

Lemma array_min_le (l : list R) m :
  array_min l = Some m -> Forall (fun x => m <= x) l.
Proof.
  destruct l as [|y l]; simpl; [done|]. intros [= <-].
  destruct (foldr_Rmin_le y l). by constructor.
Qed.

Lemma array_min_pos (l : list R) m :
  array_min l = Some m -> Forall (fun x => 0 < x) l -> 0 < m.
Proof.
  destruct l as [|y l]; simpl; [done|]. intros [= <-] Hl.
  inversion Hl; subst. by apply foldr_Rmin_pos.
Qed.
End PowerFacts.

Section PERFacts.
Context {D : Type}.
Implicit Types (b : PER.t D).
Local Open Scope R_scope.

Lemma sys_maxsize_pos : 0 < sys_maxsize.
Proof. unfold sys_maxsize. apply IZR_lt. reflexivity. Qed.

Lemma init_inv (bs C T : Z) al beta0 eps gv b0 :
  PER.init bs C T al beta0 eps gv = inr b0 ->
  PER.beta b0 = beta0 /\ PER.init_beta b0 = beta0
  /\ PER.beta_interval b0 = (1 - beta0) / IZR T
  /\ PER.epsilon b0 = eps /\ PER.alpha b0 = al /\ PER.global_v b0 = gv
  /\ PER.min_p b0 = sys_maxsize /\ PER.max_p b0 = Rpower eps al
  /\ 0 < eps /\ (0 <= bs)%Z /\ (0 <= C)%Z /\ T <> 0%Z.
Proof.
  unfold PER.init. destruct (Rlt_dec 0 eps); [|done].
  destruct (Z.leb_spec 0 bs); simpl; [|done].
  destruct (Z.leb_spec 0 C); simpl; [|done].
  destruct (Z.eqb_spec T 0); [done|]. intros [= <-]. by cbn.
Qed.

Lemma to_priority_pos b x : 0 < PER.to_priority b x.
Proof. apply Rpower_pos. Qed.

Lemma exec_inv beta0 interval eps o b :
  beta0 <= 1 -> 0 <= interval ->
  per_inv beta0 interval eps b -> per_inv beta0 interval eps (exec o b).
Proof.
  intros Hb1 Hi [Hib Hint Heps Hbeta Hmin].
  destruct o as [d|ds|tds ds|ps ri|pr idx|]; simpl.
  - unfold PER._store_op; simpl.
    destruct (_ <? _)%nat; by split.
  - by split.
  - by split.
  - unfold PER.sample.
    destruct (Sum_Tree.get_batch_parallel ps (PER.tree b))
      as [[[idxs didx] p] data].
    destruct (PER.min_ref _ p); by split.
  - unfold PER.update.
    destruct (match idx with Some i => Some i | None => PER.last_indexs b end)
      as [idxs|]; [|by split].
    destruct (negb _); [by split|]. simpl.
    assert (Hstep : beta0 <= Rmin (PER.beta b + PER.beta_interval b) 1 <= 1).
    { rewrite Hint. split; [apply Rmin_glb; lra|apply Rmin_r]. }
    destruct (array_min _) as [lo|] eqn:Hlo;
      [destruct (array_max _) as [hi|]|]; try by split.
    split; simpl; try done.
    apply Rmin_glb_lt; [done|].
    apply (array_min_pos _ _ Hlo).
    apply Forall_fmap, Forall_true. intros x. apply to_priority_pos.
  - split; simpl; try done; [lra|apply sys_maxsize_pos].
Qed.

Lemma run_inv beta0 interval eps ops b :
  beta0 <= 1 -> 0 <= interval ->
  per_inv beta0 interval eps b -> per_inv beta0 interval eps (run ops b).
Proof.
  intros Hb1 Hi. revert b.
  induction ops as [|o ops IH]; intros b Hinv; simpl; [done|].
  apply IH. by apply exec_inv.
Qed.

Lemma init_per_inv (bs C T : Z) al beta0 eps gv b0 :
  PER.init bs C T al beta0 eps gv = inr b0 -> beta0 <= 1 ->
  per_inv beta0 ((1 - beta0) / IZR T) eps b0.
Proof.
  intros Hinit Hb1.
  destruct (init_inv _ _ _ _ _ _ _ _ Hinit)
    as (Hb & Hib & Hint & He & _ & _ & Hmin & _).
  split; try done; [lra|]. rewrite Hmin. apply sys_maxsize_pos.
Qed.

Lemma interval_nonneg (T : Z) beta0 :
  beta0 <= 1 -> (0 < T)%Z -> 0 <= (1 - beta0) / IZR T.
Proof.
  intros Hb HT. apply IZR_lt in HT.
  apply Rmult_le_pos; [lra|]. left. by apply Rinv_0_lt_compat.
Qed.

Lemma init_returns (bs C T : Z) al beta0 eps gv :
  0 < eps -> (0 <= bs)%Z -> (0 <= C)%Z -> T <> 0%Z ->
  PER.init (D:=D) bs C T al beta0 eps gv
  = inr (constructed bs C T al beta0 eps gv).
Proof.
  intros He Hbs HC HT. unfold PER.init.
  destruct (Rlt_dec 0 eps); [|done].
  destruct (Z.leb_spec 0 bs); [|lia]. destruct (Z.leb_spec 0 C); [|lia].
  by destruct (Z.eqb_spec T 0).
Qed.




(** C5 (amended): the constructor fails with an [AssertionError]
    whenever [epsilon <= 0] or [capacity < 0], whatever the other
    arguments are; [alpha] is not looked at. *)
Theorem C5_constructor_assertions (bs C T : Z) beta0 eps gv :
  eps <= 0 \/ (C < 0)%Z ->
  forall al : R,
    PER.init (D:=D) bs C T al beta0 eps gv = inl AssertionError.
Proof.
  intros Hbad al. unfold PER.init.
  destruct (Rlt_dec 0 eps); [|done].
  destruct Hbad as [?|HC]; [lra|].
  destruct (Z.leb_spec 0 bs); simpl; [|done].
  destruct (Z.leb_spec 0 C); simpl; [lia|done].
Qed.

Lemma run_global_v (ops : list op) b :
  PER.global_v (run ops b) = PER.global_v b.
Proof.
  revert b. induction ops as [|o ops IH]; intros b; simpl; [done|].
  rewrite IH. clear IH.
  destruct o as [d|ds|tds ds|ps ri|pr idx|]; simpl; try done.
  - unfold PER._store_op; simpl. by destruct (_ <? _)%nat.
  - unfold PER.sample.
    destruct (Sum_Tree.get_batch_parallel ps (PER.tree b))
      as [[[idxs didx] p] data].
    by destruct (PER.min_ref _ p).
  - unfold PER.update.
    destruct (match idx with Some i => Some i | None => PER.last_indexs b
              end) as [idxs|]; [|done].
    destruct (negb _); [done|]. simpl.
    by destruct (array_min _); [destruct (array_max _)|].
Qed.

(** C6 (amended): the reference priority [sample] divides by is the
    running [min_p] in global mode once [min_p] has been set, and the
    minimum of the sampled priorities otherwise; every importance weight
    is positive, and it is at most 1 whenever the reference is at most
    the sampled priority: always so when the reference is the minimum of
    the batch, that is with global mode off or [min_p] not yet set.
    (Sampled priorities are positive as soon as the sampled slots have
    been written.) *)
Theorem C6_importance_weights (bs C T : Z) al beta0 eps gv b0 (ops : list op)
    ps ri out b' :
  PER.init bs C T al beta0 eps gv = inr b0 -> 0 <= beta0 <= 1 -> (0 < T)%Z ->
  let b := run ops b0 in
  let p := (Sum_Tree.get_batch_parallel ps (PER.tree b)).1.2 in
  PER.sample ps ri b = Returns out b' ->
  Forall (fun p_i => 0 < p_i) p ->
  exists m,
    PER.min_ref b p = Some m
    /\ (gv = true -> PER.min_p b < sys_maxsize -> m = PER.min_p b)
    /\ (gv = false \/ ~ PER.min_p b < sys_maxsize ->
        array_min p = Some m
        /\ Forall (fun p_i => m <= p_i) p
        /\ Forall (fun w => w <= 1) (PER.IS_w b'))
    /\ PER.IS_w b' = (fun p_i => Rpower (m / p_i) (PER.beta b)) <$> p
    /\ Forall (fun w => 0 < w) (PER.IS_w b')
    /\ Forall2 (fun p_i w => m <= p_i -> w <= 1) p (PER.IS_w b')
    /\ (array_min p = Some m -> Forall (fun w => w <= 1) (PER.IS_w b')).
Proof.
  intros Hinit [Hb0 Hb1] HT b p Hsample Hpos.
  pose proof (interval_nonneg T beta0 Hb1 HT) as Hi.
  assert (Hinv : per_inv beta0 ((1 - beta0) / IZR T) eps b)
    by (apply run_inv; [done|done|by eapply init_per_inv]).
  assert (Hgv : PER.global_v b = gv).
  { unfold b. rewrite run_global_v.
    by destruct (init_inv _ _ _ _ _ _ _ _ Hinit)
      as (_ & _ & _ & _ & _ & ? & _). }
  destruct Hinv as [_ _ _ Hbeta Hmin].
  unfold PER.sample in Hsample. subst p.
  destruct (Sum_Tree.get_batch_parallel ps (PER.tree b))
    as [[[idxs didx] p] data]. simpl in *.
  change (PER.min_ref (PER.set_last_indexs idxs b) p)
    with (PER.min_ref b p) in Hsample.
  destruct (PER.min_ref b p) as [m|] eqn:Hm; [|done].
  injection Hsample as _ <-. simpl.
  assert (Hmpos : 0 < m).
  { unfold PER.min_ref in Hm.
    destruct (PER.global_v b);
      [destruct (Rlt_dec _ _); [by injection Hm as <-|]|];
      by eapply array_min_pos. }
  assert (Hle1 : forall p_i, 0 < p_i -> m <= p_i ->
                             Rpower (m / p_i) (PER.beta b) <= 1).
  { intros p_i Hp Hmp. apply Rpower_le_one; [|lra].
    split; [by apply Rdiv_lt_0_compat|].
    apply (Rmult_le_reg_r p_i); [done|].
    unfold Rdiv. rewrite Rmult_assoc, Rinv_l by lra. lra. }
  assert (Hbatch : array_min p = Some m ->
            Forall (fun w => w <= 1)
              ((fun p_i => Rpower (m / p_i) (PER.beta b)) <$> p)).
  { intros Hb. apply Forall_fmap.
    pose proof (array_min_le p m Hb) as Hall.
    rewrite Forall_forall in Hall, Hpos. apply Forall_forall.
    intros x Hx. simpl. apply Hle1; auto. }
  exists m. split; [done|]. split; [|split].
  - intros -> Hset. unfold PER.min_ref in Hm. rewrite Hgv in Hm.
    destruct (Rlt_dec (PER.min_p b) sys_maxsize); [|done].
    by injection Hm as <-.
  - intros Hmode.
    assert (Hb : array_min p = Some m).
    { unfold PER.min_ref in Hm. rewrite Hgv in Hm.
      destruct Hmode as [->|Hunset]; [done|].
      destruct gv; [|done].
      by destruct (Rlt_dec (PER.min_p b) sys_maxsize). }
    split; [done|]. split; [by apply array_min_le|by apply Hbatch].
  - split; [done|]. split; [|split].
    + apply Forall_fmap, Forall_true. intros x. apply Rpower_pos.
    + apply Forall2_fmap_r, Forall_Forall2_diag.
      eapply Forall_impl; [exact Hpos|]. simpl. intros. by apply Hle1.
    + exact Hbatch.
Qed.
End PERFacts.

Section PERExamples.
Local Open Scope R_scope.

(** C5 as stated fails for [alpha]: with [alpha = 2], outside [[0, 1]],
    and otherwise valid arguments the constructor returns a buffer. *)
Lemma C5_alpha_outside_unit_interval_accepted :
  exists b : PER.t nat,
    PER.init 32 10 100 2 (4 / 10) (1 / 100) false = inr b
    /\ PER.alpha b = 2 /\ ~ (0 <= PER.alpha b <= 1).
Proof.
  exists (constructed 32 10 100 2 (4 / 10) (1 / 100) false).
  split; [apply init_returns; (lra || lia)|].
  split; [reflexivity|]. simpl. lra.
Qed.

(** C5 (amended) at [epsilon = 0]. *)
Lemma C5_constructor_assertions_witness :
  PER.init (D:=nat) 32 10 100 (6 / 10) (4 / 10) 0 false = inl AssertionError.
Proof.
  apply (C5_constructor_assertions (D:=nat) 32 10 100 (4 / 10) 0 false).
  left. lra.
Defined.


Ltac per_eval :=
  cbv -[Rplus Rminus Rmult Rdiv Rinv Ropp Rpower Rabs Rmin Rmax IZR INR
        Rle_dec Rlt_dec Rle Rlt Rge Rgt sys_maxsize].

Lemma two_lt_maxsize : 2 < sys_maxsize.
Proof. unfold sys_maxsize. apply IZR_lt. reflexivity. Qed.

Lemma run_global_example :
  run global_example_calls (constructed 1 2 1 1 1 1 true) = global_example.
Proof.
  per_eval.
  destruct (Rle_dec (1 / 2) (Rpower 1 1)) as [_|Hn];
    [|rewrite Rpower_1 in Hn; lra].
  per_eval.
  destruct (Rlt_dec sys_maxsize sys_maxsize); [lra|].
  per_eval.
  rewrite Rabs_R1. replace (1 + 1) with 2 by lra.
  rewrite !Rpower_1 by lra.
  rewrite (Rmin_right sys_maxsize 2) by (pose proof two_lt_maxsize; lra).
  rewrite (Rmax_right 1 2) by lra.
  rewrite (Rmin_right _ 1) by lra.
  rewrite ?Rpower_1 by lra.
  unfold global_example. repeat (f_equal; try lra).
Qed.

(** C6 as stated fails in global mode: the second item still has the
    priority 1 it was inserted with, below the running [min_p = 2], and
    when it is sampled its weight is [(2 / 1) ^ 1 = 2]. *)
Lemma C6_global_mode_weight_above_one :
  exists (b0 b b' : PER.t nat) out,
    PER.init 1 2 1 1 1 1 true = inr b0
    /\ b = run global_example_calls b0
    /\ PER.possible_draws (run [OpAddBatch [10; 20]%nat] b0) [1 / 2]
    /\ PER._size b = 2%nat
    /\ PER.possible_draws b [5 / 2]
    /\ PER.sample [5 / 2] false b = Returns out b'
    /\ PER.min_ref b [1] = Some (PER.min_p b)
    /\ PER.IS_w b' = [2]
    /\ ~ Forall (fun w => 0 < w <= 1) (PER.IS_w b').
Proof.
  exists (constructed 1 2 1 1 1 1 true), global_example.
  eexists. eexists.
  split; [apply init_returns; (lra || lia)|].
  split; [by rewrite run_global_example|].
  split.
  { split; [per_eval; reflexivity|].
    intros [|i] v; per_eval; intros [= <-]; simpl INR;
      rewrite !Rpower_1 by lra; lra. }
  split; [per_eval; reflexivity|].
  split.
  { split; [per_eval; reflexivity|].
    intros [|i] v; per_eval; intros [= <-]; simpl INR; lra. }
  split.
  { per_eval.
    destruct (Rle_dec (5 / 2) 2); [lra|].
    destruct (Rlt_dec 2 sys_maxsize); [|pose proof two_lt_maxsize; lra].
    reflexivity. }
  split.
  { per_eval.
    by destruct (Rlt_dec 2 sys_maxsize); [|pose proof two_lt_maxsize; lra]. }
  assert (Hw : [Rpower (2 / 1) 1] = [2]).
  { rewrite Rpower_1 by lra. f_equal; lra. }
  split; [exact Hw|].
  cbn [PER.IS_w PER.set_IS_w].
  change (Rpower (2 / 1) 1 :: _) with [Rpower (2 / 1) 1].
  rewrite Hw. intros Hall. inversion Hall as [|? ? Hbad _]; subst. lra.
Qed.

(** C6 (amended) on a buffer of one slot holding one item, in
    batch-minimum mode. *)
Lemma C6_importance_weights_witness :
  exists m,
    array_min
      (Sum_Tree.get_batch_parallel [1 / 200] (PER.tree one_item_example)).1.2
    = Some m
    /\ Forall (fun w => 0 < w)
         (PER.IS_w (state_of (PER.sample [1 / 200] false one_item_example)))
    /\ Forall (fun w => w <= 1)
         (PER.IS_w (state_of (PER.sample [1 / 200] false one_item_example))).
Proof.
  destruct (C6_importance_weights (D:=nat) 1 1 100 (6 / 10) (4 / 10)
              (1 / 100) false
              (constructed 1 1 100 (6 / 10) (4 / 10) (1 / 100) false)
              [OpStoreOp 7%nat] [1 / 200] false ([Some 7%nat], None)
              (state_of (PER.sample [1 / 200] false one_item_example)))
    as (m & _ & _ & Hbatch & _ & Hpos & _).
  - apply init_returns; (lra || lia).
  - lra.
  - lia.
  - per_eval. reflexivity.
  - per_eval. constructor; [apply Rpower_pos|constructor].
  - destruct (Hbatch (or_introl eq_refl)) as (Hmin & _ & Hle).
    exists m. split; [exact Hmin|]. split; [exact Hpos|exact Hle].
Defined.
End PERExamples.

(** ** [EpisodeExperienceReplay] *)

Section ZipFacts.
Context {F : Type}.
Implicit Types (rows : list (list F)).

Lemma zip_len_uniform n rows :
  rows <> [] -> Forall (fun row => length row = n) rows -> zip_len rows = n.
Proof.
  intros Hne Hall. destruct rows as [|row rows]; [done|]. simpl.
  inversion Hall as [|? ? Hrow Hrows]; subst. clear Hne Hall.
  induction Hrows as [|row' rows Hrow' _ IH]; simpl; [done|]. lia.
Qed.

Lemma column_length n k rows :
  Forall (fun row => length row = n) rows -> k < n ->
  length (column k rows) = length rows.
Proof.
  intros Hall Hk. unfold column.
  induction Hall as [|row rows Hrow _ IH]; simpl; [done|].
  destruct (lookup_lt_is_Some_2 row k ltac:(lia)) as [x ->]. simpl.
  f_equal. exact IH.
Qed.

Lemma zip_star_lookup n k rows :
  rows <> [] -> Forall (fun row => length row = n) rows -> k < n ->
  zip_star rows !! k = Some (column k rows).
Proof.
  intros Hne Hall Hk. unfold zip_star.
  rewrite (zip_len_uniform n) by done.
  rewrite list_lookup_fmap, lookup_seq_lt by done. done.
Qed.
End ZipFacts.

Lemma mapM_fmap_Some_on {A B C : Type} (f : B -> option C) (g : A -> B)
    (e : A -> C) (l : list A) :
  Forall (fun x => f (g x) = Some (e x)) l ->
  mapM f (g <$> l) = Some (e <$> l).
Proof.
  intros Hall. apply mapM_Some_2.
  induction Hall as [|x l Hx _ IH]; simpl; by constructor.
Qed.

Lemma imap_pair_fmap_seq {A : Type} (f : nat -> A) (n j : nat) :
  imap (fun i x => (j + i, x)) (f <$> seq j n) = (fun k => (k, f k)) <$> seq j n.
Proof.
  revert j. induction n as [|n IH]; intros j; simpl; [done|].
  f_equal; [f_equal; lia|].
  etrans; [|exact (IH (S j))].
  apply imap_ext. intros i x _. simpl. f_equal. lia.
Qed.

Section EpisodeFacts.
Implicit Types (traj : EER.trajectory) (trajs : list EER.trajectory).

Lemma truncate_length W traj idx :
  EER.possible_start W traj idx ->
  length (EER.truncate W traj idx) = Nat.min (length traj) W.
Proof.
  unfold EER.possible_start, EER.truncate. intros Hidx.
  rewrite length_take, length_drop. lia.
Qed.

Lemma truncate_short W traj idx :
  EER.possible_start W traj idx -> length traj < W ->
  EER.truncate W traj idx = traj.
Proof.
  unfold EER.possible_start, EER.truncate. intros Hidx HL.
  assert (idx = 0) as -> by lia. rewrite drop_0. apply take_ge. lia.
Qed.

Lemma truncate_lookup W traj idx t :
  t < length (EER.truncate W traj idx) ->
  EER.truncate W traj idx !! t = traj !! (idx + t).
Proof.
  unfold EER.truncate. rewrite length_take. intros Ht.
  rewrite lookup_take_lt by lia. by rewrite lookup_drop.
Qed.

Lemma forallb_length (n : nat) (l : list ndarray) :
  Forall (fun e => length e = n) l ->
  forallb (fun e => length e =? n) l = true.
Proof.
  induction 1 as [|e l He _ IH]; simpl; [done|].
  by rewrite IH, (proj2 (Nat.eqb_eq _ _) He).
Qed.

Lemma pad_row_fits fill l sq :
  sq <> [] -> length sq <= l ->
  Forall (fun e => length e = length fill) sq ->
  pad_row fill l sq = Some (replicate (l - length sq) fill ++ sq).
Proof.
  intros Hne Hle Hw. unfold pad_row. destruct sq as [|x sq']; [done|].
  set (sq := x :: sq') in *.
  assert (l <> 0) by (subst sq; simpl in *; lia).
  destruct (Nat.eqb_spec l 0); [done|].
  replace (length sq - l) with 0 by lia. rewrite drop_0.
  rewrite (forallb_length _ _ Hw). cbn [negb].
  by destruct (Nat.leb_spec (length sq) l); [|lia].
Qed.

Lemma fixed_format_well_formed widths traj :
  fixed_format widths traj -> well_formed (length widths) traj.
Proof.
  intros [Hne Hall]. split; [done|].
  eapply Forall_impl; [exact Hall|]. simpl. intros st <-.
  by rewrite length_fmap.
Qed.

Lemma column_widths widths k d (w : list (list ndarray)) :
  Forall (fun st : list ndarray => length <$> st = widths) w ->
  widths !! k = Some d ->
  length (column k w) = length w
  /\ Forall (fun v => length v = d) (column k w).
Proof.
  intros Hall Hk. unfold column.
  induction Hall as [|st w Hst _ [IH1 IH2]]; simpl; [by split|].
  rewrite <- Hst, list_lookup_fmap in Hk.
  destruct (st !! k) as [x|]; [|done]. injection Hk as Hx. simpl.
  split; [f_equal; exact IH1|constructor; [done|exact IH2]].
Qed.

(** The width [pad_sequences] and [x.shape[-1]] find for field [k]. *)
Lemma first_width widths k d (windows : list (list (list ndarray))) :
  windows <> [] -> Forall (fixed_format widths) windows ->
  widths !! k = Some d ->
  exists v rest, concat (column k <$> windows) = v :: rest /\ length v = d.
Proof.
  intros Hne Hall Hk. destruct windows as [|w ws]; [done|].
  inversion Hall as [|? ? [Hw Hu] _]; subst.
  destruct w as [|st w]; [done|].
  destruct (column_widths widths k d (st :: w) Hu Hk) as [_ Hcol].
  change (concat (column k <$> (st :: w) :: ws))
    with (column k (st :: w) ++ concat (column k <$> ws)).
  destruct (column k (st :: w)) as [|v col] eqn:Hc.
  { apply (f_equal length) in Hc.
    rewrite (proj1 (column_widths widths k d (st :: w) Hu Hk)) in Hc.
    done. }
  inversion Hcol; subst. by exists v, (col ++ concat (column k <$> ws)).
Qed.

Lemma data_list_uniform n windows :
  Forall (well_formed n) windows ->
  EER.data_list n windows = (fun k => column k <$> windows) <$> seq 0 n.
Proof.
  intros Hall. unfold EER.data_list. apply list_eq. intros i.
  rewrite !list_lookup_fmap.
  destruct (seq 0 n !! i) as [k|] eqn:Hk; simpl; [|done]. f_equal.
  apply lookup_seq in Hk as [-> Hi]. simpl.
  induction Hall as [|w windows [Hne Hw] _ IH]; simpl; [done|].
  rewrite (zip_star_lookup n i w Hne Hw Hi). simpl. f_equal. exact IH.
Qed.

Lemma pad_sequences_fits widths W k d windows :
  Forall (fixed_format widths) windows ->
  Forall (fun w : list (list ndarray) => length w <= W) windows ->
  widths !! k = Some d ->
  pad_sequences (column k <$> windows) (EER.pad_value k) W
  = Some (padded_field W k windows).
Proof.
  intros Hff Hfit Hk. unfold pad_sequences, padded_field. cbv zeta.
  rewrite <- list_fmap_compose.
  apply mapM_fmap_Some_on. apply Forall_forall.
  intros w Hw. simpl.
  assert (Hne : windows <> []) by (intros ->; by apply elem_of_nil in Hw).
  destruct (first_width widths k d windows Hne Hff Hk) as (v & rest & Hc & Hv).
  assert (Hshape : sample_shape (column k <$> windows) = d)
    by (unfold sample_shape; by rewrite Hc).
  rewrite Forall_forall in Hff, Hfit. destruct (Hff w Hw) as [Hnw Hu].
  destruct (column_widths widths k d w Hu Hk) as [Hlen Hcol].
  apply pad_row_fits.
  - intros Hnil. rewrite Hnil in Hlen. by destruct w.
  - rewrite Hlen. by apply Hfit.
  - by rewrite length_replicate, Hshape.
Qed.

Lemma padded_field_lookup widths W k d windows j w :
  Forall (fixed_format widths) windows -> widths !! k = Some d ->
  windows !! j = Some w ->
  padded_field W k windows !! j
  = Some (replicate (W - length (column k w))
            (replicate d (EER.pad_value k)) ++ column k w).
Proof.
  intros Hff Hk Hw. unfold padded_field. cbv zeta.
  assert (Hne : windows <> []) by (intros ->; done).
  destruct (first_width widths k d windows Hne Hff Hk) as (v & rest & Hc & Hv).
  assert (Hshape : sample_shape (column k <$> windows) = d)
    by (unfold sample_shape; by rewrite Hc).
  by rewrite !list_lookup_fmap, Hw, Hshape.
Qed.

Lemma padded_data_list_fits widths W windows :
  7 <= length widths -> Forall (fixed_format widths) windows ->
  Forall (fun w : list (list ndarray) => length w <= W) windows ->
  EER.padded_data_list W (length widths) windows
  = inr ((fun k => padded_field W k windows) <$> seq 0 (length widths)).
Proof.
  intros Hn Hff Hfit. set (n := length widths) in *.
  assert (Hwf : Forall (well_formed n) windows).
  { eapply Forall_impl; [exact Hff|]. apply fixed_format_well_formed. }
  assert (Hpad : forall j m, j + m <= n ->
    mapM (fun kx : nat * list (list ndarray) =>
            pad_sequences kx.2 (EER.pad_value kx.1) W)
      ((fun k => (k, column k <$> windows)) <$> seq j m)
    = Some ((fun k => padded_field W k windows) <$> seq j m)).
  { intros j m Hjm.
    apply (mapM_fmap_Some_on _ _ (fun k => padded_field W k windows)).
    apply Forall_forall. intros k Hk. apply elem_of_seq in Hk. simpl.
    destruct (lookup_lt_is_Some_2 widths k ltac:(fold n; lia)) as [d Hd].
    by apply (pad_sequences_fits widths W k d). }
  unfold EER.padded_data_list. cbv zeta.
  rewrite (data_list_uniform n windows Hwf).
  assert (Hseq : seq 0 n = seq 0 6 ++ seq 6 (n - 6))
    by (replace n with (6 + (n - 6)) at 1 by lia; apply seq_app).
  rewrite Hseq, fmap_app.
  rewrite take_app_length', drop_app_length'
    by (by rewrite length_fmap, length_seq).
  rewrite (imap_pair_fmap_seq (fun k => column k <$> windows) 6 0).
  rewrite (imap_pair_fmap_seq (fun k => column k <$> windows) (n - 6) 6).
  rewrite !Hpad by lia.
  destruct (Nat.ltb_spec n 7); [lia|]. by rewrite fmap_app.
Qed.

(** [_per_store] never puts an empty trajectory into the store. *)
Lemma per_store_nonempty i data (b : EER.t) :
  Forall (fun slot => slot <> Some []) (EER._buffer b) ->
  Forall (fun slot => slot <> Some [])
    (EER._buffer (state_of (EER._per_store i data b))).
Proof.
  intros Hinv.
  assert (Hstore : forall (q : list (list ndarray)) b1,
    q <> [] -> Forall (fun slot => slot <> Some []) (EER._buffer b1) ->
    Forall (fun slot => slot <> Some [])
      (EER._buffer (state_of (EER._store_op q b1)))).
  { intros q b1 Hq H1. unfold EER._store_op.
    destruct (_ <? _); simpl; [|done].
    unfold EER.update_rb_after_add. simpl.
    apply Forall_insert; [done|]. by intros [= ->]. }
  unfold EER._per_store.
  destruct (EER.queue b !! i) as [q|]; [|done].
  destruct (last q) as [tail|] eqn:Hlast; [|done].
  assert (Hq : q <> []) by (by intros ->).
  unfold EER.discontinuous, EER.item, EER.truth, EER.put_q. py_unfold.
  destruct (tail !! 4); [|done]. destruct (data !! 0); [|done].
  assert (Hcut : Forall (fun slot => slot <> Some [])
            (EER._buffer
               (state_of
                  (match EER._store_op q b with
                   | Returns _ s' =>
                       Returns tt (EER.set_queue (<[i:=[data]]> (EER.queue s')) s')
                   | Raises e s' => Raises e s'
                   end)))).
  { pose proof (Hstore q b Hq Hinv) as H1.
    by destruct (EER._store_op q b). }
  destruct (ne_any _ _); [exact Hcut|].
  destruct (tail !! 5); [|done]. destruct (data !! 1); [|done].
  destruct (ne_any _ _); [exact Hcut|].
  destruct (data !! 6) as [[|v [|]]|]; try done.
  destruct (negb _); [|done]. cbn.
  pose proof (Hstore (q ++ [data])
                (EER.set_queue (<[i:=q ++ [data]]> (EER.queue b)) b)
                ltac:(by destruct q) Hinv) as H1.
  destruct (EER._store_op (q ++ [data])
              (EER.set_queue (<[i:=q ++ [data]]> (EER.queue b)) b));
    exact H1.
Qed.

Lemma windows_fixed_format widths W trajs starts :
  0 < W -> Forall (fixed_format widths) trajs ->
  Forall2 (EER.possible_start W) trajs starts ->
  Forall (fixed_format widths) (zip_with (EER.truncate W) trajs starts)
  /\ Forall (fun w : list (list ndarray) => length w <= W)
       (zip_with (EER.truncate W) trajs starts)
  /\ length (zip_with (EER.truncate W) trajs starts) = length trajs.
Proof.
  intros HW Hff Hstarts.
  induction Hstarts as [|traj idx trajs starts Hidx _ IH]; simpl;
    [by repeat split|].
  inversion Hff as [|? ? [Hne Hu] Hff']; subst.
  destruct (IH Hff') as (IH1 & IH2 & IH3).
  pose proof (truncate_length W traj idx Hidx) as Hlen.
  split; [|split; [constructor; [lia|done]|by rewrite IH3]].
  constructor; [|done]. split.
  - intros Hnil. rewrite Hnil in Hlen. destruct traj; [done|].
    cbn [length] in Hlen. lia.
  - unfold EER.truncate. by apply Forall_take, Forall_drop.
Qed.

Lemma length_concat_uniform {T : Type} (m : nat) (x : list (list T)) :
  Forall (fun row => length row = m) x -> length (concat x) = length x * m.
Proof.
  induction 1 as [|row x Hrow _ IH]; simpl; [done|].
  rewrite length_app, IH, Hrow. lia.
Qed.

Lemma chunk_concat w (l : list ndarray) :
  Forall (fun v => length v = w) l ->
  EER.chunk w (length l) (concat l) = l.
Proof.
  induction 1 as [|v l Hv _ IH]; simpl; [done|].
  rewrite take_app_length', drop_app_length' by done. by rewrite IH.
Qed.

(** The rows of a padded field: [W] vectors each, all of the width of
    the field. *)
Lemma padded_field_rows widths W k d windows :
  Forall (fixed_format widths) windows ->
  Forall (fun w : list (list ndarray) => length w <= W) windows ->
  widths !! k = Some d ->
  length (padded_field W k windows) = length windows
  /\ Forall (fun row => length row = W /\ Forall (fun v => length v = d) row)
       (padded_field W k windows).
Proof.
  intros Hff Hfit Hk.
  split; [unfold padded_field; cbv zeta; by rewrite !length_fmap|].
  apply Forall_lookup_2. intros j row Hrow.
  assert (is_Some (windows !! j)) as [w Hw].
  { apply lookup_lt_is_Some. apply lookup_lt_Some in Hrow.
    unfold padded_field in Hrow. cbv zeta in Hrow.
    by rewrite !length_fmap in Hrow. }
  rewrite (padded_field_lookup widths W k d windows j w Hff Hk Hw) in Hrow.
  injection Hrow as <-.
  rewrite Forall_forall in Hff, Hfit.
  destruct (Hff w ltac:(by eapply list_elem_of_lookup_2)) as [_ Hu].
  pose proof (Hfit w ltac:(by eapply list_elem_of_lookup_2)) as Hle.
  destruct (column_widths widths k d w Hu Hk) as [Hlen Hcol].
  split.
  - rewrite length_app, length_replicate, Hlen. simpl in Hle. lia.
  - apply Forall_app. split; [|done].
    apply Forall_replicate. apply length_replicate.
Qed.

(** When the number of rows asked for is the number of vectors of the
    array and the fields from [done] on are not of width 0, the
    reshaping succeeds. *)
Lemma reshape_flattened (B T N k : nat) (x : list (list ndarray)) :
  length x = B ->
  Forall (fun row => length row = T /\ Forall (fun v => length v = N) row) x ->
  0 < B * T -> (6 <= k -> 0 < N) ->
  EER.reshape (B * T) k N x = Some (flattened k x).
Proof.
  intros HB Hrows Hpos HN.
  assert (Hlen : length (concat x) = B * T).
  { rewrite (length_concat_uniform T), HB; [done|].
    eapply Forall_impl; [exact Hrows|]. by intros row [? _]. }
  assert (Hvec : Forall (fun v => length v = N) (concat x)).
  { apply Forall_concat. eapply Forall_impl; [exact Hrows|].
    by intros row [_ ?]. }
  assert (Hflat : length (concat (concat x)) = B * T * N)
    by (by rewrite (length_concat_uniform N), Hlen).
  unfold EER.reshape, flattened, EER.reshape_rows, EER.reshape_width.
  rewrite Hflat.
  destruct (Nat.eqb_spec k 2) as [->|H2].
  { simpl. destruct (Nat.eqb_spec (B * T) 0); [lia|]. simpl.
    replace (B * T * N) with (N * (B * T)) by lia.
    rewrite Nat.Div0.mod_mul, Nat.div_mul by lia. simpl.
    by rewrite <- Hlen, (chunk_concat N _ Hvec). }
  destruct (Nat.eqb_spec k 3) as [->|H3]; [done|]. cbn [orb].
  destruct (Nat.leb_spec 6 k); [|done].
  destruct (Nat.eqb_spec N 0); [specialize (HN ltac:(done)); lia|].
  rewrite Nat.Div0.mod_mul, Nat.div_mul by lia. simpl.
  by rewrite <- Hlen, (chunk_concat N _ Hvec).
Qed.

Lemma zip_fmap_same {A B C : Type} (f : A -> B) (g : A -> C) (l : list A) :
  zip (f <$> l) (g <$> l) = (fun x => (f x, g x)) <$> l.
Proof. induction l; simpl; by f_equal. Qed.

Lemma imap_fmap_seq {A B : Type} (f : nat -> A -> B) (g : nat -> A) n j :
  imap (fun i => f (j + i)) (g <$> seq j n) = (fun k => f k (g k)) <$> seq j n.
Proof.
  revert j. induction n as [|n IH]; intros j; simpl; [done|].
  f_equal; [by rewrite Nat.add_0_r|].
  etrans; [|exact (IH (S j))].
  apply imap_ext. intros i x _. simpl. f_equal. lia.
Qed.

(** [sample] on picked trajectories in a fixed format, up to the
    reshaping of the training part. *)
Lemma sample_padded (b : EER.t) (choice starts : list nat)
    (trajs : list (list (list ndarray))) (widths : list nat) :
  0 < EER.timestep b -> 7 <= length widths ->
  EER.picked choice b = Some trajs -> trajs <> [] ->
  Forall (fixed_format widths) trajs ->
  Forall2 (EER.possible_start (EER.timestep b)) trajs starts ->
  let W := EER.timestep b in
  let windows := zip_with (EER.truncate W) trajs starts in
  let padded := (fun k => padded_field W k windows) <$> seq 0 (length widths) in
  EER.padded_data_list W (length widths) windows = inr padded
  /\ EER.sample choice starts b
     = match mapM (fun kNx : nat * (nat * list (list ndarray)) =>
                     EER.reshape (EER.n_sample b * EER.train_time_step b)
                       kNx.1 kNx.2.1 kNx.2.2)
               ((fun k => (k, (nth k widths 0,
                               drop (EER.burn_in_time_step b)
                                 <$> padded_field W k windows)))
                  <$> seq 0 (length widths)) with
       | Some out =>
           Returns out
             (EER.set_burn_in_states
                ((fun x : list (list ndarray) =>
                    take (EER.burn_in_time_step b) <$> x)
                   <$> take 2 padded) b)
       | None =>
           Raises ValueError
             (EER.set_burn_in_states
                ((fun x : list (list ndarray) =>
                    take (EER.burn_in_time_step b) <$> x)
                   <$> take 2 padded) b)
       end.
Proof.
  intros HW Hn Hpicked Hne Hff Hstarts W windows padded.
  destruct (windows_fixed_format widths W trajs starts HW Hff Hstarts)
    as (Hwff & Hfit & Hlenw).
  pose proof (padded_data_list_fits widths W _ Hn Hwff Hfit) as Hpad.
  fold windows padded in Hwff, Hfit, Hlenw, Hpad.
  split; [exact Hpad|].
  assert (Hnw : windows <> []).
  { intros Hnil. rewrite Hnil in Hlenw. by destruct trajs. }
  assert (Hwf : Forall (well_formed (length widths)) windows).
  { eapply Forall_impl; [exact Hwff|]. apply fixed_format_well_formed. }
  assert (Hstep : exists step0 traj0' trajs',
            trajs = (step0 :: traj0') :: trajs'
            /\ length step0 = length widths).
  { destruct trajs as [|traj0 trajs']; [done|].
    apply Forall_cons in Hff as [[Hne0 Hu0] _].
    destruct traj0 as [|step0 traj0']; [done|].
    apply Forall_cons in Hu0 as [Hlen0 _].
    exists step0, traj0', trajs'. split; [done|].
    by rewrite <- Hlen0, length_fmap. }
  destruct Hstep as (step0 & traj0' & trajs' & Htr & Hn0).
  unfold EER.sample. rewrite Hpicked.
  replace trajs with ((step0 :: traj0') :: trajs') at 1 by done.
  rewrite Hn0. fold W. fold windows. rewrite Hpad. cbv zeta.
  rewrite (data_list_uniform _ windows Hwf).
  unfold padded.
  rewrite <- !list_fmap_compose.
  rewrite (zip_fmap_same _ _ (seq 0 (length widths))).
  rewrite (imap_pair_fmap_seq _ (length widths) 0).
  match goal with
  | |- match mapM _ ?l1 with _ => _ end = match mapM _ ?l2 with _ => _ end =>
      assert (Heq : l1 = l2); [|by rewrite Heq]
  end.
  apply list_fmap_ext. intros i k Hk. apply lookup_seq in Hk as [-> Hk].
  simpl.
  destruct (lookup_lt_is_Some_2 widths i Hk) as [d Hd].
  destruct (first_width _ i d windows Hnw Hwff Hd) as (v & rest & Hc & Hv).
  unfold EER.last_dim. rewrite Hc.
  by rewrite (nth_lookup_Some _ _ _ _ Hd), Hv.
Qed.

(** [sample] returns when there is something to train on: the training
    part of every padded field, reshaped. *)
Lemma sample_returns_training (b : EER.t) (choice starts : list nat)
    (trajs : list (list (list ndarray))) (widths : list nat) :
  0 < EER.train_time_step b ->
  EER.timestep b = EER.burn_in_time_step b + EER.train_time_step b ->
  7 <= length widths ->
  EER.picked choice b = Some trajs -> trajs <> [] ->
  length choice = EER.n_sample b ->
  Forall (fixed_format widths) trajs ->
  (forall k d, 6 <= k -> widths !! k = Some d -> 0 < d) ->
  Forall2 (EER.possible_start (EER.timestep b)) trajs starts ->
  let W := EER.timestep b in
  let windows := zip_with (EER.truncate W) trajs starts in
  let padded := (fun k => padded_field W k windows) <$> seq 0 (length widths) in
  EER.sample choice starts b
  = Returns
      (imap flattened
         ((fun x : list (list ndarray) =>
             drop (EER.burn_in_time_step b) <$> x) <$> padded))
      (EER.set_burn_in_states
         ((fun x : list (list ndarray) =>
             take (EER.burn_in_time_step b) <$> x) <$> take 2 padded) b).
Proof.
  intros Htrain HWsum Hn Hpicked Hne Hchoice Hff Hpos Hstarts W windows padded.
  assert (HW : 0 < EER.timestep b) by lia.
  destruct (windows_fixed_format widths W trajs starts HW Hff Hstarts)
    as (Hwff & Hfit & Hlenw).
  destruct (sample_padded b choice starts trajs widths HW Hn Hpicked Hne Hff
              Hstarts) as [_ Hsample].
  fold W windows padded in Hwff, Hfit, Hlenw, Hsample.
  rewrite Hsample.
  rewrite (mapM_fmap_Some_on _ _
             (fun k => flattened k
                (drop (EER.burn_in_time_step b)
                   <$> padded_field W k windows))).
  - f_equal. unfold padded. rewrite <- list_fmap_compose.
    symmetry. apply (imap_fmap_seq flattened _ (length widths) 0).
  - apply Forall_forall. intros k Hk. apply elem_of_seq in Hk. simpl.
    destruct (lookup_lt_is_Some_2 widths k ltac:(lia)) as [d Hd].
    rewrite (nth_lookup_Some _ _ _ _ Hd).
    destruct (padded_field_rows widths W k d windows Hwff Hfit Hd)
      as [Hlen Hrows].
    assert (HB : length trajs = EER.n_sample b).
    { rewrite <- Hchoice. symmetry. unfold EER.picked in Hpicked.
      by apply length_mapM in Hpicked. }
    rewrite <- HB. apply reshape_flattened.
    + by rewrite length_fmap, Hlen.
    + apply Forall_fmap. eapply Forall_impl; [exact Hrows|]. simpl.
      intros row [Hrow Hvec]. split; [rewrite length_drop; lia|].
      by apply Forall_drop.
    + destruct trajs; [done|]. simpl. lia.
    + intros Hk6. by apply (Hpos k d).
Qed.

(** C8: for the trajectories picked from a non-empty store, whose steps
    all have the same fields of the widths [widths], and window starts
    drawn in [[0, max(1, L - W + 1))], every trajectory yields the
    contiguous window [traj[idx : idx + W]] of length [min(L, W)], the
    whole trajectory when [L < W], and in every field the row of that
    trajectory is the window's values preceded by [W - min(L, W)] padding
    vectors of the width of the field, which hold 1 in the [done] field
    (index 6) and 0 in every other field: exactly [W] vectors.  [sample]
    then assigns the burn-in states from these rows and reshapes the
    training part: with [train_time_step = 0] that raises [ValueError];
    with [train_time_step > 0], [W = burn_in + train], as many
    trajectories as [n_sample] and no field of width 0 from [done] on, it
    returns the training part of the rows. *)
Theorem C8_window_and_padding (b : EER.t) (choice starts : list nat)
    (trajs : list (list (list ndarray))) (widths : list nat) :
  0 < EER.timestep b -> 7 <= length widths ->
  EER.picked choice b = Some trajs -> trajs <> [] ->
  Forall (fixed_format widths) trajs ->
  Forall2 (EER.possible_start (EER.timestep b)) trajs starts ->
  let W := EER.timestep b in
  exists padded,
    EER.padded_data_list W (length widths)
      (zip_with (EER.truncate W) trajs starts) = inr padded
    /\ length padded = length widths
    /\ (forall k d j traj idx,
          widths !! k = Some d ->
          trajs !! j = Some traj -> starts !! j = Some idx ->
          let window := EER.truncate W traj idx in
          length window = Nat.min (length traj) W
          /\ (forall t, t < length window -> window !! t = traj !! (idx + t))
          /\ (length traj < W -> window = traj)
          /\ exists col row,
              padded !! k = Some col /\ col !! j = Some row
              /\ length row = W
              /\ Forall (fun v => length v = d) row
              /\ row = replicate (W - length window)
                         (replicate d (if k =? 6 then 1%Q else 0%Q))
                       ++ column k window)
    /\ (EER.train_time_step b = 0 ->
        EER.sample choice starts b
        = Raises ValueError
            (EER.set_burn_in_states
               ((fun x : list (list ndarray) =>
                   take (EER.burn_in_time_step b) <$> x) <$> take 2 padded)
               b))
    /\ (0 < EER.train_time_step b ->
        W = EER.burn_in_time_step b + EER.train_time_step b ->
        length choice = EER.n_sample b ->
        (forall k d, 6 <= k -> widths !! k = Some d -> 0 < d) ->
        EER.sample choice starts b
        = Returns
            (imap flattened
               ((fun x : list (list ndarray) =>
                   drop (EER.burn_in_time_step b) <$> x) <$> padded))
            (EER.set_burn_in_states
               ((fun x : list (list ndarray) =>
                   take (EER.burn_in_time_step b) <$> x) <$> take 2 padded)
               b)).
Proof.
  intros HW Hn Hpicked Hne Hff Hstarts W.
  destruct (windows_fixed_format widths W trajs starts HW Hff Hstarts)
    as (Hwff & Hfit & Hlenw).
  destruct (sample_padded b choice starts trajs widths HW Hn Hpicked Hne Hff
              Hstarts) as [Hpad Hsample].
  fold W in Hpad, Hsample.
  set (windows := zip_with (EER.truncate W) trajs starts) in *.
  set (n := length widths) in *.
  exists ((fun k => padded_field W k windows) <$> seq 0 n).
  split; [exact Hpad|].
  split; [by rewrite length_fmap, length_seq|]. split; [|split].
  - intros k d j traj idx Hk Htraj Hidx window.
    assert (Hstart : EER.possible_start W traj idx)
      by (by eapply Forall2_lookup_lr).
    split; [by apply truncate_length|].
    split; [intros t; apply truncate_lookup|].
    split; [by apply truncate_short|].
    assert (Hwin : windows !! j = Some window).
    { apply lookup_zip_with_Some. by exists traj, idx. }
    assert (Hkn : k < n) by (by eapply lookup_lt_Some).
    rewrite Forall_forall in Hwff, Hfit.
    destruct (Hwff window ltac:(by eapply list_elem_of_lookup_2)) as [_ Hu].
    pose proof (Hfit window ltac:(by eapply list_elem_of_lookup_2)) as Hle.
    destruct (column_widths widths k d window Hu Hk) as [Hcol Hvec].
    exists (padded_field W k windows),
      (replicate (W - length window) (replicate d (EER.pad_value k))
         ++ column k window).
    split; [by rewrite list_lookup_fmap, lookup_seq_lt|].
    split.
    { rewrite (padded_field_lookup widths W k d windows j window);
        [by rewrite Hcol| |done|done].
      by apply Forall_forall. }
    split; [rewrite length_app, length_replicate, Hcol; simpl in Hle; lia|].
    split; [|done].
    apply Forall_app. split; [|done].
    apply Forall_replicate, length_replicate.
  - intros Htrain. rewrite Hsample, Htrain, Nat.mul_0_r.
    match goal with
    | |- match ?m with _ => _ end = _ =>
        destruct m as [out|] eqn:Hmap; [|done]
    end.
    apply mapM_Some_1 in Hmap.
    assert (H2 : ((fun k => (k, (nth k widths 0,
                   drop (EER.burn_in_time_step b)
                     <$> padded_field W k windows))) <$> seq 0 n) !! 2
                 = Some (2, (nth 2 widths 0,
                             drop (EER.burn_in_time_step b)
                               <$> padded_field W 2 windows))).
    { by rewrite list_lookup_fmap, lookup_seq_lt by (fold n; lia). }
    destruct (Forall2_lookup_l _ _ _ _ _ Hmap H2) as (y & _ & Hy).
    done.
  - intros Htrain HWsum Hchoice Hpos.
    by apply (sample_returns_training b choice starts trajs widths).
Qed.
End EpisodeFacts.

(** *** A concrete episode store *)

Lemma episode_example_store :
  EER.timestep episode_example = 5
  /\ EER._size episode_example = 2
  /\ EER.picked [0; 1] episode_example
     = Some [[ep_step 0 0; ep_step 1 0; ep_step 2 0; ep_step 3 0;
              ep_step 4 0; ep_step 5 0; ep_step 6 1];
             [ep_step 10 0; ep_step 11 1]].
Proof. by vm_compute. Qed.

(** The episode of 7 steps sampled with window start 1 gives steps 1 to 5;
    the episode of 2 steps gives three padding rows and its two steps,
    the padding being 0 in the state field and 1 in the [done] field. *)
Lemma episode_round_trip :
  exists padded,
    EER.padded_data_list 5 7
      (zip_with (EER.truncate 5)
         [[ep_step 0 0; ep_step 1 0; ep_step 2 0; ep_step 3 0;
           ep_step 4 0; ep_step 5 0; ep_step 6 1];
          [ep_step 10 0; ep_step 11 1]] [1; 0]) = inr padded
    /\ padded !! 0
       = Some [[[1%Q]; [2%Q]; [3%Q]; [4%Q]; [5%Q]];
               [[0%Q]; [0%Q]; [0%Q]; [10%Q]; [11%Q]]]
    /\ padded !! 6
       = Some [[[0%Q]; [0%Q]; [0%Q]; [0%Q]; [0%Q]];
               [[1%Q]; [1%Q]; [1%Q]; [0%Q]; [1%Q]]].
Proof. eexists. split; [by vm_compute|]. split; by vm_compute. Qed.

(** C8 on that store: the row of the episode of 2 steps in the [done]
    field, and the sample of both episodes. *)
Lemma C8_window_and_padding_witness :
  exists padded col out b',
    EER.padded_data_list 5 7
      (zip_with (EER.truncate 5)
         [[ep_step 0 0; ep_step 1 0; ep_step 2 0; ep_step 3 0;
           ep_step 4 0; ep_step 5 0; ep_step 6 1];
          [ep_step 10 0; ep_step 11 1]] [1; 0]) = inr padded
    /\ length padded = 7
    /\ padded !! 6 = Some col
    /\ col !! 1 = Some [[1%Q]; [1%Q]; [1%Q]; [0%Q]; [1%Q]]
    /\ EER.sample [0; 1] [1; 0] episode_example = Returns out b'.
Proof.
  destruct (C8_window_and_padding episode_example [0; 1] [1; 0]
              [[ep_step 0 0; ep_step 1 0; ep_step 2 0; ep_step 3 0;
                ep_step 4 0; ep_step 5 0; ep_step 6 1];
               [ep_step 10 0; ep_step 11 1]] [1; 0; 1; 1; 1; 0; 1])
    as (padded & Hpad & Hlen & Hrows & _ & Hret).
  - vm_compute. lia.
  - simpl. lia.
  - by vm_compute.
  - discriminate.
  - repeat constructor; discriminate.
  - repeat constructor; vm_compute; lia.
  - destruct (Hrows 6 1 1 [ep_step 10 0; ep_step 11 1] 0
                eq_refl eq_refl eq_refl)
      as (_ & _ & _ & col & row & Hcol & Hrow & _ & _ & Heq).
    exists padded, col. eexists. eexists.
    split; [exact Hpad|]. split; [exact Hlen|]. split; [exact Hcol|].
    split; [rewrite Hrow; f_equal; exact Heq|].
    apply Hret.
    + vm_compute. lia.
    + reflexivity.
    + reflexivity.
    + intros k d Hk Hd.
      destruct k as [|[|[|[|[|[|[|k]]]]]]]; try lia;
        [injection Hd as <-; lia|done].
Defined.

(** * Further properties *)

(** ** [ExperienceReplay]: stores and resets in any order *)

Section ExperienceReplayRunFacts.
Context {A F : Type} {U : Unpack A F}.
Implicit Types (rb : ER.t A) (x : A).

Lemma written_inv_init (bs C : Z) rb0 :
  ER.init bs C = inr rb0 -> (0 < C)%Z ->
  written_inv (Z.to_nat C) rb0 /\ ER.batch_size rb0 = Z.to_nat bs.
Proof.
  intros Hinit HC. unfold ER.init in Hinit.
  destruct (0 <=? bs)%Z; simpl in Hinit; [|done].
  destruct (Z.leb_spec 0 C); simpl in Hinit; [|lia].
  injection Hinit as <-. split; [|done]. split; [done|].
  exists []. simpl. rewrite Nat.sub_0_r. repeat split; lia.
Qed.

Lemma written_inv_store C rb x :
  written_inv C rb ->
  exists rb', ER._store_op x rb = Returns tt rb' /\ written_inv C rb'
              /\ ER.batch_size rb' = ER.batch_size rb.
Proof.
  intros [Hcap (xs & Hbuf & Hlen & Hsz & Hptr & Hcur)].
  destruct rb as [bs cap sz p b]; simpl in *. subst cap.
  assert (Hb : length b = C).
  { rewrite Hbuf, length_app, length_fmap, length_replicate. lia. }
  unfold ER._store_op; simpl.
  destruct (Nat.ltb_spec p (length b)); [|lia].
  eexists. split; [reflexivity|].
  unfold ER.update_rb_after_add, ER.set_data_pointer, ER.set_size,
    ER.set_buffer; simpl.
  assert (Hnew : exists ys : list A,
    <[p:=Some x]> b = (Some <$> ys) ++ replicate (C - length ys) None
    /\ length ys <= C /\ S (Nat.min sz (C - 1)) <= length ys
    /\ length xs <= length ys
    /\ (length ys < C -> p + 1 = length ys)).
  { destruct (decide (length xs < C)) as [Hlt|Hge].
    - rewrite (Hcur Hlt) in *. exists (xs ++ [x]).
      rewrite Hbuf, length_app, fmap_app. simpl.
      replace (C - length xs) with (S (C - (length xs + 1))) by lia.
      simpl. rewrite insert_app_r_alt by (rewrite length_fmap; lia).
      rewrite length_fmap, Nat.sub_diag. simpl.
      split; [by rewrite <- app_assoc|]. repeat split; lia.
    - exists (<[p:=x]> xs). rewrite length_insert.
      replace (C - length xs) with 0 in * by lia. simpl in *.
      rewrite app_nil_r in *. subst b.
      rewrite list_fmap_insert. repeat split; lia. }
  destruct Hnew as (ys & Hbuf' & Hlen' & Hsz' & Hmono & Hcur').
  destruct (Nat.leb_spec C (p + 1)); simpl;
    destruct (Nat.ltb_spec sz C); simpl;
    (split; [|done]); (split; [done|]); exists ys; simpl;
    (split; [exact Hbuf'|]); repeat split; lia.
Qed.

Lemma written_inv_reset C rb :
  written_inv C rb -> written_inv C (ER.reset rb).
Proof.
  intros [Hcap (xs & Hbuf & Hlen & Hsz & Hptr & Hcur)].
  split; [done|]. exists xs. simpl. repeat split; try done. lia.
Qed.

Lemma written_inv_run C ops rb :
  written_inv C rb ->
  written_inv C (er_run ops rb)
  /\ ER.batch_size (er_run ops rb) = ER.batch_size rb.
Proof.
  revert rb. induction ops as [|o ops IH]; intros rb Hinv; simpl; [done|].
  destruct o as [x|]; simpl.
  - destruct (written_inv_store C rb x Hinv) as (rb' & -> & Hinv' & Hbs).
    simpl. destruct (IH rb' Hinv') as [IH1 IH2]. split; [done|congruence].
  - destruct (IH _ (written_inv_reset C rb Hinv)) as [IH1 IH2]. by split.
Qed.

Lemma written_inv_live C rb :
  written_inv C rb ->
  exists rows : list A,
    ER.live_slots rb = Some <$> rows /\ length rows = ER._size rb.
Proof.
  intros [Hcap (xs & Hbuf & Hlen & Hsz & Hptr & Hcur)].
  exists (take (ER._size rb) xs). unfold ER.live_slots.
  rewrite Hbuf, take_app_le by (rewrite length_fmap; lia).
  rewrite fmap_take. split; [done|]. rewrite length_take. lia.
Qed.

(** X1: whatever stores and resets have been made on a buffer built with
    a positive capacity, its size stays within the capacity, its cursor
    within the array, every live slot has been written, so that [get_all]
    returns the rows of the live slots, and the next store returns. *)
Theorem er_stores_and_resets_keep_live_slots_written
    (bs C : Z) rb0 (ops : list (er_op (A:=A))) x :
  ER.init bs C = inr rb0 -> (0 < C)%Z ->
  let rb := er_run ops rb0 in
  ER._size rb <= ER.capacity rb
  /\ ER._data_pointer rb < ER.capacity rb
  /\ length (ER._buffer rb) = ER.capacity rb
  /\ ER.capacity rb = Z.to_nat C
  /\ (exists rows : list A,
        ER.live_slots rb = Some <$> rows
        /\ length rows = ER._size rb
        /\ ER.get_all rb = Returns (zip_star (unpack <$> rows)) rb)
  /\ exists rb', ER._store_op x rb = Returns tt rb'.
Proof.
  intros Hinit HC rb.
  destruct (written_inv_init bs C rb0 Hinit HC) as [Hinv0 _].
  destruct (written_inv_run _ ops rb0 Hinv0) as [Hinv _]. fold rb in Hinv.
  destruct (written_inv_live _ rb Hinv) as (rows & Hlive & Hrows).
  destruct (written_inv_store _ rb x Hinv) as (rb' & Hst & _).
  destruct Hinv as [Hcap (xs & Hbuf & Hlen & Hsz & Hptr & Hcur)].
  repeat split; try lia.
  - rewrite Hbuf, length_app, length_fmap, length_replicate. lia.
  - exists rows. split; [done|]. split; [done|]. by apply get_all_rows.
  - by exists rb'.
Qed.

(** X2: a capacity of 0 passes the assertions of the constructor, and
    every store into the buffer it builds raises [IndexError] and leaves
    the buffer as it was. *)
Theorem er_capacity_zero_store_raises (bs : Z) x :
  (0 <= bs)%Z ->
  exists rb0 : ER.t A,
    ER.init bs 0 = inr rb0
    /\ forall ops : list (er_op (A:=A)),
         ER._buffer (er_run ops rb0) = []
         /\ ER._store_op x (er_run ops rb0)
            = Raises IndexError (er_run ops rb0).
Proof.
  intros Hbs. exists (fresh (Z.to_nat bs) 0). split.
  { unfold ER.init. destruct (Z.leb_spec 0 bs); [|lia]. reflexivity. }
  intros ops.
  assert (H : forall rb : ER.t A, ER._buffer rb = [] ->
            ER._buffer (er_run ops rb) = []).
  { induction ops as [|o ops IH]; intros rb Hb; simpl; [done|].
    apply IH. destruct o as [y|]; simpl; [|done].
    unfold ER._store_op. by rewrite Hb. }
  pose proof (H (fresh (Z.to_nat bs) 0) eq_refl) as Hb.
  split; [exact Hb|]. unfold ER._store_op. by rewrite Hb.
Qed.

(** X3: on a buffer reached by stores and resets, a possible draw of
    [sample] returns [min(batch_size, size)] rows, each the item of the
    live slot drawn for it, and leaves the buffer unchanged. *)
Theorem er_sample_returns_live_rows
    (bs C : Z) rb0 (ops : list (er_op (A:=A))) (choice : list nat) :
  ER.init bs C = inr rb0 -> (0 < C)%Z ->
  let rb := er_run ops rb0 in
  ER.possible_choice rb choice ->
  exists rows : list A,
    ER.sample choice rb = Returns (zip_star (unpack <$> rows)) rb
    /\ length rows = Nat.min (ER.batch_size rb) (ER._size rb)
    /\ Forall2 (fun i row => ER._buffer rb !! i = Some (Some row)
                             /\ i < ER._size rb) choice rows.
Proof.
  intros Hinit HC rb (Hlen & Hnodup & Hbound).
  destruct (written_inv_init bs C rb0 Hinit HC) as [Hinv0 _].
  destruct (written_inv_run _ ops rb0 Hinv0) as [Hinv _]. fold rb in Hinv.
  destruct (written_inv_live _ rb Hinv) as (live & Hlive & Hrows).
  rewrite Hlive, length_fmap in Hbound.
  assert (Hpick : exists rows : list A,
    Forall2 (fun i row => live !! i = Some row) choice rows).
  { clear Hlen Hnodup. induction Hbound as [|i choice Hi _ [rows IH]].
    - by exists [].
    - destruct (lookup_lt_is_Some_2 live i Hi) as [row Hrow].
      exists (row :: rows). by constructor. }
  destruct Hpick as (rows & Hpick). exists rows.
  assert (Hm1 : mapM (fun i => ER.live_slots rb !! i) choice
                = Some (Some <$> rows)).
  { apply mapM_Some_2. rewrite Hlive. apply Forall2_fmap_r.
    eapply Forall2_impl; [exact Hpick|]. simpl. intros i row Hrow.
    by rewrite list_lookup_fmap, Hrow. }
  split; [|split].
  - unfold ER.sample. rewrite Hm1. by rewrite mapM_fmap_Some.
  - rewrite <- (Forall2_length _ _ _ Hpick), Hlen.
    unfold ER.n_sample, ER.is_lg_batch_size.
    destruct (Nat.ltb_spec (ER.batch_size rb) (ER._size rb)); lia.
  - eapply Forall2_impl; [exact Hpick|]. simpl. intros i row Hrow.
    assert (Hi : i < ER._size rb)
      by (rewrite <- Hrows; by eapply lookup_lt_Some).
    split; [|done].
    assert (Hl : ER.live_slots rb !! i = Some (Some row))
      by (by rewrite Hlive, list_lookup_fmap, Hrow).
    unfold ER.live_slots in Hl. by rewrite lookup_take_lt in Hl.
Qed.
End ExperienceReplayRunFacts.

(** ** [zip] twice *)

Section ZipTwice.
Context {F : Type}.
Implicit Types (rows : list (list F)).

Lemma column_lookup n k i rows :
  Forall (fun row => length row = n) rows -> k < n ->
  column k rows !! i = rows !! i ≫= (fun row => row !! k).
Proof.
  intros Hall Hk. unfold column. revert i.
  induction Hall as [|row rows Hrow _ IH]; intros i; simpl; [done|].
  destruct (lookup_lt_is_Some_2 row k ltac:(lia)) as [y Hy].
  rewrite Hy. simpl. destruct i as [|i]; simpl; [done|]. apply IH.
Qed.

Lemma omap_lookup_seq (l : list F) :
  omap (fun k => l !! k) (seq 0 (length l)) = l.
Proof.
  induction l as [|y l IH] using rev_ind; [done|].
  rewrite length_app. simpl. rewrite Nat.add_1_r, seq_S. simpl.
  rewrite omap_app. simpl.
  rewrite lookup_app_r, Nat.sub_diag by lia. simpl. f_equal.
  etrans; [|exact IH]. apply list_omap_ext.
  apply Forall_Forall2_diag, Forall_forall. intros k Hk.
  apply elem_of_seq in Hk. apply lookup_app_l. lia.
Qed.

(** Transposing a rectangular, non-degenerate table twice gives it
    back. *)
Lemma zip_star_involutive n rows :
  rows <> [] -> 0 < n -> Forall (fun row => length row = n) rows ->
  zip_star (zip_star rows) = rows.
Proof.
  intros Hne Hn Hall.
  assert (Hcols : zip_star rows = (fun k => column k rows) <$> seq 0 n)
    by (unfold zip_star; by rewrite (zip_len_uniform n)).
  assert (Hu : Forall (fun col => length col = length rows) (zip_star rows)).
  { rewrite Hcols. apply Forall_fmap, Forall_forall. intros k Hk. simpl.
    apply elem_of_seq in Hk. apply (column_length n); [done|lia]. }
  assert (Hne' : zip_star rows <> []).
  { rewrite Hcols. destruct n; [lia|done]. }
  unfold zip_star at 1. rewrite (zip_len_uniform (length rows)) by done.
  apply list_eq. intros i. rewrite list_lookup_fmap.
  destruct (decide (i < length rows)) as [Hi|Hi].
  - rewrite lookup_seq_lt by done. simpl.
    destruct (lookup_lt_is_Some_2 rows i Hi) as [row Hrow]. rewrite Hrow.
    f_equal. rewrite Forall_forall in Hall.
    pose proof (Hall row ltac:(by eapply list_elem_of_lookup_2)) as Hlen.
    etrans; [|exact (omap_lookup_seq row)]. rewrite Hlen.
    unfold column at 1. rewrite Hcols.
    apply list_omap_ext, Forall2_fmap_l, Forall_Forall2_diag, Forall_forall.
    intros k Hk. apply elem_of_seq in Hk. simpl.
    rewrite (column_lookup n k i rows); [|by apply Forall_forall|lia].
    by rewrite Hrow.
  - rewrite lookup_seq_ge by lia. simpl. symmetry.
    apply lookup_ge_None. lia.
Qed.
End ZipTwice.

Section ExperienceReplayRoundTrip.
Context {F : Type}.

(** X4: [add] followed by [get_all] gives back the columns that were
    added: the rows of a rectangular batch of at most [capacity] rows,
    added to a freshly built buffer, come back as the same columns. *)
Theorem er_add_get_all_round_trip (bs C : Z) (rb0 : ER.t (list F))
    (cols : list (list F)) (m : nat) :
  ER.init bs C = inr rb0 -> cols <> [] -> 0 < m <= Z.to_nat C ->
  Forall (fun col => length col = m) cols ->
  exists rb,
    ER.add cols rb0 = Returns tt rb
    /\ ER._size rb = m
    /\ ER.get_all rb = Returns cols rb.
Proof.
  intros Hinit Hne Hm Hall.
  assert (Hrows : length (zip_star cols) = m).
  { unfold zip_star. by rewrite length_fmap, length_seq,
      (zip_len_uniform m). }
  destruct (init_store_all bs C rb0 (zip_star cols) Hinit ltac:(lia))
    as (rb & Hrun & Hinv).
  exists rb. split; [exact Hrun|]. split.
  - rewrite (ri_size _ _ _ Hinv), Hrows. lia.
  - rewrite (get_all_rows rb (zip_star cols)).
    + unfold unpack, list_unpack. rewrite list_fmap_id.
      rewrite (zip_star_involutive m); [done|done|lia|done].
    + apply (ring_inv_live_no_wrap (Z.to_nat C)); [lia|done|lia].
Qed.
End ExperienceReplayRoundTrip.

Section ExperienceReplayQueries.
Context {A : Type}.

(** X5: after inserting the items [l] into a freshly built buffer,
    [is_empty] holds exactly when nothing was inserted, [is_full] exactly
    when at least [capacity] items were, and a sample takes
    [min(batch_size, #inserted, capacity)] items. *)
Theorem er_queries_count_insertions (bs C : Z) (rb0 : ER.t A) (l : list A) :
  ER.init bs C = inr rb0 -> (0 < C)%Z ->
  exists rb,
    ER.store_all l rb0 = Returns tt rb
    /\ (ER.is_empty rb = true <-> l = [])
    /\ (ER.is_full rb = true <-> Z.to_nat C <= length l)
    /\ ER.n_sample rb
       = Nat.min (Z.to_nat bs) (Nat.min (length l) (Z.to_nat C)).
Proof.
  intros Hinit HC.
  assert (Hbs : (0 <= bs)%Z).
  { unfold ER.init in Hinit. by destruct (Z.leb_spec 0 bs). }
  rewrite (init_fresh bs C Hbs ltac:(lia)) in Hinit. injection Hinit as <-.
  destruct (store_all_ring_inv (A:=A) (Z.to_nat bs) (Z.to_nat C) l ltac:(lia))
    as (rb & Hrun & [Hcap Hlen Hsz Hptr _] & Hbatch).
  exists rb. split; [exact Hrun|].
  unfold ER.is_empty, ER.is_full, ER.n_sample, ER.is_lg_batch_size.
  rewrite Hsz, Hcap, Hbatch. split; [|split].
  - rewrite Nat.eqb_eq. destruct l as [|y l]; [done|].
    cbn [length]. split; [lia|done].
  - rewrite Nat.eqb_eq. lia.
  - destruct (Nat.ltb_spec (Z.to_nat bs)
                (Nat.min (length l) (Z.to_nat C))); lia.
Qed.
End ExperienceReplayQueries.

(** ** [NStepWrapper]: the queues of the other agents *)

Section NStepFrame.
Context {B : Type} {SO : StoreOp B}.
Implicit Types (w : NS.t B) (q : list transition) (data : transition).

Lemma ns_frame_refl i w : ns_frame i w w.
Proof. by repeat split. Qed.

Lemma ns_frame_trans i w1 w2 w3 :
  ns_frame i w1 w2 -> ns_frame i w2 w3 -> ns_frame i w1 w3.
Proof.
  intros (H1 & H2 & H3 & H4 & H5) (G1 & G2 & G3 & G4 & G5).
  repeat split; try congruence. intros j Hj. rewrite G5, H5; done.
Qed.

Lemma keeps_ret i {T : Type} (x : T) : keeps (B:=B) i (mret x : py (NS.t B) T).
Proof. intros w. apply ns_frame_refl. Qed.

Lemma keeps_raise i {T : Type} e : keeps (B:=B) i (py_raise e : py (NS.t B) T).
Proof. intros w. apply ns_frame_refl. Qed.

Lemma keeps_bind i {T T' : Type} (m : py (NS.t B) T)
    (f : T -> py (NS.t B) T') :
  keeps (B:=B) i m -> (forall x, keeps (B:=B) i (f x)) -> keeps (B:=B) i (m ≫= f).
Proof.
  intros Hm Hf w. specialize (Hm w). py_unfold.
  destruct (m w) as [x w1|e w1]; simpl in *; [|done].
  eapply ns_frame_trans; [exact Hm|apply Hf].
Qed.

Lemma keeps_get_q i : keeps (B:=B) i (NS.get_q i).
Proof.
  intros w. unfold NS.get_q. destruct (NS.queue w !! i); apply ns_frame_refl.
Qed.

Lemma keeps_put_q i q : keeps (B:=B) i (NS.put_q i q).
Proof.
  intros w. unfold NS.put_q. simpl. repeat split; simpl; try done.
  - by rewrite length_insert.
  - intros j Hj. by rewrite list_lookup_insert_ne.
Qed.

Lemma keeps_store_op i data : keeps (B:=B) i (NS._store_op data).
Proof.
  intros w. unfold NS._store_op.
  destruct (buffer_store_op data (NS.buffer w)); by repeat split.
Qed.

Lemma keeps_append i data : keeps (B:=B) i (NS.append i data).
Proof.
  apply keeps_bind; [apply keeps_get_q|]. intros q. apply keeps_put_q.
Qed.

Lemma keeps_pop_first i : keeps (B:=B) i (NS.pop_first i).
Proof.
  apply keeps_bind; [apply keeps_get_q|]. intros [|x q]; [apply keeps_raise|].
  apply keeps_bind; [apply keeps_put_q|]. intros _. apply keeps_ret.
Qed.

Lemma keeps_pop_last i : keeps (B:=B) i (NS.pop_last i).
Proof.
  apply keeps_bind; [apply keeps_get_q|]. intros q.
  destruct (last q); [|apply keeps_raise].
  apply keeps_bind; [apply keeps_put_q|]. intros _. apply keeps_ret.
Qed.

Lemma keeps_flush fuel i : keeps (B:=B) i (NS.flush fuel i).
Proof.
  induction fuel as [|fuel IH]; simpl; [apply keeps_ret|].
  apply keeps_bind; [apply keeps_get_q|]. intros [|x q]; [apply keeps_ret|].
  apply keeps_bind; [apply keeps_pop_last|]. intros y.
  apply keeps_bind; [apply keeps_store_op|]. intros _. exact IH.
Qed.

Lemma per_store_frame i data w :
  ns_frame i w (state_of (NS._per_store i data w)).
Proof.
  unfold NS._per_store.
  generalize (NS.n w) (NS.gamma w). intros nn g. revert w.
  change (keeps (B:=B) i
    (q ← NS.get_q i;
     match last q with
     | None => NS.append i data
     | Some tail =>
         if ne_any (s_ tail) (s data)
            || ne_any (visual_s_ tail) (visual_s data)
         then
           (if length q =? nn
            then x ← NS.pop_first i; NS._store_op x
            else NS.clear i);;
           NS.append i data
         else
           (if length q =? nn
            then x ← NS.pop_first i; NS._store_op x
            else mret tt);;
           q ← NS.get_q i;
           let _len := length q in
           NS.put_q i (imap (NS.roll g _len data) q);;
           NS.append i data;;
           if done data
           then q ← NS.get_q i; NS.flush (length q) i
           else mret tt
     end)).
  apply keeps_bind; [apply keeps_get_q|]. intros q.
  destruct (last q) as [tail|]; [|apply keeps_append].
  assert (Hpop : keeps (B:=B) i (x ← NS.pop_first i; NS._store_op x)).
  { apply keeps_bind; [apply keeps_pop_first|]. intros x.
    apply keeps_store_op. }
  destruct (ne_any _ _ || ne_any _ _).
  - apply keeps_bind; [|intros _; apply keeps_append].
    destruct (length q =? nn); [exact Hpop|apply keeps_put_q].
  - apply keeps_bind.
    { destruct (length q =? nn); [exact Hpop|apply keeps_ret]. }
    intros _. apply keeps_bind; [apply keeps_get_q|]. intros q1. cbv zeta.
    apply keeps_bind; [apply keeps_put_q|]. intros _.
    apply keeps_bind; [apply keeps_append|]. intros _.
    destruct (done data); [|apply keeps_ret].
    apply keeps_bind; [apply keeps_get_q|]. intros q2. apply keeps_flush.
Qed.

(** X6: a call of [_per_store] for agent [i], whether it returns or
    raises, changes neither [n], [gamma], [agents_num] nor the number of
    queues, and leaves the queue of every other agent as it was. *)
Theorem per_store_leaves_other_agents_alone i data w :
  let w' := state_of (NS._per_store i data w) in
  NS.n w' = NS.n w /\ NS.gamma w' = NS.gamma w
  /\ NS.agents_num w' = NS.agents_num w
  /\ length (NS.queue w') = length (NS.queue w)
  /\ forall j, j <> i -> NS.queue w' !! j = NS.queue w !! j.
Proof. apply per_store_frame. Qed.

Lemma flush_shrinks fuel i : forall w q q',
  NS.queue w !! i = Some q ->
  NS.queue (state_of (NS.flush fuel i w)) !! i = Some q' ->
  length q' <= length q.
Proof.
  induction fuel as [|fuel IH]; intros w q q' Hq; simpl.
  - rewrite Hq. by intros [= <-].
  - assert (i < length (NS.queue w)) by (by eapply lookup_lt_Some).
    unfold NS.pop_last, NS._store_op, NS.get_q, NS.put_q. py_unfold.
    rewrite Hq. destruct q as [|x q0] using rev_ind.
    { simpl. rewrite Hq. by intros [= <-]. }
    clear IHq0.
    assert (Hne : forall (T : Type) (u v : T),
               match q0 ++ [x] with [] => u | _ :: _ => v end = v)
      by (intros; by destruct q0).
    rewrite Hne, Hq, last_snoc, removelast_last, length_app. cbn.
    destruct (buffer_store_op x (NS.buffer w)) as [[] b|e b]; cbn.
    + intros Hq'. eapply IH in Hq'; [|cbn; by rewrite list_lookup_insert_eq].
      lia.
    + rewrite list_lookup_insert_eq by done. intros [= <-]. lia.
Qed.

Lemma roll_append_bound i data (g : Q) w q q' bound :
  NS.queue w !! i = Some q -> length q < bound ->
  NS.queue (state_of
    ((q ← NS.get_q i;
      NS.put_q i (imap (NS.roll g (length q) data) q);;
      NS.append i data;;
      if done data then q ← NS.get_q i; NS.flush (length q) i else mret tt)
       w)) !! i = Some q' ->
  length q' <= bound.
Proof.
  intros Hq Hlen.
  assert (i < length (NS.queue w)) by (by eapply lookup_lt_Some).
  unfold NS.append, NS.get_q, NS.put_q. py_unfold.
  rewrite Hq. cbn. rewrite list_lookup_insert_eq by done. cbn.
  rewrite list_insert_insert_eq.
  destruct (done data); cbn.
  - rewrite list_lookup_insert_eq by done. intros Hq'.
    eapply flush_shrinks in Hq'; [|cbn; by rewrite list_lookup_insert_eq].
    rewrite length_app, length_imap in Hq'. simpl in Hq'. lia.
  - rewrite list_lookup_insert_eq by done. intros [= <-].
    rewrite length_app, length_imap. simpl. lia.
Qed.

Lemma per_store_queue_bound i data w q q' :
  1 <= NS.n w -> NS.queue w !! i = Some q -> length q <= NS.n w ->
  NS.queue (state_of (NS._per_store i data w)) !! i = Some q' ->
  length q' <= NS.n w.
Proof.
  intros Hn Hq Hlen.
  assert (Hi : i < length (NS.queue w)) by (by eapply lookup_lt_Some).
  unfold NS._per_store. unfold mbind at 1. unfold py_mbind, py_bind at 1.
  unfold NS.get_q at 1. rewrite Hq.
  destruct (last q) as [tail|] eqn:Hlast.
  2:{ apply last_None in Hlast as ->.
      unfold NS.append, NS.get_q, NS.put_q. py_unfold. rewrite Hq. cbn.
      rewrite list_lookup_insert_eq by done. intros [= <-]. simpl. lia. }
  destruct (ne_any _ _ || ne_any _ _).
  - unfold NS.append, NS.clear, NS.pop_first, NS._store_op, NS.get_q,
      NS.put_q. py_unfold.
    destruct (Nat.eqb_spec (length q) (NS.n w)) as [Heq|Hneq].
    + destruct q as [|x q0]; [done|]. rewrite Hq. cbn.
      destruct (buffer_store_op x (NS.buffer w)) as [[] b|e b]; cbn.
      * rewrite list_lookup_insert_eq by done. cbn.
        rewrite list_lookup_insert_eq by (by rewrite length_insert).
        intros [= <-]. rewrite length_app. simpl in *. lia.
      * rewrite list_lookup_insert_eq by done. intros [= <-].
        simpl in *. lia.
    + cbn. rewrite list_lookup_insert_eq by done. cbn.
      rewrite list_lookup_insert_eq by (by rewrite length_insert).
      intros [= <-]. simpl. lia.
  - unfold mbind at 1. unfold py_mbind, py_bind at 1.
    destruct (Nat.eqb_spec (length q) (NS.n w)) as [Heq|Hneq].
    + destruct q as [|x q0]; [done|].
      unfold mbind at 1. unfold py_mbind, py_bind at 1.
      rewrite (pop_first_cons w i x q0 Hq).
      unfold NS._store_op at 1. cbn [NS.buffer NS.set_queue with_queue].
      destruct (buffer_store_op x (NS.buffer w)) as [[] b|e b].
      * apply (roll_append_bound i data _ _ q0);
          [cbn; by rewrite list_lookup_insert_eq|simpl in *; lia].
      * cbn. rewrite list_lookup_insert_eq by done. intros [= <-].
        simpl in *. lia.
    + unfold mret at 1. unfold py_mret, py_ret at 1.
      apply (roll_append_bound i data _ _ q); [done|lia].
Qed.

Lemma per_store_within_n i data w :
  1 <= NS.n w ->
  Forall (fun q => length q <= NS.n w) (NS.queue w) ->
  Forall (fun q => length q <= NS.n w)
    (NS.queue (state_of (NS._per_store i data w))).
Proof.
  intros Hn Hall.
  destruct (per_store_frame i data w) as (Hn' & _ & _ & Hlen & Hother).
  apply Forall_lookup_2. intros j q' Hq'.
  destruct (decide (j = i)) as [->|Hj].
  - assert (is_Some (NS.queue w !! i)) as [q Hq].
    { apply lookup_lt_is_Some. rewrite <- Hlen. by eapply lookup_lt_Some. }
    eapply per_store_queue_bound; [done|exact Hq| |exact Hq'].
    by eapply (Forall_lookup_1 _ _ _ _ Hall).
  - rewrite Hother in Hq' by done.
    by eapply (Forall_lookup_1 _ _ _ _ Hall).
Qed.

Lemma per_store_from_within_n rows : forall i w,
  1 <= NS.n w ->
  Forall (fun q => length q <= NS.n w) (NS.queue w) ->
  let w' := state_of (NS.per_store_from i rows w) in
  NS.n w' = NS.n w /\ length (NS.queue w') = length (NS.queue w)
  /\ Forall (fun q => length q <= NS.n w) (NS.queue w').
Proof.
  induction rows as [|data rows IH]; intros i w Hn Hall; simpl; [done|].
  pose proof (per_store_within_n i data w Hn Hall) as Hall1.
  destruct (per_store_frame i data w) as (Hn1 & _ & _ & Hlen1 & _).
  py_unfold. destruct (NS._per_store i data w) as [[] w1|e w1]; simpl in *;
    [|done].
  rewrite <- Hn1 in Hall1.
  destruct (IH (S i) w1) as (? & ? & ?); [lia|done|].
  repeat split; try congruence. by rewrite <- Hn1.
Qed.

(** X7: whatever is passed to [add], call after call, on a wrapper made
    with [n >= 1]: no queue ever holds more than [n] entries, also when a
    call raised, and the number of queues stays [agents_num]. *)
Theorem nstep_queues_never_exceed_n (b : B) (g : Q) (n k : nat) calls :
  1 <= n ->
  let w' := state_of (feed calls (NS.init b g n k)) in
  NS.n w' = n /\ length (NS.queue w') = k
  /\ Forall (fun q => length q <= n) (NS.queue w').
Proof.
  intros Hn.
  assert (Hgen : forall w, NS.n w = n -> length (NS.queue w) = k ->
            Forall (fun q => length q <= n) (NS.queue w) ->
            let w' := state_of (feed calls w) in
            NS.n w' = n /\ length (NS.queue w') = k
            /\ Forall (fun q => length q <= n) (NS.queue w')).
  { induction calls as [|rows calls IH]; intros w H1 H2 H3; simpl; [done|].
    destruct (per_store_from_within_n rows 0 w) as (G1 & G2 & G3);
      [lia|by rewrite H1|].
    unfold NS.add. py_unfold.
    destruct (NS.per_store_from 0 rows w) as [[] w1|e w1]; simpl in *.
    - apply IH; [congruence|congruence|by rewrite <- H1].
    - repeat split; [congruence|congruence|by rewrite <- H1]. }
  apply Hgen; simpl; [done|apply length_replicate|].
  apply Forall_replicate. simpl. lia.
Qed.

End NStepFrame.

(** ** [NStepWrapper]: a stream without a break or an end *)

Lemma discounted_sum_snoc g k acc rest x :
  discounted_sum g k acc (rest ++ [x])
  = (discounted_sum g k acc rest + r x * g ^ Z.of_nat (k + length rest))%Q.
Proof.
  revert k acc. induction rest as [|y rest IH]; intros k acc; simpl.
  - by rewrite Nat.add_0_r.
  - by rewrite IH, Nat.add_succ_r.
Qed.

Lemma roll_entry g d rest x :
  NS.roll g (S (length rest)) x 0 (nstep_entry g d rest)
  = nstep_entry g d (rest ++ [x]).
Proof.
  unfold nstep_entry. rewrite last_snoc.
  destruct (last rest) as [z|] eqn:Hlast.
  - unfold NS.roll. simpl. by rewrite discounted_sum_snoc.
  - apply last_None in Hlast as ->. done.
Qed.

Lemma length_open_entries g ds : length (open_entries g ds) = length ds.
Proof. induction ds; simpl; congruence. Qed.

Lemma open_entries_snoc g q0 x :
  open_entries g (q0 ++ [x])
  = imap (NS.roll g (length (open_entries g q0)) x) (open_entries g q0) ++ [x].
Proof.
  rewrite length_open_entries.
  induction q0 as [|d q0 IH]; [done|]. simpl.
  by rewrite <- roll_entry, IH.
Qed.

Lemma open_entries_drop g k ds :
  drop k (open_entries g ds) = open_entries g (drop k ds).
Proof.
  revert k. induction ds as [|d ds IH]; intros [|k]; simpl; try done.
Qed.

Lemma chain_snoc ds x :
  chain (ds ++ [x])
  <-> chain ds /\ forall y, last ds = Some y -> continuous y x.
Proof.
  induction ds as [|d1 [|d2 ds] IH].
  - simpl. split; [done|]. done.
  - simpl. split.
    + intros [H _]. split; [done|]. by intros y [= <-].
    + intros [_ H]. split; [|done]. by apply H.
  - change (continuous d1 d2 /\ chain ((d2 :: ds) ++ [x])
            <-> (continuous d1 d2 /\ chain (d2 :: ds))
                /\ forall y, last (d2 :: ds) = Some y -> continuous y x).
    rewrite IH. tauto.
Qed.

Lemma windows_last n ds :
  ds <> [] -> 1 <= n ->
  windows n ds
  = windows n (removelast ds)
    ++ (if n <=? length ds then [drop (length ds - n) ds] else []).
Proof.
  intros Hne Hn.
  destruct (exists_last Hne) as (ds0 & y & ->).
  rewrite removelast_last. unfold windows. rewrite length_app. simpl.
  assert (Hpre : forall k, k + n <= length ds0 + 1 ->
            (fun t => take n (drop t (ds0 ++ [y]))) <$> seq 0 k
            = (fun t => take n (drop t ds0)) <$> seq 0 k).
  { intros k Hk. apply list_fmap_ext. intros j t Ht.
    apply lookup_seq in Ht as [-> Ht]. simpl.
    rewrite drop_app_le by lia. apply take_app_le.
    rewrite length_drop. lia. }
  destruct (Nat.leb_spec n (length ds0 + 1)) as [Hle|Hgt].
  - replace (length ds0 + 1 + 1 - n) with (S (length ds0 + 1 - n)) by lia.
    rewrite seq_S, fmap_app, Hpre by lia. simpl. f_equal. f_equal.
    apply take_ge. rewrite length_drop, length_app. simpl. lia.
  - replace (length ds0 + 1 + 1 - n) with 0 by lia.
    replace (length ds0 + 1 - n) with 0 by lia. done.
Qed.

Section NStepStreamFacts.
Context {B : Type} {SO : StoreOp B}.
Implicit Types (w : NS.t B) (q : list transition) (data : transition).

Lemma per_store_each_app i ds1 ds2 w :
  per_store_each i (ds1 ++ ds2) w
  = (per_store_each i ds1;; per_store_each i ds2) w.
Proof.
  revert w. induction ds1 as [|d ds1 IH]; intros w; simpl; [done|].
  py_unfold. destruct (NS._per_store i d w) as [[] w1|e w1]; [apply IH|done].
Qed.

(** A continuous transition that does not end the episode, met by a
    queue that is not full: the queued entries are rolled forward and
    the transition is appended. *)
Lemma per_store_continuous_short w i q tail data :
  NS.queue w !! i = Some q -> last q = Some tail ->
  continuous tail data -> done data = false -> length q <> NS.n w ->
  NS._per_store i data w
  = Returns tt
      (with_queue i (imap (NS.roll (NS.gamma w) (length q) data) q ++ [data])
         w).
Proof.
  intros Hq Hlast Hcont Hdone Hlen.
  assert (i < length (NS.queue w)) by (by eapply lookup_lt_Some).
  unfold NS._per_store, NS.append, NS.get_q, NS.put_q. py_unfold.
  rewrite Hq, Hlast, Hcont, Hdone.
  destruct (Nat.eqb_spec (length q) (NS.n w)); [done|]. cbn.
  rewrite Hq. cbn. rewrite list_lookup_insert_eq by done. cbn.
  unfold with_queue. by rewrite list_insert_insert_eq.
Qed.

(** The same with a full queue: the oldest entry is committed first. *)
Lemma per_store_continuous_full w i x q' tail data b' :
  NS.queue w !! i = Some (x :: q') -> last (x :: q') = Some tail ->
  continuous tail data -> done data = false ->
  length (x :: q') = NS.n w ->
  buffer_store_op x (NS.buffer w) = Returns tt b' ->
  NS._per_store i data w
  = Returns tt
      (NS.set_buffer b'
         (with_queue i
            (imap (NS.roll (NS.gamma w) (length q') data) q' ++ [data]) w)).
Proof.
  intros Hq Hlast Hcont Hdone Hlen Hst.
  assert (i < length (NS.queue w)) by (by eapply lookup_lt_Some).
  unfold NS._per_store, NS.append, NS.pop_first, NS._store_op, NS.get_q,
    NS.put_q. py_unfold.
  rewrite Hq, Hlast, Hcont, Hdone.
  destruct (Nat.eqb_spec (length (x :: q')) (NS.n w)); [|done]. cbn.
  rewrite Hq. cbn. rewrite Hst. cbn.
  rewrite list_lookup_insert_eq by done. cbn.
  rewrite list_lookup_insert_eq by (by rewrite length_insert). cbn.
  unfold with_queue, NS.set_buffer, NS.set_queue. cbn.
  by rewrite !list_insert_insert_eq.
Qed.

Lemma continuous_stream_run w i ds b' :
  1 <= NS.n w -> NS.queue w !! i = Some [] ->
  chain ds -> Forall (fun d => done d = false) ds ->
  commit_all
    (omap (window_entry (NS.gamma w)) (windows (NS.n w) (removelast ds)))
    (NS.buffer w) = Returns tt b' ->
  per_store_each i ds w
  = Returns tt
      (NS.set_buffer b'
         (with_queue i
            (open_entries (NS.gamma w) (drop (length ds - NS.n w) ds)) w)).
Proof.
  intros Hn Hq. revert b'.
  assert (Hi : i < length (NS.queue w)) by (by eapply lookup_lt_Some).
  induction ds as [|x ds IH] using rev_ind; intros b' Hchain Hdone Hc.
  { simpl in *. unfold windows in Hc. simpl in Hc.
    replace (1 - NS.n w) with 0 in Hc by lia. simpl in Hc.
    injection Hc as <-. unfold with_queue, NS.set_buffer, NS.set_queue.
    rewrite list_insert_id by done. by destruct w. }
  apply chain_snoc in Hchain as [Hchain Hlast].
  apply Forall_app in Hdone as [Hdone Hx].
  rewrite Forall_singleton in Hx.
  rewrite removelast_last in Hc. rewrite per_store_each_app.
  destruct (decide (ds = [])) as [->|Hne].
  { simpl. unfold windows in Hc. simpl in Hc.
    replace (1 - NS.n w) with 0 in * by lia. simpl in Hc.
    injection Hc as <-. py_unfold. rewrite (per_store_empty w i x Hq).
    by destruct w. }
  rewrite (windows_last _ _ Hne Hn), omap_app, commit_all_app in Hc.
  revert Hc. unfold mbind at 1. unfold py_mbind, py_bind at 1.
  destruct (commit_all _ (NS.buffer w)) as [[] b1|e b1] eqn:Hc1; [|done].
  intros Hc. specialize (IH b1 Hchain Hdone eq_refl).
  unfold mbind at 1. unfold py_mbind, py_bind at 1. rewrite IH. simpl.
  set (m := length ds) in *. set (n := NS.n w) in *. set (g := NS.gamma w) in *.
  set (w1 := NS.set_buffer b1 (with_queue i (open_entries g (drop (m - n) ds)) w)).
  assert (Hq1 : NS.queue w1 !! i = Some (open_entries g (drop (m - n) ds)))
    by (simpl; by rewrite list_lookup_insert_eq).
  destruct (exists_last Hne) as (ds0 & y & Hds).
  assert (Hm : m = length ds0 + 1)
    by (subst m; rewrite Hds, length_app; simpl; lia).
  assert (Hlast1 : last (open_entries g (drop (m - n) ds)) = Some y).
  { rewrite Hds, drop_app_le by lia. rewrite open_entries_snoc.
    apply last_snoc. }
  assert (Hcont : continuous y x)
    by (apply Hlast; rewrite Hds; apply last_snoc).
  rewrite length_app. cbn [length]. fold m.
  destruct (Nat.leb_spec n m) as [Hle|Hgt].
  - assert (Hlen : length (drop (m - n) ds) = n)
      by (rewrite length_drop; lia).
    destruct (drop (m - n) ds) as [|d rest] eqn:Hwin; [simpl in Hlen; lia|].
    simpl in Hc. revert Hc. py_unfold.
    destruct (buffer_store_op _ b1) as [[] b2|e b2] eqn:Hst; [|done].
    intros [= <-].
    cbn [open_entries] in Hq1, Hlast1.
    rewrite (per_store_continuous_full w1 i _ _ y x b2 Hq1 Hlast1 Hcont Hx);
      [|simpl; rewrite length_open_entries; simpl in Hlen; lia|done].
    replace (drop (m + 1 - n) (ds ++ [x])) with (rest ++ [x]).
    { rewrite open_entries_snoc.
      unfold w1, with_queue, NS.set_buffer, NS.set_queue. cbn.
      by rewrite list_insert_insert_eq. }
    rewrite drop_app_le by lia.
    replace (m + 1 - n) with (m - n + 1) by lia.
    by rewrite <- drop_drop, Hwin.
  - simpl in Hc. injection Hc as <-.
    replace (m - n) with 0 in * by lia. rewrite drop_0 in *. py_unfold.
    rewrite (per_store_continuous_short w1 i _ y x Hq1 Hlast1 Hcont Hx);
      [|subst w1; simpl; rewrite length_open_entries; lia].
    replace (m + 1 - n) with 0 by lia. rewrite drop_0, open_entries_snoc.
    unfold w1, with_queue, NS.set_buffer, NS.set_queue. cbn.
    by rewrite list_insert_insert_eq.
Qed.

(** X8: a stream of transitions of one agent, each starting where the
    one before it ended and none with [done] set, passed one by one to
    [_per_store] with [n >= 1] and an empty queue at the start: every
    window of [n] consecutive transitions that is followed by another
    transition has been committed to the wrapped buffer, in order, as
    one entry (state and action of its first transition, the discounted
    sum of its rewards, next state and [done] of its last), and the queue
    holds the entries of the last [min n (length ds)] transitions, each
    summed up to the end of the stream. *)
Theorem nstep_continuous_stream w i ds b' :
  1 <= NS.n w -> NS.queue w !! i = Some [] ->
  chain ds -> Forall (fun d => done d = false) ds ->
  commit_all
    (omap (window_entry (NS.gamma w)) (windows (NS.n w) (removelast ds)))
    (NS.buffer w) = Returns tt b' ->
  per_store_each i ds w
  = Returns tt
      (NS.set_buffer b'
         (with_queue i
            (open_entries (NS.gamma w) (drop (length ds - NS.n w) ds)) w)).
Proof. apply continuous_stream_run. Qed.

(** X9: a run of fewer than [n] transitions that is cut by a
    discontinuity before any of them had [done] set never reaches the
    wrapped buffer: after the transition that breaks the run, the queue
    holds that transition alone and the buffer is as it was. *)
Theorem nstep_short_run_is_lost w i ds y data :
  NS.queue w !! i = Some [] ->
  chain ds -> Forall (fun d => done d = false) ds ->
  last ds = Some y -> length ds < NS.n w -> ~ continuous y data ->
  per_store_each i (ds ++ [data]) w = Returns tt (with_queue i [data] w)
  /\ NS.buffer (with_queue i [data] w) = NS.buffer w.
Proof.
  intros Hq Hchain Hdone Hlast Hlen Hcut. split; [|done].
  assert (Hi : i < length (NS.queue w)) by (by eapply lookup_lt_Some).
  assert (Hne : ds <> []) by (by intros ->).
  destruct (exists_last Hne) as (ds0 & y' & Hds).
  assert (Hm : length ds = length ds0 + 1)
    by (rewrite Hds, length_app; simpl; lia).
  rewrite per_store_each_app.
  unfold mbind at 1. unfold py_mbind, py_bind at 1.
  rewrite (continuous_stream_run w i ds (NS.buffer w));
    [|lia|done|done|done|].
  2:{ rewrite Hds, removelast_last. unfold windows.
      replace (length ds0 + 1 - NS.n w) with 0 by lia. done. }
  replace (length ds - NS.n w) with 0 by lia. rewrite drop_0. simpl.
  py_unfold.
  set (w1 := NS.set_buffer (NS.buffer w)
               (with_queue i (open_entries (NS.gamma w) ds) w)).
  destruct (per_store_discontinuity_short w1 i
              (open_entries (NS.gamma w) ds) y data) as [-> _].
  - simpl. by rewrite list_lookup_insert_eq.
  - rewrite Hds, open_entries_snoc, last_snoc.
    rewrite Hds, last_snoc in Hlast. done.
  - done.
  - simpl. rewrite length_open_entries. lia.
  - unfold w1, with_queue, NS.set_buffer, NS.set_queue. cbn.
    by rewrite list_insert_insert_eq.
Qed.

End NStepStreamFacts.

(** ** [NStepExperienceReplay]: when [add] raises *)

Section NStepReturns.
Implicit Types (w : NS.t (ER.t transition)) (q : list transition)
  (data : transition).

Lemma commit_all_returns C xs : forall b : ER.t transition,
  written_inv C b ->
  exists b', commit_all xs b = Returns tt b' /\ written_inv C b'.
Proof.
  induction xs as [|x xs IH]; intros b Hinv; simpl; [by exists b|].
  destruct (written_inv_store (A:=transition) C b x Hinv)
    as (b1 & Hst & Hinv1 & _).
  destruct (IH b1 Hinv1) as (b' & Hrun & Hinv').
  exists b'. py_unfold. unfold buffer_store_op, ExperienceReplay_StoreOp.
  by rewrite Hst.
Qed.

Lemma per_store_terminal_returns C w i q tail data :
  NS.queue w !! i = Some q -> last q = Some tail ->
  continuous tail data -> done data = true ->
  written_inv C (NS.buffer w) ->
  exists b', NS._per_store i data w
             = Returns tt (NS.set_buffer b' (with_queue i [] w))
             /\ written_inv C b'.
Proof.
  intros Hq Hlast Hcont Hdone Hinv.
  assert (Hi : i < length (NS.queue w)) by (by eapply lookup_lt_Some).
  unfold NS._per_store. unfold mbind at 1. unfold py_mbind, py_bind at 1.
  unfold NS.get_q at 1. rewrite Hq, Hlast, Hcont.
  destruct (length q =? NS.n w).
  - destruct q as [|x q']; [done|].
    destruct (written_inv_store (A:=transition) C _ x Hinv)
      as (b1 & Hst & Hinv1 & _).
    destruct (commit_all_returns C
                (rev (imap (NS.roll (NS.gamma w) (length q') data) q'
                      ++ [data])) b1 Hinv1) as (b' & Hc & Hinv').
    exists b'. split; [|done].
    unfold mbind at 1. unfold py_mbind, py_bind at 1.
    unfold mbind at 1. unfold py_mbind, py_bind at 1.
    rewrite (pop_first_cons w i x q' Hq).
    unfold NS._store_op at 1. cbn [NS.buffer NS.set_queue with_queue].
    unfold buffer_store_op, ExperienceReplay_StoreOp. rewrite Hst.
    etrans; [apply (roll_append_flush i q' data (NS.gamma w) _ b')|].
    + cbn. by rewrite list_lookup_insert_eq.
    + done.
    + done.
    + unfold with_queue, NS.set_buffer, NS.set_queue. cbn.
      by rewrite list_insert_insert_eq.
  - destruct (commit_all_returns C
                (rev (imap (NS.roll (NS.gamma w) (length q) data) q
                      ++ [data])) _ Hinv) as (b' & Hc & Hinv').
    exists b'. split; [|done].
    unfold mbind at 1. unfold py_mbind, py_bind at 1.
    unfold mret at 1. unfold py_mret, py_ret at 1.
    exact (roll_append_flush i q data (NS.gamma w) w b' Hq Hdone Hc).
Qed.

Lemma per_store_returns C k w i data :
  written_inv C (NS.buffer w) -> length (NS.queue w) = k -> i < k ->
  exists w', NS._per_store i data w = Returns tt w'
             /\ written_inv C (NS.buffer w') /\ length (NS.queue w') = k.
Proof.
  intros Hinv Hk Hi.
  destruct (lookup_lt_is_Some_2 (NS.queue w) i ltac:(lia)) as [q Hq].
  assert (Hlen : forall q', length (NS.queue (with_queue i q' w)) = k)
    by (intros; simpl; by rewrite length_insert).
  destruct (last q) as [tail|] eqn:Hlast.
  2:{ apply last_None in Hlast as ->.
      rewrite (per_store_empty w i data Hq). eexists. split; [done|].
      split; [done|apply Hlen]. }
  destruct (ne_any (s_ tail) (s data)
            || ne_any (visual_s_ tail) (visual_s data)) eqn:Hc.
  - assert (Hcut : ~ continuous tail data)
      by (unfold continuous; by rewrite Hc).
    destruct (decide (length q = NS.n w)) as [Hfull|Hshort].
    + destruct q as [|x q']; [done|].
      destruct (written_inv_store (A:=transition) C _ x Hinv)
        as (b1 & Hst & Hinv1 & _).
      rewrite (per_store_discontinuity_full w i x q' tail data b1);
        try done.
      eexists. split; [done|]. split; [done|apply Hlen].
    + destruct (per_store_discontinuity_short w i q tail data) as [-> _];
        try done.
      eexists. split; [done|]. split; [done|apply Hlen].
  - destruct (done data) eqn:Hdone.
    + destruct (per_store_terminal_returns C w i q tail data)
        as (b' & -> & Hinv'); try done.
      eexists. split; [done|]. split; [done|apply Hlen].
    + destruct (decide (length q = NS.n w)) as [Hfull|Hshort].
      * destruct q as [|x q']; [done|].
        destruct (written_inv_store (A:=transition) C _ x Hinv)
          as (b1 & Hst & Hinv1 & _).
        rewrite (per_store_continuous_full w i x q' tail data b1);
          try done.
        eexists. split; [done|]. split; [done|apply Hlen].
      * rewrite (per_store_continuous_short w i q tail data); try done.
        eexists. split; [done|]. split; [done|apply Hlen].
Qed.

Lemma per_store_from_returns C k rows : forall i w,
  written_inv C (NS.buffer w) -> length (NS.queue w) = k ->
  i + length rows <= k ->
  exists w', NS.per_store_from i rows w = Returns tt w'
             /\ written_inv C (NS.buffer w') /\ length (NS.queue w') = k.
Proof.
  induction rows as [|data rows IH]; intros i w Hinv Hk Hi; simpl in *.
  { by exists w. }
  destruct (per_store_returns C k w i data Hinv Hk ltac:(lia))
    as (w1 & Hst & Hinv1 & Hk1).
  destruct (IH (S i) w1 Hinv1 Hk1 ltac:(lia)) as (w' & Hrun & ? & ?).
  exists w'. py_unfold. by rewrite Hst.
Qed.

Lemma per_store_from_app (rows1 rows2 : list transition) : forall i w,
  NS.per_store_from i (rows1 ++ rows2) w
  = (NS.per_store_from i rows1;;
     NS.per_store_from (i + length rows1) rows2) w.
Proof.
  induction rows1 as [|d rows1 IH]; intros i w; simpl.
  { by rewrite Nat.add_0_r. }
  py_unfold. destruct (NS._per_store i d w) as [[] w1|e w1]; [|done].
  rewrite IH. py_unfold. by rewrite Nat.add_succ_r.
Qed.

(** X10: on an [NStepExperienceReplay] built with a positive capacity
    and [agents_num] queues, a call of [add] with at most [agents_num]
    transitions returns, whatever calls of that kind came before; a call
    with more transitions processes the first [agents_num] of them and
    then raises [IndexError]. *)
Theorem nstep_add_raises_only_for_too_many_rows (bs C : Z) (g : Q)
    (n k : nat) w0 (calls : list (list transition)) (rows : list transition) :
  NStepExperienceReplay bs C g n k = inr w0 -> (0 < C)%Z ->
  Forall (fun rows => length rows <= k) calls ->
  exists w,
    feed calls w0 = Returns tt w
    /\ (length rows <= k -> exists w', NS.add rows w = Returns tt w')
    /\ (k < length rows ->
        exists w', NS.add (take k rows) w = Returns tt w'
                   /\ NS.add rows w = Raises IndexError w').
Proof.
  intros Hinit HC Hcalls. unfold NStepExperienceReplay in Hinit.
  destruct (ER.init bs C) as [e|rb0] eqn:Hrb; [done|].
  injection Hinit as <-.
  destruct (written_inv_init (A:=transition) bs C rb0 Hrb HC) as [Hinv0 _].
  assert (Hrun : forall w, written_inv (Z.to_nat C) (NS.buffer w) ->
            length (NS.queue w) = k ->
            exists w', feed calls w = Returns tt w'
                       /\ written_inv (Z.to_nat C) (NS.buffer w')
                       /\ length (NS.queue w') = k).
  { induction Hcalls as [|rows0 calls Hrows _ IH]; intros w Hinv Hk; simpl.
    { by exists w. }
    destruct (per_store_from_returns _ k rows0 0 w Hinv Hk ltac:(lia))
      as (w1 & Hst & Hinv1 & Hk1).
    destruct (IH w1 Hinv1 Hk1) as (w' & Hfeed & ? & ?).
    exists w'. unfold NS.add. py_unfold. by rewrite Hst. }
  destruct (Hrun (NS.init rb0 g n k) Hinv0) as (w & Hfeed & Hinv & Hk).
  { simpl. apply length_replicate. }
  exists w. split; [exact Hfeed|]. split.
  - intros Hrows.
    destruct (per_store_from_returns _ k rows 0 w Hinv Hk ltac:(lia))
      as (w' & Hst & _).
    by exists w'.
  - intros Hrows.
    destruct (per_store_from_returns _ k (take k rows) 0 w Hinv Hk)
      as (w' & Hst & _ & Hk').
    { rewrite length_take. lia. }
    exists w'. split; [exact Hst|]. unfold NS.add.
    rewrite <- (take_drop k rows) at 1. rewrite per_store_from_app.
    py_unfold. rewrite Hst.
    destruct (drop k rows) as [|d rest] eqn:Hdrop.
    { apply (f_equal length) in Hdrop. rewrite length_drop in Hdrop.
      simpl in Hdrop. lia. }
    simpl. unfold NS._per_store, NS.get_q. py_unfold.
    rewrite lookup_ge_None_2; [done|]. rewrite length_take. lia.
Qed.
End NStepReturns.

(** Two agents; a call with three transitions. *)
Lemma nstep_add_raises_only_for_too_many_rows_witness :
  exists w0 w',
    NStepExperienceReplay 32 10 (9 # 10) 3 2 = inr w0
    /\ NS.add [step_t 0 1 false; step_t 5 1 false; step_t 9 1 false] w0
       = Raises IndexError w'.
Proof.
  destruct (nstep_add_raises_only_for_too_many_rows 32 10 (9 # 10) 3 2
              (NS.init (fresh (A:=transition) 32 10) (9 # 10) 3 2) []
              [step_t 0 1 false; step_t 5 1 false; step_t 9 1 false]
              eq_refl eq_refl ltac:(constructor))
    as (w & Hfeed & _ & Hraise).
  injection Hfeed as <-.
  destruct (Hraise ltac:(simpl; lia)) as (w' & _ & Hadd).
  exists (NS.init (fresh (A:=transition) 32 10) (9 # 10) 3 2), w'.
  split; [reflexivity|exact Hadd].
Defined.

(** ** [PrioritizedExperienceReplay]: bookkeeping and failures of [update] *)

Section PERBookFacts.
Context {D : Type}.
Local Open Scope R_scope.
Implicit Types (b : PER.t D).

Lemma foldr_Rmax_ge y (l : list R) :
  y <= foldr Rmax y l /\ Forall (fun x => x <= foldr Rmax y l) l.
Proof.
  induction l as [|z l [IH1 IH2]]; simpl; [split; [lra|constructor]|].
  pose proof (Rmax_r z (foldr Rmax y l)).
  split; [lra|]. constructor; [apply Rmax_l|].
  eapply Forall_impl; [exact IH2|]. simpl. intros x Hx. lra.
Qed.

Lemma array_min_max_bounds (l : list R) lo hi :
  array_min l = Some lo -> array_max l = Some hi ->
  Forall (fun x => lo <= x <= hi) l /\ lo <= hi.
Proof.
  destruct l as [|y l]; simpl; [done|]. intros [= <-] [= <-].
  destruct (foldr_Rmin_le y l) as [H1 H2].
  destruct (foldr_Rmax_ge y l) as [G1 G2].
  split; [|lra]. constructor; [lra|].
  apply Forall_forall. intros x Hx.
  rewrite Forall_forall in H2, G2. split; [by apply H2|by apply G2].
Qed.

Lemma update_returns priority index b b' :
  PER.update priority index b = Returns tt b' ->
  exists idxs lo hi,
    match index with Some i => Some i | None => PER.last_indexs b end
      = Some idxs
    /\ length priority = length idxs
    /\ array_min (PER.to_priority b <$> priority) = Some lo
    /\ array_max (PER.to_priority b <$> priority) = Some hi
    /\ PER.min_p b' = Rmin (PER.min_p b) lo
    /\ PER.max_p b' = Rmax (PER.max_p b) hi
    /\ PER._size b' = PER._size b /\ PER.capacity b' = PER.capacity b
    /\ PER.batch_size b' = PER.batch_size b /\ PER.alpha b' = PER.alpha b
    /\ PER.epsilon b' = PER.epsilon b /\ PER.global_v b' = PER.global_v b.
Proof.
  unfold PER.update.
  destruct (match index with Some i => Some i | None => PER.last_indexs b end)
    as [idxs|]; [|done].
  destruct (Nat.eqb_spec (length priority) (length idxs)); simpl; [|done].
  change (PER.to_priority (PER.set_beta _ b)) with (PER.to_priority b).
  destruct (array_min _) as [lo|]; [|done].
  destruct (array_max _) as [hi|]; [|done].
  intros [= <-]. by exists idxs, lo, hi.
Qed.

Lemma exec_book C bs al eps gv (o : op) b :
  per_book C bs al eps gv b -> per_book C bs al eps gv (exec o b).
Proof.
  intros [HC Hbs Hal Heps Hgv Hsz Hmax Hmm].
  destruct o as [d|ds|tds ds|ps ri|pr idx|]; simpl.
  - unfold PER._store_op; simpl.
    destruct (Nat.ltb_spec (PER._size b) (PER.capacity b)); split; simpl;
      try done; lia.
  - split; simpl; try done. lia.
  - split; simpl; try done. lia.
  - unfold PER.sample.
    destruct (Sum_Tree.get_batch_parallel ps (PER.tree b))
      as [[[idxs didx] p] data].
    destruct (PER.min_ref _ p); by split.
  - destruct (PER.update pr idx b) as [[] b'|e b'] eqn:Hupd.
    + apply update_returns in Hupd
        as (idxs & lo & hi & _ & _ & Hlo & Hhi & Hmin' & Hmax' & ? & ? & ?
            & ? & ? & ?).
      destruct (array_min_max_bounds _ _ _ Hlo Hhi) as [_ Hle].
      simpl. split; try congruence.
      * rewrite Hmax'. pose proof (Rmax_l (PER.max_p b) hi). lra.
      * right. rewrite Hmin', Hmax'.
        pose proof (Rmin_r (PER.min_p b) lo).
        pose proof (Rmax_r (PER.max_p b) hi). lra.
    + simpl. revert Hupd. unfold PER.update.
      destruct (match idx with Some i => Some i | None => PER.last_indexs b
                end) as [idxs|]; [|by intros [= _ <-]].
      destruct (negb _); [by intros [= _ <-]|]. simpl.
      destruct (array_min _); [destruct (array_max _)|];
        intros [= _ <-]; by split.
  - split; simpl; try done; [lia|rewrite Heps, Hal; lra|by left].
Qed.

Lemma init_book (bs C T : Z) al beta0 eps gv b0 :
  PER.init bs C T al beta0 eps gv = inr b0 ->
  per_book (Z.to_nat C) (Z.to_nat bs) al eps gv b0
  /\ PER.last_indexs b0 = None.
Proof.
  unfold PER.init. destruct (Rlt_dec 0 eps); [|done].
  destruct (Z.leb_spec 0 bs); simpl; [|done].
  destruct (Z.leb_spec 0 C); simpl; [|done].
  destruct (Z.eqb_spec T 0); [done|]. intros [= <-].
  split; [|done]. split; simpl; first [done|lia|lra|by left].
Qed.

Lemma run_book C bs al eps gv (ops : list op) b :
  per_book C bs al eps gv b -> per_book C bs al eps gv (run ops b).
Proof.
  revert b. induction ops as [|o ops IH]; intros b Hb; simpl; [done|].
  apply IH. by apply exec_book.
Qed.

(** X11: on a buffer returned by the constructor, after any calls of
    [_store_op], [add_batch], [apex_add_batch], [sample], [update] and
    [reset], returning or raising: [capacity], [batch_size], [alpha],
    [epsilon] and [global_v] are those passed in, [_size] is at most
    [capacity], [max_p] is at least [epsilon ** alpha] (and so
    positive), and [min_p] is either still [sys.maxsize] or at most
    [max_p]. *)
Theorem per_bookkeeping (bs C T : Z) al beta0 eps gv b0 (ops : list op) :
  PER.init bs C T al beta0 eps gv = inr b0 ->
  let b := run ops b0 in
  PER.capacity b = Z.to_nat C /\ PER.batch_size b = Z.to_nat bs
  /\ PER.alpha b = al /\ PER.epsilon b = eps /\ PER.global_v b = gv
  /\ (PER._size b <= PER.capacity b)%nat
  /\ Rpower eps al <= PER.max_p b /\ 0 < PER.max_p b
  /\ (PER.min_p b = sys_maxsize \/ PER.min_p b <= PER.max_p b).
Proof.
  intros Hinit b. apply init_book in Hinit as [Hbook _].
  destruct (run_book _ _ _ _ _ ops b0 Hbook) as [? ? ? ? ? ? Hmax ?].
  subst b. pose proof (Rpower_pos eps al).
  repeat split; try done; [lia|lra].
Qed.

(** X12: when [update] returns, the priorities it has computed,
    [(|x| + epsilon) ** alpha] for the values [x] passed in, are not
    empty and all lie between the new [min_p] and the new [max_p];
    [min_p] has not grown and [max_p] has not shrunk; and with
    [epsilon > 0] and [alpha >= 0] none of them is below
    [epsilon ** alpha]. *)
Theorem update_priorities_within_bounds priority index b b' :
  PER.update priority index b = Returns tt b' ->
  let new := PER.to_priority b <$> priority in
  priority <> []
  /\ Forall (fun p => PER.min_p b' <= p <= PER.max_p b') new
  /\ PER.min_p b' <= PER.min_p b /\ PER.max_p b <= PER.max_p b'
  /\ (0 < PER.epsilon b -> 0 <= PER.alpha b ->
      Forall (fun p => Rpower (PER.epsilon b) (PER.alpha b) <= p) new).
Proof.
  intros Hupd new.
  apply update_returns in Hupd
    as (idxs & lo & hi & _ & _ & Hlo & Hhi & Hmin' & Hmax' & _).
  fold new in Hlo, Hhi.
  destruct (array_min_max_bounds _ _ _ Hlo Hhi) as [Hall _].
  pose proof (Rmin_l (PER.min_p b) lo). pose proof (Rmin_r (PER.min_p b) lo).
  pose proof (Rmax_l (PER.max_p b) hi). pose proof (Rmax_r (PER.max_p b) hi).
  split; [|split; [|split; [|split]]].
  - intros ->. done.
  - eapply Forall_impl; [exact Hall|]. simpl. intros p Hp.
    rewrite Hmin', Hmax'. lra.
  - rewrite Hmin'. lra.
  - rewrite Hmax'. lra.
  - intros Heps Hal. apply Forall_fmap, Forall_true. intros x.
    unfold PER.to_priority. apply Rle_Rpower_l; [done|].
    pose proof (Rabs_pos x). lra.
Qed.

Lemma run_no_sample (ops : list op) b :
  Forall (fun o => is_sample o = false) ops ->
  PER.last_indexs (run ops b) = PER.last_indexs b.
Proof.
  intros Hops. revert b.
  induction Hops as [|o ops Ho _ IH]; intros b; simpl; [done|].
  rewrite IH. clear IH.
  destruct o as [d|ds|tds ds|ps ri|pr idx|]; simpl; try done.
  - unfold PER._store_op; simpl. by destruct (_ <? _)%nat.
  - unfold PER.update.
    destruct (match idx with Some i => Some i | None => PER.last_indexs b
              end) as [idxs|]; [|done].
    destruct (negb _); [done|]. simpl.
    by destruct (array_min _); [destruct (array_max _)|].
Qed.

(** X13: the three ways [update] fails.  On a buffer that has not been
    sampled since its construction, [update] without an index raises
    [AttributeError] and changes nothing.  Priorities and indices of
    different lengths raise [AssertionError] and change nothing.  Empty
    priorities with empty indices raise [ValueError] after [beta] has
    already been advanced. *)
Theorem update_failure_modes (bs C T : Z) al beta0 eps gv b0 (ops : list op) :
  PER.init bs C T al beta0 eps gv = inr b0 ->
  let b := run ops b0 in
  (Forall (fun o => is_sample o = false) ops ->
   forall priority, PER.update priority None b = Raises AttributeError b)
  /\ (forall priority idxs, length priority <> length idxs ->
      PER.update priority (Some idxs) b = Raises AssertionError b)
  /\ PER.update [] (Some []) b
     = Raises ValueError
         (PER.set_beta (Rmin (PER.beta b + PER.beta_interval b) 1) b).
Proof.
  intros Hinit b. apply init_book in Hinit as [_ Hlast].
  split; [|split].
  - intros Hops priority. unfold PER.update.
    subst b. by rewrite run_no_sample, Hlast.
  - intros priority idxs Hlen. unfold PER.update.
    by destruct (Nat.eqb_spec (length priority) (length idxs)).
  - done.
Qed.
End PERBookFacts.

(** ** [EpisodeExperienceReplay]: whole episodes *)

Lemma eer_store_op_stored traj (b : EER.t) :
  EER._data_pointer b < length (EER._buffer b) ->
  EER._store_op traj b = Returns tt (stored traj b).
Proof.
  intros Hp. unfold EER._store_op.
  by destruct (Nat.ltb_spec (EER._data_pointer b) (length (EER._buffer b)));
    [|lia].
Qed.

(** Writing a trajectory into the slot array is the store of an
    [ExperienceReplay]. *)
Lemma slot_store_stored traj (b : EER.t) :
  EER._data_pointer b < length (EER._buffer b) ->
  ER._store_op traj (slot_store b) = Returns tt (slot_store (stored traj b)).
Proof.
  intros Hp. unfold ER._store_op. simpl.
  destruct (Nat.ltb_spec (EER._data_pointer b) (length (EER._buffer b)));
    [|lia].
  f_equal. destruct b as [bs C sz k bi tr ts qs ptr buf st].
  unfold stored, slot_store, ER.update_rb_after_add, EER.update_rb_after_add,
    ER.set_data_pointer, ER.set_size, ER.set_buffer, EER.set_store. simpl.
  destruct (C <=? ptr + 1); simpl; by destruct (sz <? C).
Qed.

Lemma stored_set_queue traj qs (b : EER.t) :
  stored traj (EER.set_queue qs b) = EER.set_queue qs (stored traj b).
Proof. done. Qed.

Lemma eer_feed_app i l1 l2 (b : EER.t) :
  eer_feed i (l1 ++ l2) b = (eer_feed i l1;; eer_feed i l2) b.
Proof.
  revert b. induction l1 as [|d l1 IH]; intros b; simpl; [done|].
  py_unfold. destruct (EER._per_store i d b) as [[] b1|e b1]; [apply IH|done].
Qed.

Lemma eer_per_store_first i data (b : EER.t) :
  EER.queue b !! i = Some [] ->
  EER._per_store i data b
  = Returns tt (EER.set_queue (<[i := [data]]> (EER.queue b)) b).
Proof. intros Hq. unfold EER._per_store. by rewrite Hq. Qed.

Lemma eer_per_store_open i q tail data (b : EER.t) :
  EER.queue b !! i = Some q -> last q = Some tail ->
  ep_next tail data false ->
  EER._per_store i data b
  = Returns tt (EER.set_queue (<[i := q ++ [data]]> (EER.queue b)) b).
Proof.
  intros Hq Hlast (t4 & d0 & t5 & d1 & v & H4 & H0 & Hs & H5 & H1 & Hv
                   & H6 & Hd).
  unfold EER._per_store, EER.discontinuous, EER.item, EER.truth, EER.put_q.
  py_unfold. by rewrite Hq, Hlast, H4, H0, Hs, H5, H1, Hv, H6, Hd.
Qed.

Lemma eer_per_store_close i q tail data (b : EER.t) :
  EER.queue b !! i = Some q -> last q = Some tail ->
  ep_next tail data true ->
  EER._data_pointer b < length (EER._buffer b) ->
  EER._per_store i data b
  = Returns tt
      (EER.set_queue (<[i := []]> (EER.queue b)) (stored (q ++ [data]) b)).
Proof.
  intros Hq Hlast (t4 & d0 & t5 & d1 & v & H4 & H0 & Hs & H5 & H1 & Hv
                   & H6 & Hd) Hp.
  unfold EER._per_store, EER.discontinuous, EER.item, EER.truth, EER.put_q.
  py_unfold. rewrite Hq, Hlast, H4, H0, Hs, H5, H1, Hv, H6, Hd.
  rewrite eer_store_op_stored by done.
  destruct b as [bs C sz k bi tr ts qs ptr buf st].
  unfold stored, EER.set_queue, EER.update_rb_after_add, EER.set_store.
  simpl. by rewrite list_insert_insert_eq.
Qed.

Lemma closes_feed i rest : forall q tail (b : EER.t),
  EER.queue b !! i = Some q -> last q = Some tail -> closes tail rest ->
  EER._data_pointer b < length (EER._buffer b) ->
  eer_feed i rest b
  = Returns tt
      (EER.set_queue (<[i := []]> (EER.queue b)) (stored (q ++ rest) b)).
Proof.
  induction rest as [|data rest IH]; intros q tail b Hq Hlast Hcl Hp;
    [done|].
  assert (Hi : i < length (EER.queue b)) by (by eapply lookup_lt_Some).
  destruct rest as [|d2 rest].
  - simpl in *. py_unfold.
    by rewrite (eer_per_store_close i q tail data b Hq Hlast Hcl Hp).
  - destruct Hcl as [Hnext Hcl].
    change (eer_feed i (data :: d2 :: rest) b)
      with ((EER._per_store i data;; eer_feed i (d2 :: rest)) b).
    py_unfold. rewrite (eer_per_store_open i q tail data b Hq Hlast Hnext).
    rewrite (IH (q ++ [data]) data); [| |apply last_snoc|done|done].
    + rewrite stored_set_queue, <- app_assoc.
      destruct b as [bs C sz k bi tr ts qs ptr buf st].
      unfold stored, EER.set_queue, EER.update_rb_after_add, EER.set_store.
      simpl. by rewrite list_insert_insert_eq.
    + simpl. by rewrite list_lookup_insert_eq.
Qed.

Lemma episode_feed i ep (b : EER.t) :
  EER.queue b !! i = Some [] -> episode ep ->
  EER._data_pointer b < length (EER._buffer b) ->
  eer_feed i ep b = Returns tt (stored ep b).
Proof.
  intros Hq Hep Hp. destruct ep as [|first rest]; [done|].
  assert (Hi : i < length (EER.queue b)) by (by eapply lookup_lt_Some).
  change (eer_feed i (first :: rest) b)
    with ((EER._per_store i first;; eer_feed i rest) b).
  py_unfold. rewrite (eer_per_store_first i first b Hq).
  rewrite (closes_feed i rest [first] first); [|simpl|done|done|done].
  - rewrite stored_set_queue.
    destruct b as [bs C sz k bi tr ts qs ptr buf st].
    unfold stored, EER.set_queue, EER.update_rb_after_add, EER.set_store.
    simpl in *. by rewrite list_insert_insert_eq, list_insert_id.
  - by rewrite list_lookup_insert_eq.
Qed.

Lemma episodes_feed C i eps : forall l (b : EER.t),
  0 < C -> ring_inv C l (slot_store b) -> EER.queue b !! i = Some [] ->
  Forall episode eps ->
  exists b', eer_feed i (concat eps) b = Returns tt b'
             /\ ring_inv C (l ++ eps) (slot_store b')
             /\ EER.queue b' = EER.queue b.
Proof.
  induction eps as [|ep eps IH]; intros l b HC Hinv Hq Heps.
  - exists b. by rewrite app_nil_r.
  - inversion Heps as [|? ? Hep Heps']; subst.
    assert (Hp : EER._data_pointer b < length (EER._buffer b)).
    { destruct Hinv as [_ Hlen _ Hptr _]. simpl in *.
      rewrite Hlen, Hptr. apply Nat.mod_upper_bound. lia. }
    destruct (ring_inv_store C l (slot_store b) ep HC Hinv)
      as (rb' & Hst & Hinv' & _).
    rewrite (slot_store_stored ep b Hp) in Hst. injection Hst as <-.
    destruct (IH (l ++ [ep]) (stored ep b) HC Hinv') as (b' & Hrun & ? & ?);
      [done|done|].
    exists b'. simpl. rewrite eer_feed_app. py_unfold.
    rewrite (episode_feed i ep b Hq Hep Hp), Hrun.
    split; [done|]. split; [by rewrite <- app_assoc in *|done].
Qed.

(** X14: the episodes of one agent, each of at least two steps that
    follow one another and end with [done] (the [done] field of the first
    step of an episode is not looked at), passed step by step to
    [_per_store] on a buffer built with a positive capacity: every
    episode is stored as one trajectory, the queue is empty again, the
    size is [min(#episodes, capacity)], and the slots read from the
    cursor on hold the last [capacity] episodes, oldest first. *)
Theorem episodes_are_stored_whole (bs C : Z) (k burn train i : nat) b0
    (eps : list (list (list ndarray))) :
  EER.init bs C k burn train = inr b0 -> (0 < C)%Z -> i < k ->
  Forall episode eps ->
  exists b,
    eer_feed i (concat eps) b0 = Returns tt b
    /\ EER.queue b = replicate k []
    /\ EER._size b = Nat.min (length eps) (Z.to_nat C)
    /\ EER._data_pointer b = length eps mod Z.to_nat C
    /\ drop (EER._data_pointer b) (EER._buffer b)
         ++ take (EER._data_pointer b) (EER._buffer b)
       = replicate (Z.to_nat C - length eps) None
           ++ (Some <$> drop (length eps - Z.to_nat C) eps).
Proof.
  intros Hinit HC Hi Heps. unfold EER.init in Hinit.
  destruct (0 <=? bs)%Z; simpl in Hinit; [|done].
  destruct (Z.leb_spec 0 C); simpl in Hinit; [|lia].
  injection Hinit as <-.
  edestruct (episodes_feed (Z.to_nat C) i eps []) as (b & Hrun & Hinv & Hqs);
    [| |..|exists b; split; [exact Hrun|]].
  - lia.
  - apply (ring_inv_fresh (Z.to_nat bs) (Z.to_nat C)). lia.
  - simpl. by apply lookup_replicate_2.
  - done.
  - destruct Hinv as [_ _ Hsz Hptr Hslots]. simpl in *. done.
Qed.

(** ** [EpisodeExperienceReplay]: what calls of [add] maintain *)

Lemma eer_frame_refl (b : EER.t) : eer_frame b b.
Proof. split; [by exists []|done]. Qed.

Lemma eer_frame_trans (b1 b2 b3 : EER.t) :
  eer_frame b1 b2 -> eer_frame b2 b3 -> eer_frame b1 b3.
Proof.
  intros ([ops1 Hops1] & ? & ? & ? & ? & ? & ?)
         ([ops2 Hops2] & ? & ? & ? & ? & ? & ?).
  split; [|repeat split; congruence].
  exists (ops1 ++ ops2). unfold er_run in *. by rewrite foldl_app, <- Hops1.
Qed.

Lemma eer_frame_set_queue i q (b : EER.t) :
  eer_frame b (EER.set_queue (<[i := q]> (EER.queue b)) b).
Proof.
  split; [by exists []|]. simpl. by rewrite length_insert.
Qed.

Lemma eer_frame_store_op traj (b : EER.t) :
  eer_frame b (state_of (EER._store_op traj b)).
Proof.
  split; [exists [ErStore traj]|].
  - simpl. unfold EER._store_op, ER._store_op. simpl.
    destruct (Nat.ltb_spec (EER._data_pointer b) (length (EER._buffer b)))
      as [Hp|Hp]; [|done].
    pose proof (slot_store_stored traj b Hp) as Hst.
    unfold ER._store_op in Hst. simpl in Hst.
    destruct (Nat.ltb_spec (EER._data_pointer b) (length (EER._buffer b)));
      [|lia].
    by injection Hst as ->.
  - unfold EER._store_op. by destruct (_ <? _).
Qed.

Lemma eer_frame_per_store i data (b : EER.t) :
  eer_frame b (state_of (EER._per_store i data b)).
Proof.
  assert (Hcut : forall q q' b1, eer_frame b b1 ->
    eer_frame b
      (state_of
         (match EER._store_op q b1 with
          | Returns _ s' =>
              Returns tt (EER.set_queue (<[i:=q']> (EER.queue s')) s')
          | Raises e s' => Raises e s'
          end))).
  { intros q q' b1 H1. pose proof (eer_frame_store_op q b1) as H2.
    destruct (EER._store_op q b1) as [[] s'|e s']; simpl in *.
    - eapply eer_frame_trans; [exact H1|].
      eapply eer_frame_trans; [exact H2|apply eer_frame_set_queue].
    - eapply eer_frame_trans; [exact H1|exact H2]. }
  unfold EER._per_store.
  destruct (EER.queue b !! i) as [q|]; [|apply eer_frame_refl].
  destruct (last q) as [tail|] eqn:Hlast; [|apply eer_frame_set_queue].
  unfold EER.discontinuous, EER.item, EER.truth, EER.put_q. py_unfold.
  destruct (tail !! 4); [|apply eer_frame_refl].
  destruct (data !! 0); [|apply eer_frame_refl].
  destruct (ne_any _ _); [apply Hcut, eer_frame_refl|].
  destruct (tail !! 5); [|apply eer_frame_refl].
  destruct (data !! 1); [|apply eer_frame_refl].
  destruct (ne_any _ _); [apply Hcut, eer_frame_refl|].
  destruct (data !! 6) as [[|v [|]]|]; try apply eer_frame_refl.
  destruct (negb _); [|apply eer_frame_set_queue]. cbn.
  apply (Hcut (q ++ [data]) []
           (EER.set_queue (<[i:=q ++ [data]]> (EER.queue b)) b)).
  apply eer_frame_set_queue.
Qed.

Lemma eer_frame_add rows : forall i (b : EER.t),
  eer_frame b (state_of (EER.per_store_from i rows b))
  /\ (Forall (fun slot => slot <> Some []) (EER._buffer b) ->
      Forall (fun slot => slot <> Some [])
        (EER._buffer (state_of (EER.per_store_from i rows b)))).
Proof.
  induction rows as [|data rows IH]; intros i b; simpl.
  { split; [apply eer_frame_refl|done]. }
  pose proof (eer_frame_per_store i data b) as H1.
  pose proof (per_store_nonempty i data b) as H2.
  py_unfold. destruct (EER._per_store i data b) as [[] b1|e b1];
    simpl in *; [|done].
  destruct (IH (S i) b1) as [G1 G2].
  split; [by eapply eer_frame_trans|]. intros H. by apply G2, H2.
Qed.

Lemma eer_frame_run calls : forall b : EER.t,
  eer_frame b (eer_run calls b)
  /\ (Forall (fun slot => slot <> Some []) (EER._buffer b) ->
      Forall (fun slot => slot <> Some []) (EER._buffer (eer_run calls b))).
Proof.
  induction calls as [|rows calls IH]; intros b; simpl.
  { split; [apply eer_frame_refl|done]. }
  destruct (eer_frame_add rows 0 b) as [H1 H2].
  destruct (IH (state_of (EER.add rows b))) as [G1 G2].
  split; [by eapply eer_frame_trans|]. intros H. by apply G2, H2.
Qed.

(** X15: on a buffer built with a positive capacity, after any calls of
    [add], returning or raising: there are still [agents_num] queues,
    [timestep] is [burn_in_time_step + train_time_step], the size is
    within the capacity, every live slot holds a trajectory and none of
    these is empty; and since no call of [add] sets the burn-in states,
    [get_burn_in_states] raises [AttributeError]. *)
Theorem eer_adds_keep_live_slots_filled (bs C : Z) (k burn train : nat) b0
    (calls : list (list (list ndarray))) :
  EER.init bs C k burn train = inr b0 -> (0 < C)%Z ->
  let b := eer_run calls b0 in
  length (EER.queue b) = k
  /\ EER.timestep b = burn + train
  /\ EER.capacity b = Z.to_nat C
  /\ EER._size b <= EER.capacity b
  /\ (exists trajs,
        EER.live_slots b = Some <$> trajs
        /\ length trajs = EER._size b
        /\ Forall (fun traj => traj <> []) trajs)
  /\ EER.get_burn_in_states b = Raises AttributeError b.
Proof.
  intros Hinit HC b.
  assert (Hinit' : ER.init (A:=list (list ndarray)) bs C
                   = inr (slot_store b0)).
  { unfold EER.init in Hinit. unfold ER.init.
    destruct (0 <=? bs)%Z; simpl in *; [|done].
    destruct (0 <=? C)%Z; simpl in *; [|done]. by injection Hinit as <-. }
  assert (Hb0 : length (EER.queue b0) = k /\ EER.timestep b0 = burn + train
                /\ EER.burn_in_states b0 = None
                /\ Forall (fun slot => slot <> Some []) (EER._buffer b0)).
  { unfold EER.init in Hinit.
    destruct (0 <=? bs)%Z; simpl in *; [|done].
    destruct (0 <=? C)%Z; simpl in *; [|done]. injection Hinit as <-.
    simpl. rewrite length_replicate. repeat split; try done.
    by apply Forall_replicate. }
  destruct Hb0 as (Hk & Hts & Hst & Hne).
  destruct (eer_frame_run calls b0)
    as [([ops Hops] & Hlen & Hst' & Hts' & _) Hne'].
  fold b in Hops, Hlen, Hst', Hts', Hne'. specialize (Hne' Hne).
  destruct (written_inv_init bs C _ Hinit' HC) as [Hinv0 _].
  destruct (written_inv_run _ ops _ Hinv0) as [Hinv _].
  rewrite <- Hops in Hinv.
  destruct (written_inv_live _ _ Hinv) as (trajs & Hlive & Hrows).
  destruct Hinv as [Hcap (xs & _ & Hlen' & Hsz & _)]. simpl in *.
  change (ER.live_slots (slot_store b)) with (EER.live_slots b) in Hlive.
  repeat split; try congruence; try lia.
  - exists trajs. split; [done|]. split; [done|].
    apply Forall_forall. intros traj Hin ->.
    assert (Hin' : Some [] ∈ EER.live_slots b)
      by (rewrite Hlive; by apply list_elem_of_fmap_2).
    unfold EER.live_slots in Hin'.
    apply (subseteq_take (EER._size b)) in Hin'.
    rewrite Forall_forall in Hne'. by apply (Hne' _ Hin').
  - unfold EER.get_burn_in_states. by rewrite Hst', Hst.
Qed.

(** ** [EpisodeExperienceReplay.sample]: the burn-in part and the training part *)

(** X16: for trajectories picked from the store, as many as [n_sample],
    whose steps all have the same at least seven fields of the widths
    [widths], none of width 0 from [done] on, and window starts in range,
    on a buffer with [train_time_step > 0] and
    [timestep = burn_in_time_step + train_time_step]: [sample] returns one
    value per field; afterwards [get_burn_in_states] returns the first
    [burn_in_time_step] rows of every padded window of the fields [s] and
    [visual_s]; the fields 0, 1, 4 and 5 come back as one block of
    [train_time_step] rows per trajectory, the actions and the fields
    from [done] on as [B * train_time_step] vectors of the width of the
    field, and the rewards as rows of one value each. *)
Theorem sample_splits_burn_in_and_training (b : EER.t)
    (choice starts : list nat) (trajs : list (list (list ndarray)))
    (widths : list nat) :
  0 < EER.train_time_step b ->
  EER.timestep b = EER.burn_in_time_step b + EER.train_time_step b ->
  7 <= length widths ->
  EER.picked choice b = Some trajs -> trajs <> [] ->
  length choice = EER.n_sample b ->
  Forall (fixed_format widths) trajs ->
  (forall k d, 6 <= k -> widths !! k = Some d -> 0 < d) ->
  Forall2 (EER.possible_start (EER.timestep b)) trajs starts ->
  exists out b',
    EER.sample choice starts b = Returns out b'
    /\ length out = length widths
    /\ (exists s_b vs_b,
          EER.get_burn_in_states b' = Returns (s_b, vs_b) b'
          /\ length s_b = length trajs /\ length vs_b = length trajs
          /\ Forall (fun row => length row = EER.burn_in_time_step b) s_b
          /\ Forall (fun row => length row = EER.burn_in_time_step b) vs_b)
    /\ forall k d, widths !! k = Some d ->
         exists field,
           out !! k = Some field
           /\ match field with
              | EER.BTN x =>
                  k < 6 /\ k <> 2 /\ k <> 3
                  /\ length x = length trajs
                  /\ Forall (fun row =>
                               length row = EER.train_time_step b
                               /\ Forall (fun v => length v = d) row) x
              | EER.RowsN x =>
                  if k =? 3
                  then length x = length trajs * EER.train_time_step b * d
                       /\ Forall (fun row => length row = 1) x
                  else (k = 2 \/ 6 <= k)
                       /\ length x = length trajs * EER.train_time_step b
                       /\ Forall (fun v => length v = d) x
              end.
Proof.
  intros Htrain Hts Hn Hpicked Hne Hchoice Hff Hpos Hstarts.
  pose proof (sample_returns_training b choice starts trajs widths Htrain Hts
                Hn Hpicked Hne Hchoice Hff Hpos Hstarts) as Hsample.
  cbv zeta in Hsample.
  set (W := EER.timestep b) in *.
  set (B := EER.burn_in_time_step b) in *.
  set (windows := zip_with (EER.truncate W) trajs starts) in *.
  assert (HW : 0 < W) by lia.
  destruct (windows_fixed_format widths W trajs starts HW Hff Hstarts)
    as (Hwff & Hfit & Hlenw).
  fold windows in Hwff, Hfit, Hlenw.
  assert (Hshape : forall k d, widths !! k = Some d ->
            length (padded_field W k windows) = length trajs
            /\ Forall (fun row => length row = W
                                  /\ Forall (fun v => length v = d) row)
                 (padded_field W k windows)).
  { intros k d Hk. rewrite <- Hlenw. by apply (padded_field_rows widths). }
  eexists. eexists. split; [exact Hsample|].
  split; [by rewrite length_imap, !length_fmap, length_seq|]. split.
  - destruct (lookup_lt_is_Some_2 widths 0 ltac:(lia)) as [d0 Hd0].
    destruct (lookup_lt_is_Some_2 widths 1 ltac:(lia)) as [d1 Hd1].
    destruct (Hshape 0 d0 Hd0) as [H0 G0].
    destruct (Hshape 1 d1 Hd1) as [H1 G1].
    destruct (length widths) as [|[|n']]; [lia|lia|].
    exists (take B <$> padded_field W 0 windows),
           (take B <$> padded_field W 1 windows).
    split; [reflexivity|].
    rewrite !length_fmap. repeat split; try done.
    + apply Forall_fmap. eapply Forall_impl; [exact G0|]. simpl.
      intros row [Hrow _]. rewrite length_take. lia.
    + apply Forall_fmap. eapply Forall_impl; [exact G1|]. simpl.
      intros row [Hrow _]. rewrite length_take. lia.
  - intros k d Hk. destruct (Hshape k d Hk) as [Hl Hr].
    assert (Hkn : k < length widths) by (by eapply lookup_lt_Some).
    assert (Hrows : Forall (fun row => length row = EER.train_time_step b
                                       /\ Forall (fun v => length v = d) row)
                      (drop B <$> padded_field W k windows)).
    { apply Forall_fmap. eapply Forall_impl; [exact Hr|]. simpl.
      intros row [Hrow Hvec]. split; [rewrite length_drop; lia|].
      by apply Forall_drop. }
    assert (Hlenc : length (concat (drop B <$> padded_field W k windows))
                    = length trajs * EER.train_time_step b).
    { rewrite (length_concat_uniform (EER.train_time_step b)).
      - by rewrite length_fmap, Hl.
      - eapply Forall_impl; [exact Hrows|]. by intros row [? _]. }
    assert (Hvec : Forall (fun v => length v = d)
                     (concat (drop B <$> padded_field W k windows))).
    { apply Forall_concat. eapply Forall_impl; [exact Hrows|].
      by intros row [_ ?]. }
    exists (flattened k (drop B <$> padded_field W k windows)). split.
    { rewrite list_lookup_imap, !list_lookup_fmap, lookup_seq_lt by done.
      reflexivity. }
    unfold flattened.
    destruct (Nat.eqb_spec k 3) as [->|H3]; cbv beta iota.
    { split; [|apply Forall_fmap, Forall_true; done].
      by rewrite length_fmap, (length_concat_uniform d), Hlenc. }
    destruct (Nat.eqb_spec k 2) as [->|H2]; cbn [orb]; cbv beta iota.
    { split; [by left|]. by split. }
    destruct (Nat.leb_spec 6 k); cbv beta iota.
    { split; [by right|]. by split. }
    rewrite length_fmap. repeat split; try done; lia.
Qed.

(** ** The further properties on concrete buffers *)

(** Two stores around a reset, capacity 2. *)
Lemma er_stores_and_resets_keep_live_slots_written_witness :
  let rb := er_run [ErStore [1]; ErReset; ErStore [2]] (fresh 1 2) in
  ER._size rb <= ER.capacity rb /\ ER._data_pointer rb < ER.capacity rb.
Proof.
  destruct (er_stores_and_resets_keep_live_slots_written (A:=list nat) 1 2
              (fresh 1 2) [ErStore [1]; ErReset; ErStore [2]] [3]
              eq_refl eq_refl) as (H1 & H2 & _).
  exact (conj H1 H2).
Defined.

(** A buffer of capacity 0. *)
Lemma er_capacity_zero_store_raises_witness :
  exists rb0 : ER.t (list nat),
    ER.init 1 0 = inr rb0 /\ ER._store_op [3] rb0 = Raises IndexError rb0.
Proof.
  destruct (er_capacity_zero_store_raises (A:=list nat) 1 [3] ltac:(lia))
    as (rb0 & Hinit & H).
  exists rb0. split; [exact Hinit|exact (proj2 (H []))].
Defined.

(** Two rows stored, batch size 1, the second slot drawn. *)
Lemma er_sample_returns_live_rows_witness :
  let rb := er_run [ErStore [1]; ErStore [2]] (fresh 1 2) in
  exists rows : list (list nat),
    ER.sample [1] rb = Returns (zip_star (unpack <$> rows)) rb
    /\ length rows = 1.
Proof.
  destruct (er_sample_returns_live_rows (A:=list nat) 1 2 (fresh 1 2)
              [ErStore [1]; ErStore [2]] [1] eq_refl eq_refl)
    as (rows & Hs & Hlen & _).
  - split; [reflexivity|]. split; [apply NoDup_singleton|].
    repeat constructor.
  - exists rows. split; [exact Hs|exact Hlen].
Defined.

(** Two columns of two values each. *)
Lemma er_add_get_all_round_trip_witness :
  exists rb,
    ER.add [[1; 2]; [3; 4]] (fresh 1 2) = Returns tt rb
    /\ ER.get_all rb = Returns [[1; 2]; [3; 4]] rb.
Proof.
  destruct (er_add_get_all_round_trip (F:=nat) 1 2 (fresh 1 2)
              [[1; 2]; [3; 4]] 2 eq_refl)
    as (rb & Hadd & _ & Hget).
  - discriminate.
  - simpl. lia.
  - repeat constructor.
  - exists rb. split; [exact Hadd|exact Hget].
Defined.

(** Three rows into two slots. *)
Lemma er_queries_count_insertions_witness :
  exists rb,
    ER.store_all [[1]; [2]; [3]] (fresh 1 2) = Returns tt rb
    /\ ER.n_sample rb = 1.
Proof.
  destruct (er_queries_count_insertions (A:=list nat) 1 2 (fresh 1 2)
              [[1]; [2]; [3]] eq_refl eq_refl)
    as (rb & Hrun & _ & _ & Hn).
  exists rb. split; [exact Hrun|exact Hn].
Defined.

(** Two calls of [add] with [n = 3]. *)
Lemma nstep_queues_never_exceed_n_witness :
  Forall (fun q => length q <= 3)
    (NS.queue
       (state_of
          (feed [[step_t 0 1 false]; [step_t 1 1 false]]
             (NS.init (fresh (A:=transition) 32 10) (9 # 10) 3 1)))).
Proof.
  exact (proj2 (proj2
    (nstep_queues_never_exceed_n (fresh (A:=transition) 32 10) (9 # 10) 3 1
       [[step_t 0 1 false]; [step_t 1 1 false]] ltac:(lia)))).
Defined.

(** Three consecutive steps with [n = 2]: the window of the first two
    steps is committed, the entries of the last two stay queued. *)
Lemma nstep_continuous_stream_witness :
  exists w',
    per_store_each 0 [step_t 0 1 false; step_t 1 1 false; step_t 2 1 false]
      (NS.init (fresh (A:=transition) 32 10) (9 # 10) 2 1) = Returns tt w'
    /\ ER._size (NS.buffer w') = 1
    /\ length <$> NS.queue w' = [2].
Proof.
  pose (w := NS.init (fresh (A:=transition) 32 10) (9 # 10) 2 1).
  pose (ds := [step_t 0 1 false; step_t 1 1 false; step_t 2 1 false]).
  pose (b' := state_of
    (commit_all
       (omap (window_entry (NS.gamma w)) (windows (NS.n w) (removelast ds)))
       (NS.buffer w))).
  exists (NS.set_buffer b'
            (with_queue 0
               (open_entries (NS.gamma w) (drop (length ds - NS.n w) ds)) w)).
  split; [|split; reflexivity].
  apply (nstep_continuous_stream w 0 ds b').
  - simpl. lia.
  - reflexivity.
  - simpl. repeat split; reflexivity.
  - repeat constructor.
  - reflexivity.
Defined.

(** Two consecutive steps with [n = 3], then a step from elsewhere. *)
Lemma nstep_short_run_is_lost_witness :
  let w := NS.init (fresh (A:=transition) 32 10) (9 # 10) 3 1 in
  per_store_each 0
    ([step_t 0 1 false; step_t 1 1 false] ++ [step_t 7 1 false]) w
  = Returns tt (with_queue 0 [step_t 7 1 false] w).
Proof.
  refine (proj1 (nstep_short_run_is_lost
            (NS.init (fresh (A:=transition) 32 10) (9 # 10) 3 1) 0
            [step_t 0 1 false; step_t 1 1 false] (step_t 1 1 false)
            (step_t 7 1 false) eq_refl _ _ eq_refl _ _)).
  - simpl. repeat split; reflexivity.
  - repeat constructor.
  - simpl. lia.
  - discriminate.
Defined.

Section PERWitnesses.
Local Open Scope R_scope.

(** One store into a buffer after a valid construction. *)
Lemma per_bookkeeping_witness :
  (PER._size (run [OpStoreOp 7%nat] constructed_example)
   <= PER.capacity (run [OpStoreOp 7%nat] constructed_example))%nat.
Proof.
  refine (proj1 (proj2 (proj2 (proj2 (proj2 (proj2
    (per_bookkeeping (D:=nat) 32 10 100 (6 / 10) (4 / 10) (1 / 100) false
       constructed_example [OpStoreOp 7%nat] _))))))).
  apply init_returns; (lra || lia).
Defined.

(** An update of two priorities. *)
Lemma update_priorities_within_bounds_witness :
  exists b',
    PER.update [1; 2] (Some [0; 1]%nat) constructed_example = Returns tt b'
    /\ PER.max_p constructed_example <= PER.max_p b'.
Proof.
  pose (b' := state_of
                (PER.update [1; 2] (Some [0; 1]%nat) constructed_example)).
  exists b'.
  assert (Hupd : PER.update [1; 2] (Some [0; 1]%nat) constructed_example
                 = Returns tt b') by reflexivity.
  split; [exact Hupd|].
  exact (proj1 (proj2 (proj2 (proj2
    (update_priorities_within_bounds [1; 2] (Some [0; 1]%nat)
       constructed_example b' Hupd))))).
Defined.

(** An update without index on a buffer that was never sampled. *)
Lemma update_failure_modes_witness :
  PER.update [1] None (run [OpStoreOp 7%nat] constructed_example)
  = Raises AttributeError (run [OpStoreOp 7%nat] constructed_example).
Proof.
  refine (proj1 (update_failure_modes (D:=nat) 32 10 100 (6 / 10) (4 / 10)
                   (1 / 100) false constructed_example [OpStoreOp 7%nat] _)
            _ [1]).
  - apply init_returns; (lra || lia).
  - repeat constructor.
Defined.
End PERWitnesses.

(** An episode of two steps and one of three. *)
Lemma episodes_are_stored_whole_witness :
  exists b0 b,
    EER.init 32 10 1 2 3 = inr b0
    /\ eer_feed 0
         (concat [[ep_step 0 0; ep_step 1 1];
                  [ep_step 5 0; ep_step 6 0; ep_step 7 1]]) b0
       = Returns tt b
    /\ EER._size b = 2.
Proof.
  exists (EER.mk 32 10 0 1 2 3 5 [[]] 0 (replicate 10 None) None).
  destruct (episodes_are_stored_whole 32 10 1 2 3 0
              (EER.mk 32 10 0 1 2 3 5 [[]] 0 (replicate 10 None) None)
              [[ep_step 0 0; ep_step 1 1];
               [ep_step 5 0; ep_step 6 0; ep_step 7 1]]
              eq_refl eq_refl)
    as (b & Hrun & _ & Hsz & _).
  - lia.
  - repeat constructor; simpl; repeat split;
      repeat eexists; reflexivity.
  - exists b. split; [reflexivity|]. split; [exact Hrun|exact Hsz].
Defined.

(** Two calls of [add] for one agent. *)
Lemma eer_adds_keep_live_slots_filled_witness :
  let b := eer_run [[ep_step 0 0]; [ep_step 1 1]]
             (EER.mk 32 10 0 1 2 3 5 [[]] 0 (replicate 10 None) None) in
  EER._size b <= EER.capacity b.
Proof.
  exact (proj1 (proj2 (proj2 (proj2
    (eer_adds_keep_live_slots_filled 32 10 1 2 3
       (EER.mk 32 10 0 1 2 3 5 [[]] 0 (replicate 10 None) None)
       [[ep_step 0 0]; [ep_step 1 1]] eq_refl eq_refl))))).
Defined.

(** The store of two episodes, both sampled. *)
Lemma sample_splits_burn_in_and_training_witness :
  exists out b',
    EER.sample [0; 1] [1; 0] episode_example = Returns out b'
    /\ length out = 7.
Proof.
  destruct (sample_splits_burn_in_and_training episode_example [0; 1] [1; 0]
              [[ep_step 0 0; ep_step 1 0; ep_step 2 0; ep_step 3 0;
                ep_step 4 0; ep_step 5 0; ep_step 6 1];
               [ep_step 10 0; ep_step 11 1]] [1; 0; 1; 1; 1; 0; 1])
    as (out & b' & Hs & Hlen & _).
  - vm_compute. lia.
  - by vm_compute.
  - simpl. lia.
  - by vm_compute.
  - discriminate.
  - reflexivity.
  - repeat constructor; discriminate.
  - intros k d Hk Hd.
    destruct k as [|[|[|[|[|[|[|k]]]]]]]; try lia;
      [injection Hd as <-; lia|done].
  - repeat constructor; vm_compute; lia.
  - exists out, b'. split; [exact Hs|exact Hlen].
Defined.
